(** * ElectrumSV: transaction codec, signing core and wallet storage

    A shallow embedding of [electrumsv/transaction.py] and
    [electrumsv/storage.py].

    Conventions of the embedding.
    - Python [bytes] are [list byte].  Hexadecimal text ([str] holding hex
      digits, as produced by [bh2u] and consumed by [bfh]) is represented by
      the byte string it denotes, so [bh2u] and [bfh] are the identity and
      [len(s)//2] is [length].
    - Python [int] is [Z].
    - A Python [dict] whose keys vary from one use to the next (the
      per-input dictionary) is a record of [option] fields; [None] is the
      absent key and reading it raises [KeyError].
    - Exceptions are values of [exn]; code that can raise returns [result].
    - Mutation of [self] is explicit state passing.
    - Functions of the [bitcoinx] library and the elliptic-curve and hash
      primitives are the fields of the class [Externals]. *)

From Stdlib Require Import ZArith Lia List Bool String Ascii Sorted.
From Stdlib Require Strings.Byte.
From Stdlib Require Import Init.Byte.
From stdpp Require Import base option list gmap strings pretty.

Local Open Scope Z_scope.

(** ** Exceptions and results *)

Inductive exn : Type :=
| KeyError (key : string)
| IndexError
| TypeError
| ValueError
| AssertionError
| AttributeError
| RuntimeError (msg : string)
| SerializationError
| InputValueMissing
| InvalidSignatureError
| StructError
| IOError
| FileNotFoundError
| IncompatibleWalletError
| Exception (msg : string).

Inductive result (A : Type) : Type :=
| Ok (a : A)
| Raise (e : exn).
Arguments Ok {A} a.
Arguments Raise {A} e.

Definition rbind {A B : Type} (m : result A) (f : A → result B) : result B :=
  match m with
  | Ok a => f a
  | Raise e => Raise e
  end.

Definition rmap {A B : Type} (f : A → B) (m : result A) : result B :=
  match m with
  | Ok a => Ok (f a)
  | Raise e => Raise e
  end.

Declare Scope result_scope.
Delimit Scope result_scope with result.
Bind Scope result_scope with result.
Notation "'let*' p ':=' m 'in' k" := (rbind m (λ p, k%result))
  (at level 10, p pattern, m at level 100, k at level 200, only parsing)
  : result_scope.

(** [d[key]] on a dictionary modelled by an [option] field. *)
Definition getitem {A} (key : string) (o : option A) : result A :=
  match o with
  | Some a => Ok a
  | None => Raise (KeyError key)
  end.

(** [l[i]] for a non-negative index. *)
Definition list_index {A} (l : list A) (i : nat) : result A :=
  match l !! i with
  | Some a => Ok a
  | None => Raise IndexError
  end.

(** [l[i] = x] for a non-negative index; out of range raises. *)
Definition list_setitem {A} (l : list A) (i : nat) (x : A) : result (list A) :=
  if decide (i < length l)%nat then Ok (<[i:=x]> l) else Raise IndexError.

Fixpoint rmapM {A B} (f : A → result B) (l : list A) : result (list B) :=
  match l with
  | [] => Ok []
  | a :: l' => let* b := f a in let* bs := rmapM f l' in Ok (b :: bs)
  end.

(** ** Bytes and fixed-width integers *)

Abbreviation bytes := (list byte).

Definition byte_to_Z (b : byte) : Z := Z.of_N (Byte.to_N b).

Definition Z_to_byte (z : Z) : byte :=
  default Byte.x00 (Byte.of_N (Z.to_N (z `mod` 256))).

Global Instance byte_eq_dec : EqDecision byte := Byte.byte_eq_dec.

Global Instance byte_countable : Countable byte :=
  inj_countable Byte.to_N Byte.of_N Byte.of_to_N.

(** [struct.pack('<..', z)] on [n] bytes, for [z] in range. *)
Fixpoint le_bytes (n : nat) (z : Z) : bytes :=
  match n with
  | O => []
  | S k => Z_to_byte z :: le_bytes k (z `div` 256)
  end.

(** The unsigned little-endian value of a byte string. *)
Fixpoint le_value (bs : bytes) : Z :=
  match bs with
  | [] => 0
  | b :: bs' => byte_to_Z b + 256 * le_value bs'
  end.

(** Two's-complement reading of an unsigned [w]-bit value. *)
Definition to_signed (w : Z) (z : Z) : Z :=
  if z <? 2 ^ (w - 1) then z else z - 2 ^ w.

(** * Transactions: [electrumsv/transaction.py] *)

Module Tx.

Declare Scope reader_scope.
Declare Scope method_scope.

Definition NO_SIGNATURE : bytes := [xff].

(** The opcodes of [bitcoinx.Ops] that the module names. *)
Definition OP_0 : Z := 0.
Definition OP_PUSHDATA1 : Z := 76.
Definition OP_PUSHDATA2 : Z := 77.
Definition OP_PUSHDATA4 : Z := 78.
Definition OP_1 : Z := 81.
Definition OP_CHECKMULTISIG : Z := 174.

(** [class XPublicKey]: a wrapper of the raw bytes; equality and hash are
    those of the raw bytes. *)
Record XPublicKey : Type := mkXPublicKey { raw : bytes }.

Global Instance XPublicKey_eq_dec : EqDecision XPublicKey.
Proof. solve_decision. Defined.

Global Instance XPublicKey_countable : Countable XPublicKey :=
  inj_countable' raw mkXPublicKey (λ x, match x with mkXPublicKey _ => eq_refl end).

(** ** Wire encodings *)

(** Modelled from the spec: [int_to_hex] of [electrumsv/bitcoin.py], which
    is not among the sources: the little-endian fixed-width encoding of the
    wire format.  A value that does not fit the width is an error here. *)
Definition int_to_hex (i : Z) (length : nat) : result bytes :=
  if bool_decide (0 ≤ i < 256 ^ Z.of_nat length) then Ok (le_bytes length i)
  else Raise ValueError.

(** Modelled from the spec: [var_int] of [electrumsv/bitcoin.py], which is
    not among the sources: the compact-size encoding ([< 253] one byte;
    [253] and two bytes; [254] and four bytes; [255] and eight bytes). *)
Definition var_int (i : Z) : result bytes :=
  if bool_decide (i < 253) then int_to_hex i 1
  else if bool_decide (i ≤ 65535) then rmap (cons xfd) (int_to_hex i 2)
  else if bool_decide (i ≤ 4294967295) then rmap (cons xfe) (int_to_hex i 4)
  else rmap (cons xff) (int_to_hex i 8).

(** Modelled from the spec: [op_push] and [push_script] of
    [electrumsv/bitcoin.py], which are not among the sources: a data push
    is the payload after its length, the length being the opcode itself
    below [OP_PUSHDATA1] and otherwise following [OP_PUSHDATA1],
    [OP_PUSHDATA2] or [OP_PUSHDATA4] on one, two or four bytes. *)
Definition op_push (i : Z) : result bytes :=
  if bool_decide (i < 76) then int_to_hex i 1
  else if bool_decide (i < 255) then rmap (cons x4c) (int_to_hex i 1)
  else if bool_decide (i < 65535) then rmap (cons x4d) (int_to_hex i 2)
  else rmap (cons x4e) (int_to_hex i 4).

Definition push_script (x : bytes) : result bytes :=
  let* op := op_push (Z.of_nat (length x)) in Ok (op ++ x).

(** ** [_BCDataStream], reading *)

Record BCDataStream : Type := mkBCDataStream {
  input : bytes;
  read_cursor : nat;
}.

(** A reading method: the stream after the call comes with the value. *)
Definition Reader (A : Type) : Type := BCDataStream → result (A * BCDataStream).

Definition reader_ret {A : Type} (a : A) : Reader A := λ vds, Ok (a, vds).

Definition reader_bind {A B : Type} (m : Reader A) (f : A → Reader B) : Reader B :=
  λ vds,
    match m vds with
    | Ok (a, vds') => f a vds'
    | Raise e => Raise e
    end.

Definition reader_raise {A : Type} (e : exn) : Reader A := λ _, Raise e.

Definition reader_lift {A : Type} (m : result A) : Reader A :=
  λ vds, match m with Ok a => Ok (a, vds) | Raise e => Raise e end.

Delimit Scope reader_scope with reader.
Bind Scope reader_scope with Reader.
Notation "'let*' p ':=' m 'in' k" := (reader_bind m (λ p, k%reader))
  (at level 10, p pattern, m at level 100, k at level 200, only parsing)
  : reader_scope.

(** The [struct] formats the stream uses. *)
Inductive struct_format : Type := fmt_h | fmt_H | fmt_i | fmt_I | fmt_q | fmt_Q.

Definition calcsize (format : struct_format) : nat :=
  match format with
  | fmt_h | fmt_H => 2
  | fmt_i | fmt_I => 4
  | fmt_q | fmt_Q => 8
  end.

Definition unpack (format : struct_format) (bs : bytes) : Z :=
  match format with
  | fmt_H | fmt_I | fmt_Q => le_value bs
  | fmt_h => to_signed 16 (le_value bs)
  | fmt_i => to_signed 32 (le_value bs)
  | fmt_q => to_signed 64 (le_value bs)
  end.

(** [self.input[cursor:cursor+length]]: the slice is short at the end of
    the buffer and nothing is raised. *)
Definition read_bytes (length : Z) : Reader bytes :=
  λ vds,
    let n := Z.to_nat length in
    Ok (take n (drop (read_cursor vds) (input vds)),
        mkBCDataStream (input vds) (read_cursor vds + n)).

Definition _read_num (format : struct_format) : Reader Z :=
  λ vds,
    let size := calcsize format in
    if decide (read_cursor vds + size ≤ length (input vds))%nat then
      Ok (unpack format (take size (drop (read_cursor vds) (input vds))),
          mkBCDataStream (input vds) (read_cursor vds + size))
    else Raise SerializationError.

Definition read_int32 : Reader Z := _read_num fmt_i.
Definition read_uint32 : Reader Z := _read_num fmt_I.
Definition read_uint64 : Reader Z := _read_num fmt_Q.

Definition read_compact_size : Reader Z :=
  λ vds,
    match input vds !! read_cursor vds with
    | None => Raise SerializationError
    | Some b =>
        let size := byte_to_Z b in
        let vds' := mkBCDataStream (input vds) (read_cursor vds + 1) in
        if bool_decide (size = 253) then _read_num fmt_H vds'
        else if bool_decide (size = 254) then _read_num fmt_I vds'
        else if bool_decide (size = 255) then _read_num fmt_Q vds'
        else Ok (size, vds')
    end.

(** ** Script decoding *)

(** One pass of the loop of [_script_GetOp] from position [i], [rest] being
    [_bytes[i:]]; each pass takes at least one byte, so [length rest] passes
    are enough. *)
Fixpoint _script_GetOp_from (fuel : nat) (rest : bytes) (i : nat)
  : list (Z * option bytes * nat) :=
  match fuel, rest with
  | S fuel', b :: rest1 =>
      let opcode := byte_to_Z b in
      let i1 := (i + 1)%nat in
      if bool_decide (opcode ≤ OP_PUSHDATA4) then
        let '(nSize, width) :=
          if bool_decide (opcode = OP_PUSHDATA1) then
            (match rest1 with c :: _ => byte_to_Z c | [] => 0 end, 1%nat)
          else if bool_decide (opcode = OP_PUSHDATA2) then
            (if decide (2 ≤ length rest1)%nat then le_value (take 2 rest1) else 0, 2%nat)
          else if bool_decide (opcode = OP_PUSHDATA4) then
            (if decide (4 ≤ length rest1)%nat then le_value (take 4 rest1) else 0, 4%nat)
          else (opcode, 0%nat) in
        let rest2 := drop width rest1 in
        let n := Z.to_nat nSize in
        let i2 := (i1 + width + n)%nat in
        (opcode, Some (take n rest2), i2) :: _script_GetOp_from fuel' (drop n rest2) i2
      else (opcode, None, i1) :: _script_GetOp_from fuel' rest1 i1
  | _, _ => []
  end.

(** [list(_script_GetOp(_bytes))] *)
Definition _script_GetOp (_bytes : bytes) : list (Z * option bytes * nat) :=
  _script_GetOp_from (length _bytes) _bytes 0.

Fixpoint _match_decoded_loop (decoded : list (Z * option bytes * nat))
  (to_match : list Z) : bool :=
  match decoded, to_match with
  | d :: decoded', t :: to_match' =>
      if bool_decide (t = OP_PUSHDATA4) && bool_decide (d.1.1 ≤ OP_PUSHDATA4)
         && bool_decide (d.1.1 > 0)
      then _match_decoded_loop decoded' to_match'
      else if bool_decide (t ≠ d.1.1) then false
      else _match_decoded_loop decoded' to_match'
  | _, _ => true
  end.

Definition _match_decoded (decoded : list (Z * option bytes * nat))
  (to_match : list Z) : bool :=
  if decide (length decoded ≠ length to_match) then false
  else _match_decoded_loop decoded to_match.

Definition _parse_sig (x_sig : list bytes) : list (option bytes) :=
  (λ x, if decide (x = NO_SIGNATURE) then None else Some x) <$> x_sig.

(** [bh2u(v)] on the data of a decoded operation, which is [None] for an
    opcode that pushes nothing. *)
Definition bh2u_item (v : option bytes) : result bytes :=
  match v with
  | Some b => Ok b
  | None => Raise TypeError
  end.

(** What the module takes from [bitcoinx], [.crypto] and the curve. *)
Class Externals : Type := {
  PublicKey : Type;
  Address : Type;
  (** [PublicKey.__eq__] *)
  PublicKey_eqb : PublicKey → PublicKey → bool;
  sha256d : bytes → bytes;
  double_sha256 : bytes → bytes;
  hash_160 : bytes → bytes;
  PublicKey_from_bytes : bytes → result PublicKey;
  (** [public_key.to_bytes(compressed=c)]; [None] is the key's own format *)
  PublicKey_to_bytes : PublicKey → option bool → bytes;
  PublicKey_add : PublicKey → bytes → result PublicKey;
  PublicKey_to_address : PublicKey → Address;
  (** [bip32_key_from_string(base58_encode_check(payload))] followed by
      [.child(n)] for each [n] of the path *)
  bip32_derive : bytes → list Z → result PublicKey;
  (** [classify_output_script(Script(s))] when it is an [Address] *)
  classify_output_script : bytes → option Address;
  (** [(a.__class__)(a.hash160(), coin=Net.COIN)] *)
  Address_with_coin : Address → Address;
  Address_to_script_bytes : Address → bytes;
  (** [a.to_bytes()] on an [Address] object *)
  Address_to_bytes : Address → result bytes;
  (** [P2PK_Output(k).to_script_bytes()] *)
  P2PK_Output_script : PublicKey + Address → result bytes;
  P2SH_Address : bytes → Address;
  push_int : Z → bytes;
  push_item : bytes → bytes;
  (** [PrivateKey(sec).sign(h, None)] *)
  PrivateKey_sign : bytes → bytes → result bytes;
  (** [PrivateKey(sec).public_key.to_bytes(compressed=c)] *)
  PrivateKey_public_key_bytes : bytes → bool → result bytes;
  der_signature_to_compact : bytes → result bytes;
  (** [PublicKey.from_recoverable_signature(rec_sig, h, None)] *)
  from_recoverable_signature : bytes → bytes → result PublicKey;
  (** [k.verify_recoverable_signature(rec_sig, h, None)] *)
  verify_recoverable_signature : PublicKey → bytes → bytes → result bool;
  (** [PublicKey.from_bytes(bytes(range(3, 36)))] *)
  dummy_public_key : PublicKey;
}.

Section WithExternals.
Context `{Externals}.

(** ** [XPublicKey] *)

Definition kind (x : XPublicKey) : result Z :=
  match raw x with
  | b :: _ => Ok (byte_to_Z b)
  | [] => Raise IndexError
  end.

Definition is_bip32_key (x : XPublicKey) : result bool :=
  let* k := kind x in Ok (bool_decide (k = 255)).

(** [unpack_le_uint16(self.raw[n: n+2])[0]] *)
Definition unpack_le_uint16_at (r : bytes) (n : nat) : result Z :=
  let bs := take 2 (drop n r) in
  if decide (length bs = 2%nat) then Ok (le_value bs) else Raise StructError.

(** The extended key is kept as the 78 bytes that [base58_encode_check]
    encodes. *)
Definition bip32_extended_key (x : XPublicKey) : result bytes :=
  if decide (length (raw x) = 83%nat) then
    let* b := is_bip32_key x in
    if b then Ok (take 78 (drop 1 (raw x))) else Raise AssertionError
  else Raise AssertionError.

Definition bip32_extended_key_and_path (x : XPublicKey) : result (bytes * list Z) :=
  let* extended_key := bip32_extended_key x in
  let* path := rmapM (unpack_le_uint16_at (raw x)) [79%nat; 81%nat] in
  Ok (extended_key, path).

Definition _bip32_public_key (x : XPublicKey) : result PublicKey :=
  let* (extended_key, path) := bip32_extended_key_and_path x in
  bip32_derive extended_key path.

Definition old_keystore_mpk_and_path (x : XPublicKey) : result (bytes * list Z) :=
  if decide (length (raw x) = 69%nat) then
    let* k := kind x in
    if decide (k = 254) then
      let* path := rmapM (unpack_le_uint16_at (raw x)) [65%nat; 67%nat] in
      Ok (take 64 (drop 1 (raw x)), path)
    else Raise AssertionError
  else Raise AssertionError.

(** [f'{path[1]}:{path[0]}:'.encode()] *)
Definition old_keystore_delta_prefix (path : list Z) : result bytes :=
  let* p1 := list_index path 1 in
  let* p0 := list_index path 0 in
  Ok (list_byte_of_string (pretty p1 +:+ ":" +:+ pretty p0 +:+ ":")).

Definition _old_keystore_public_key (x : XPublicKey) : result PublicKey :=
  let* (mpk, path) := old_keystore_mpk_and_path x in
  let* mpk := PublicKey_from_bytes (x04 :: mpk) in
  let* prefix := old_keystore_delta_prefix path in
  let delta := double_sha256 (prefix ++ take 64 (drop 1 (raw x))) in
  PublicKey_add mpk delta.

(** Returns a public key ([inl]) or an address ([inr]). *)
Definition to_public_key (x : XPublicKey) : result (PublicKey + Address) :=
  let* k := kind x in
  if bool_decide (k ∈ [2; 3; 4]) then rmap inl (PublicKey_from_bytes (raw x))
  else if bool_decide (k = 255) then rmap inl (_bip32_public_key x)
  else if bool_decide (k = 254) then rmap inl (_old_keystore_public_key x)
  else if bool_decide (k = 253) then
    match classify_output_script (drop 1 (raw x)) with
    | Some a => Ok (inr (Address_with_coin a))
    | None => Raise AssertionError
    end
  else Raise AssertionError.

(** [XPublicKey(raw)] for a [bytes] argument. *)
Definition XPublicKey_init (r : bytes) : result XPublicKey :=
  match to_public_key (mkXPublicKey r) with
  | Ok _ => Ok (mkXPublicKey r)
  | Raise ValueError | Raise AssertionError => Raise ValueError
  | Raise e => Raise e
  end.

Definition to_bytes (x : XPublicKey) : bytes := raw x.

Definition to_address (x : XPublicKey) : result Address :=
  let* r := to_public_key x in
  match r with
  | inr a => Ok a
  | inl k => Ok (PublicKey_to_address k)
  end.

Definition is_compressed (x : XPublicKey) : result bool :=
  let* k := kind x in Ok (negb (bool_decide (k ∈ [4; 254]))).

(** ** Inputs, outputs and transactions *)

Inductive txin_type : Type := p2pkh | p2pk | p2sh | coinbase | unknown.

Global Instance txin_type_eq_dec : EqDecision txin_type.
Proof. solve_decision. Defined.

(** The value under ['address']: [None], [UnknownAddress()] or an address. *)
Inductive address_value : Type :=
| AddressNone
| UnknownAddress
| AddressOf (a : Address).

(** The per-input dictionary.  A signature slot holds [None] or hex text;
    ['signatures'] is a list (the empty dictionary that [_parse_input]
    puts there for an input it cannot classify is the empty list).
    ['scriptSig'] holds hex text or [None]. *)
Record TxInput : Type := mkTxInput {
  type : option txin_type;
  prevout_hash : option bytes;
  prevout_n : option Z;
  sequence : option Z;
  x_pubkeys : option (list XPublicKey);
  signatures : option (list (option bytes));
  num_sig : option Z;
  address : option address_value;
  value : option Z;
  scriptSig : option (option bytes);
  scriptCode : option bytes;
}.

Record TxOutput : Type := mkTxOutput {
  out_value : Z;
  script_pubkey : bytes;
}.

(** A [Transaction] object whose inputs and outputs are loaded. *)
Record Transaction : Type := mkTransaction {
  tx_raw : option bytes;
  _inputs : list TxInput;
  _outputs : list TxOutput;
  locktime : Z;
  version : Z;
}.

Definition set_type (t : txin_type) (d : TxInput) : TxInput :=
  mkTxInput (Some t) (prevout_hash d) (prevout_n d) (sequence d) (x_pubkeys d)
    (signatures d) (num_sig d) (address d) (value d) (scriptSig d) (scriptCode d).
Definition set_x_pubkeys (v : list XPublicKey) (d : TxInput) : TxInput :=
  mkTxInput (type d) (prevout_hash d) (prevout_n d) (sequence d) (Some v)
    (signatures d) (num_sig d) (address d) (value d) (scriptSig d) (scriptCode d).
Definition set_signatures (v : list (option bytes)) (d : TxInput) : TxInput :=
  mkTxInput (type d) (prevout_hash d) (prevout_n d) (sequence d) (x_pubkeys d)
    (Some v) (num_sig d) (address d) (value d) (scriptSig d) (scriptCode d).
Definition set_num_sig (v : Z) (d : TxInput) : TxInput :=
  mkTxInput (type d) (prevout_hash d) (prevout_n d) (sequence d) (x_pubkeys d)
    (signatures d) (Some v) (address d) (value d) (scriptSig d) (scriptCode d).
Definition set_address (v : address_value) (d : TxInput) : TxInput :=
  mkTxInput (type d) (prevout_hash d) (prevout_n d) (sequence d) (x_pubkeys d)
    (signatures d) (num_sig d) (Some v) (value d) (scriptSig d) (scriptCode d).
Definition set_value (v : Z) (d : TxInput) : TxInput :=
  mkTxInput (type d) (prevout_hash d) (prevout_n d) (sequence d) (x_pubkeys d)
    (signatures d) (num_sig d) (address d) (Some v) (scriptSig d) (scriptCode d).
Definition set_scriptSig (v : option bytes) (d : TxInput) : TxInput :=
  mkTxInput (type d) (prevout_hash d) (prevout_n d) (sequence d) (x_pubkeys d)
    (signatures d) (num_sig d) (address d) (value d) (Some v) (scriptCode d).

Definition set_tx_raw (r : option bytes) (tx : Transaction) : Transaction :=
  mkTransaction r (_inputs tx) (_outputs tx) (locktime tx) (version tx).
Definition set_inputs (ins : list TxInput) (tx : Transaction) : Transaction :=
  mkTransaction (tx_raw tx) ins (_outputs tx) (locktime tx) (version tx).

(** Truth value of a signature slot: [None] and the empty text are false. *)
Definition sig_truthy (sig : option bytes) : bool :=
  match sig with
  | Some (_ :: _) => true
  | _ => false
  end.

(** [[sig for sig in x_signatures if sig]] *)
Definition present_signatures (x_signatures : list (option bytes)) : list bytes :=
  omap (λ sig, if sig_truthy sig then sig else None) x_signatures.

(** The objects [multisig_script] is called on: extended keys, or what
    [to_public_key] returned. *)
Inductive key_object : Type :=
| KeyX (x : XPublicKey)
| KeyP (k : PublicKey + Address).

Definition key_object_to_bytes (k : key_object) : result bytes :=
  match k with
  | KeyX x => Ok (to_bytes x)
  | KeyP (inl p) => Ok (PublicKey_to_bytes p None)
  | KeyP (inr a) => Address_to_bytes a
  end.

Definition multisig_script (x_pubkeys : list key_object) (threshold : Z) : result bytes :=
  if bool_decide (1 ≤ threshold ≤ Z.of_nat (length x_pubkeys)) then
    let* items := rmapM (λ k, rmap push_item (key_object_to_bytes k)) x_pubkeys in
    Ok (push_int threshold ++ concat items
        ++ push_int (Z.of_nat (length x_pubkeys)) ++ [Z_to_byte OP_CHECKMULTISIG])
  else Raise AssertionError.

(** [l[-1]] and [l[-2]] *)
Definition list_index_last {A : Type} (l : list A) (back : nat) : result A :=
  if decide (back < length l)%nat then list_index l (length l - 1 - back)
  else Raise IndexError.

(** [None] is the bare [return] after the pattern does not match. *)
Definition _parse_redeemScript (s : bytes)
  : result (option (Z * Z * list XPublicKey * Address)) :=
  let dec2 := _script_GetOp s in
  let* first := list_index dec2 0 in
  let m := first.1.1 - OP_1 + 1 in
  let* before_last := list_index_last dec2 1 in
  let n := before_last.1.1 - OP_1 + 1 in
  let op_m := OP_1 + m - 1 in
  let op_n := OP_1 + n - 1 in
  let match_multisig :=
    [op_m] ++ replicate (Z.to_nat n) OP_PUSHDATA4 ++ [op_n; OP_CHECKMULTISIG] in
  if negb (_match_decoded dec2 match_multisig) then Ok None
  else
    let* x_pubkeys :=
      rmapM (λ x, let* r := bh2u_item x.1.2 in XPublicKey_init r)
            (take (length dec2 - 3) (drop 1 dec2)) in
    let* redeemScript := multisig_script (KeyX <$> x_pubkeys) m in
    let address := P2SH_Address (hash_160 redeemScript) in
    Ok (Some (m, n, x_pubkeys, address)).

(** ** Parsing inputs *)

(** [Transaction.is_txin_complete] *)
Definition is_txin_complete (txin : TxInput) : result bool :=
  let num_sig := default 1 (num_sig txin) in
  let* x_signatures := getitem "signatures" (signatures txin) in
  let signatures := present_signatures x_signatures in
  Ok (bool_decide (Z.of_nat (length signatures) = num_sig)).

(** [_parse_scriptSig(d, _bytes)]: the dictionary after the call.  The
    decoding of the script raises nothing, so the first handler is never
    entered. *)
Definition _parse_scriptSig (d : TxInput) (_bytes : bytes) : result TxInput :=
  let decoded := _script_GetOp _bytes in
  if _match_decoded decoded [OP_PUSHDATA4] then
    let* first := list_index decoded 0 in
    let* item := bh2u_item first.1.2 in
    Ok (set_x_pubkeys [] (set_num_sig 1 (set_signatures [Some item] (set_type p2pk d))))
  else if _match_decoded decoded [OP_PUSHDATA4; OP_PUSHDATA4] then
    let* first := list_index decoded 0 in
    let* sig := bh2u_item first.1.2 in
    let* second := list_index decoded 1 in
    let* key := bh2u_item second.1.2 in
    let* x_pubkey := XPublicKey_init key in
    let signatures := _parse_sig [sig] in
    match to_address x_pubkey with
    | Raise _ => Ok d
    | Ok address =>
        Ok (set_address (AddressOf address) (set_num_sig 1 (set_x_pubkeys [x_pubkey]
              (set_signatures signatures (set_type p2pkh d)))))
    end
  else
    let match_ := [OP_0] ++ replicate (length decoded - 1) OP_PUSHDATA4 in
    if negb (_match_decoded decoded match_) then Ok d
    else
      let* x_sig := rmapM (λ x, bh2u_item x.1.2)
                      (take (length decoded - 2) (drop 1 decoded)) in
      let* last := list_index_last decoded 0 in
      let* redeem := bh2u_item last.1.2 in
      let* parsed := _parse_redeemScript redeem in
      match parsed with
      | None => Raise TypeError
      | Some (m, n, x_pubkeys, address) =>
          Ok (set_address (AddressOf address) (set_x_pubkeys x_pubkeys
                (set_signatures (_parse_sig x_sig) (set_num_sig m (set_type p2sh d)))))
      end.

(** [hash_to_hex_str]: the hexadecimal text of the reversed bytes. *)
Definition hash_to_hex_str (b : bytes) : bytes := reverse b.

Definition _parse_input : Reader TxInput :=
  let* prevout_bytes := read_bytes 32 in
  let prevout_hash := hash_to_hex_str prevout_bytes in
  let* prevout_n := read_uint32 in
  let* script_len := read_compact_size in
  let* scriptSig := read_bytes script_len in
  let* sequence := read_uint32 in
  let d := mkTxInput None (Some prevout_hash) (Some prevout_n) (Some sequence)
             None None None (Some UnknownAddress) None None None in
  if decide (prevout_hash = replicate 32 x00) then
    reader_ret (set_scriptSig (Some scriptSig) (set_type coinbase d))
  else
    let d := mkTxInput (Some unknown) (Some prevout_hash) (Some prevout_n)
               (Some sequence) (Some []) (Some []) (Some 0) (Some AddressNone)
               None (Some (Some scriptSig)) None in
    let* d := reader_lift (_parse_scriptSig d scriptSig) in
    let* complete := reader_lift (is_txin_complete d) in
    if negb complete then
      let* v := read_uint64 in reader_ret (set_value v d)
    else reader_ret d.

(** ** Outputs ([bitcoinx.TxOutput]) *)

(** [pack_le_int64] *)
Definition pack_le_int64 (v : Z) : result bytes :=
  if bool_decide (- 2 ^ 63 ≤ v < 2 ^ 63) then Ok (le_bytes 8 (v `mod` 2 ^ 64))
  else Raise StructError.

(** Modelled from the spec: [TxOutput.to_bytes] of [bitcoinx]: the value
    on eight little-endian bytes, then the script after its compact-size
    length. *)
Definition TxOutput_to_bytes (output : TxOutput) : result bytes :=
  let* v := pack_le_int64 (out_value output) in
  let* n := var_int (Z.of_nat (length (script_pubkey output))) in
  Ok (v ++ n ++ script_pubkey output).

(** [read(n)] as [bitcoinx] uses it on the stream: a short read is an
    error of [struct]. *)
Definition read_exact (n : nat) : Reader bytes :=
  let* bs := read_bytes (Z.of_nat n) in
  if decide (length bs = n) then reader_ret bs else reader_raise StructError.

(** [bitcoinx.read_varint] over [vds.read_bytes] *)
Definition read_varint : Reader Z :=
  let* b := read_exact 1 in
  let n := le_value b in
  if bool_decide (n < 253) then reader_ret n
  else if bool_decide (n = 253) then
    let* bs := read_exact 2 in reader_ret (le_value bs)
  else if bool_decide (n = 254) then
    let* bs := read_exact 4 in reader_ret (le_value bs)
  else
    let* bs := read_exact 8 in reader_ret (le_value bs).

(** Modelled from the spec: [TxOutput.read] of [bitcoinx]: an eight-byte
    little-endian value and a compact-size length-prefixed script. *)
Definition TxOutput_read : Reader TxOutput :=
  let* v := read_exact 8 in
  let* n := read_varint in
  let* script := read_exact (Z.to_nat n) in
  reader_ret (mkTxOutput (to_signed 64 (le_value v)) script).

(** [[f() for _ in range(n)]] *)
Fixpoint read_times {A : Type} (n : nat) (f : Reader A) : Reader (list A) :=
  match n with
  | O => reader_ret []
  | S n' => let* a := f in let* l := read_times n' f in reader_ret (a :: l)
  end.

(** [bitcoinx.read_list(read, read_one)] *)
Definition read_list {A : Type} (read_one : Reader A) : Reader (list A) :=
  let* n := read_varint in read_times (Z.to_nat n) read_one.

(** The dictionary that [deserialize] returns. *)
Record Deserialized : Type := mkDeserialized {
  d_version : Z;
  d_inputs : list TxInput;
  d_outputs : list TxOutput;
  d_lockTime : Z;
}.

Definition deserialize_stream : Reader Deserialized :=
  let* version := read_int32 in
  let* n_vin := read_compact_size in
  if decide (n_vin = 0) then reader_raise AssertionError
  else
    let* inputs := read_times (Z.to_nat n_vin) _parse_input in
    let* outputs := read_list TxOutput_read in
    let* lockTime := read_uint32 in
    reader_ret (mkDeserialized version inputs outputs lockTime).

Definition deserialize (raw : bytes) : result Deserialized :=
  rmap fst (deserialize_stream (mkBCDataStream raw 0)).

(** ** Serialization *)

Definition nHashType : Z := Z.lor 1 64.

(** [Transaction.get_siglist] *)
Definition get_siglist (txin : TxInput) (estimate_size : bool)
  : result (list XPublicKey * list bytes) :=
  let num_sig := default 1 (num_sig txin) in
  if estimate_size then
    let* x_pubkeys := getitem "x_pubkeys" (x_pubkeys txin) in
    let* first := list_index x_pubkeys 0 in
    let* compressed := is_compressed first in
    let* dummy := XPublicKey_init (PublicKey_to_bytes dummy_public_key (Some compressed)) in
    let x_pubkeys := replicate (length x_pubkeys) dummy in
    let sig_list := replicate (Z.to_nat num_sig) (replicate 72 x00) in
    Ok (x_pubkeys, sig_list)
  else
    let* x_pubkeys := getitem "x_pubkeys" (x_pubkeys txin) in
    let* x_signatures := getitem "signatures" (signatures txin) in
    let signatures := present_signatures x_signatures in
    let is_complete := bool_decide (Z.of_nat (length signatures) = num_sig) in
    if is_complete then
      let* x_pubkeys :=
        rmapM (λ x_pubkey,
                 let* k := to_public_key x_pubkey in
                 let* b := key_object_to_bytes (KeyP k) in
                 XPublicKey_init b) x_pubkeys in
      Ok (x_pubkeys, signatures)
    else
      Ok (x_pubkeys,
          (λ sig, if sig_truthy sig then default [] sig else NO_SIGNATURE) <$> x_signatures).

(** [Transaction.input_script]; the result is [None] where the stored
    ['scriptSig'] is. *)
Definition input_script (txin : TxInput) (estimate_size : bool) : result (option bytes) :=
  let* _type := getitem "type" (type txin) in
  if decide (_type = coinbase) then getitem "scriptSig" (scriptSig txin)
  else
    let* (x_pubkeys, sig_list) := get_siglist txin estimate_size in
    let* pushes := rmapM push_script sig_list in
    let script := concat pushes in
    match _type with
    | p2pk => Ok (Some script)
    | p2sh =>
        let script := x00 :: script in
        let* num_sig := getitem "num_sig" (num_sig txin) in
        let* redeem_script := multisig_script (KeyX <$> x_pubkeys) num_sig in
        let* p := push_script redeem_script in
        Ok (Some (script ++ p))
    | p2pkh =>
        let* first := list_index x_pubkeys 0 in
        let* p := push_script (to_bytes first) in
        Ok (Some (script ++ p))
    | unknown => getitem "scriptSig" (scriptSig txin)
    | coinbase => Ok (Some script)
    end.

(** [Transaction.get_preimage_script] *)
Definition get_preimage_script (txin : TxInput) : result bytes :=
  let* _type := getitem "type" (type txin) in
  match _type with
  | p2pkh =>
      let* a := getitem "address" (address txin) in
      match a with
      | AddressOf a => Ok (Address_to_script_bytes a)
      | AddressNone | UnknownAddress => Raise AttributeError
      end
  | p2sh =>
      let* x_pubkeys := getitem "x_pubkeys" (x_pubkeys txin) in
      let* pubkeys := rmapM to_public_key x_pubkeys in
      let* num_sig := getitem "num_sig" (num_sig txin) in
      multisig_script (KeyP <$> pubkeys) num_sig
  | p2pk =>
      let* x_pubkeys := getitem "x_pubkeys" (x_pubkeys txin) in
      let* x_pubkey := list_index x_pubkeys 0 in
      let* k := to_public_key x_pubkey in
      P2PK_Output_script k
  | unknown => getitem "scriptCode" (scriptCode txin)
  | coinbase => Raise (RuntimeError "Unknown txin type")
  end.

(** [Transaction.serialize_outpoint] *)
Definition serialize_outpoint (txin : TxInput) : result bytes :=
  let* prevout_hash := getitem "prevout_hash" (prevout_hash txin) in
  let* prevout_n := getitem "prevout_n" (prevout_n txin) in
  let* n := int_to_hex prevout_n 4 in
  Ok (reverse prevout_hash ++ n).

(** [txin.get('sequence', 0xffffffff - 1)] *)
Definition get_sequence (txin : TxInput) : Z := default 4294967294 (sequence txin).

(** [Transaction.serialize_input] *)
Definition serialize_input (txin : TxInput) (script : option bytes)
  (estimate_size : bool) : result bytes :=
  let* s := serialize_outpoint txin in
  let* script := match script with Some b => Ok b | None => Raise TypeError end in
  let* n := var_int (Z.of_nat (length script)) in
  let* q := int_to_hex (get_sequence txin) 4 in
  let s := s ++ n ++ script ++ q in
  match value txin with
  | None => Ok s
  | Some v =>
      let* complete := if estimate_size then Ok true else is_txin_complete txin in
      if negb complete then
        let* a := int_to_hex v 8 in Ok (s ++ a)
      else Ok s
  end.

(** [b''.join(output.to_bytes() for output in outputs)] *)
Definition join_outputs (outputs : list TxOutput) : result bytes :=
  rmap (λ parts, concat parts) (rmapM TxOutput_to_bytes outputs).

(** [Transaction.serialize_preimage] *)
Definition serialize_preimage (self : Transaction) (i : nat) : result bytes :=
  let* nVersion := int_to_hex (version self) 4 in
  let* nHashType := int_to_hex nHashType 4 in
  let* nLocktime := int_to_hex (locktime self) 4 in
  let inputs := _inputs self in
  let outputs := _outputs self in
  let* txin := list_index inputs i in
  let* outpoints := rmapM serialize_outpoint inputs in
  let hashPrevouts := sha256d (concat outpoints) in
  let* sequences := rmapM (λ txin, int_to_hex (get_sequence txin) 4) inputs in
  let hashSequence := sha256d (concat sequences) in
  let* outs := join_outputs outputs in
  let hashOutputs := sha256d outs in
  let* outpoint := serialize_outpoint txin in
  let* preimage_script := get_preimage_script txin in
  let* n := var_int (Z.of_nat (length preimage_script)) in
  let scriptCode := n ++ preimage_script in
  let* amount :=
    match value txin with
    | None => Raise InputValueMissing
    | Some v => int_to_hex v 8
    end in
  let* nSequence := int_to_hex (get_sequence txin) 4 in
  Ok (nVersion ++ hashPrevouts ++ hashSequence ++ outpoint ++ scriptCode ++ amount
      ++ nSequence ++ hashOutputs ++ nLocktime ++ nHashType).

(** [Transaction.preimage_hash] *)
Definition preimage_hash (self : Transaction) (txin_index : nat) : result bytes :=
  rmap sha256d (serialize_preimage self txin_index).

(** [Transaction.serialize] *)
Definition serialize (self : Transaction) (estimate_size : bool) : result bytes :=
  let* nVersion := int_to_hex (version self) 4 in
  let* nLocktime := int_to_hex (locktime self) 4 in
  let inputs := _inputs self in
  let outputs := _outputs self in
  let* n_in := var_int (Z.of_nat (length inputs)) in
  let* ins := rmapM (λ txin,
                 let* script := input_script txin estimate_size in
                 serialize_input txin script estimate_size) inputs in
  let txins := n_in ++ concat ins in
  let* n_out := var_int (Z.of_nat (length outputs)) in
  let* outs := join_outputs outputs in
  let txouts := n_out ++ outs in
  Ok (nVersion ++ txins ++ txouts ++ nLocktime).

(** ** Completeness *)

Fixpoint signature_count_loop (inputs : list TxInput) (s r : Z) : result (Z * Z) :=
  match inputs with
  | [] => Ok (s, r)
  | txin :: inputs' =>
      let* t := getitem "type" (type txin) in
      if decide (t = coinbase) then signature_count_loop inputs' s r
      else
        let signatures := present_signatures (default [] (signatures txin)) in
        signature_count_loop inputs' (s + Z.of_nat (length signatures))
          (r + default (-1) (num_sig txin))
  end.

(** [Transaction.signature_count] *)
Definition signature_count (self : Transaction) : result (Z * Z) :=
  signature_count_loop (_inputs self) 0 0.

(** [Transaction.is_complete] *)
Definition is_complete (self : Transaction) : result bool :=
  let* (s, r) := signature_count self in Ok (bool_decide (r = s)).

(** ** Methods that change the transaction *)

(** A method of [Transaction]: the object after the call comes with the
    outcome, also when the outcome is an exception. *)
Definition Method (A : Type) : Type := Transaction → result A * Transaction.

Definition method_ret {A : Type} (a : A) : Method A := λ self, (Ok a, self).

Definition method_bind {A B : Type} (m : Method A) (f : A → Method B) : Method B :=
  λ self,
    match m self with
    | (Ok a, self') => f a self'
    | (Raise e, self') => (Raise e, self')
    end.

Definition method_lift {A : Type} (m : result A) : Method A := λ self, (m, self).

Definition method_self : Method Transaction := λ self, (Ok self, self).

Definition method_set (self' : Transaction) : Method unit := λ _, (Ok (), self').

Delimit Scope method_scope with method.
Bind Scope method_scope with Method.
Notation "'let*' p ':=' m 'in' k" := (method_bind m (λ p, k%method))
  (at level 10, p pattern, m at level 100, k at level 200, only parsing)
  : method_scope.

(** The input dictionary at position [i] is changed in place. *)
Definition update_txin (i : nat) (f : TxInput → TxInput) : Method unit :=
  λ self, (Ok (), set_inputs (alter f i (_inputs self)) self).

(** [x_pubkeys[j] = x] on the key list of the input, in place. *)
Definition setitem_x_pubkeys (j : nat) (x : XPublicKey) (txin : TxInput) : TxInput :=
  match x_pubkeys txin with
  | Some l => set_x_pubkeys (<[j:=x]> l) txin
  | None => txin
  end.

(** [Transaction.sign_txin] *)
Definition sign_txin (self : Transaction) (txin_index : nat) (privkey_bytes : bytes)
  : result bytes :=
  let* pre_hash := preimage_hash self txin_index in
  let* sig := PrivateKey_sign privkey_bytes pre_hash in
  let* t := int_to_hex nHashType 1 in
  Ok (sig ++ t).

(** The inner loop of [Transaction.sign] from slot [j] on.  The key list
    is only ever changed at the slot being visited, so the keys still to
    visit are those of the list as it was when the loop started. *)
Fixpoint sign_x_pubkeys (keypairs : gmap XPublicKey (bytes * bool)) (i : nat) (num : Z)
  (j : nat) (x_pubkeys : list XPublicKey) : Method unit :=
  match x_pubkeys with
  | [] => method_ret ()
  | x_pubkey :: x_pubkeys' =>
      let* self := method_self in
      let* txin := method_lift (list_index (_inputs self) i) in
      let* x_signatures := method_lift (getitem "signatures" (signatures txin)) in
      if bool_decide (Z.of_nat (length (present_signatures x_signatures)) = num)
      then method_ret ()
      else
        let* _ :=
          match keypairs !! x_pubkey with
          | None => method_ret ()
          | Some (sec, compressed) =>
              let* sig := method_lift (sign_txin self i sec) in
              let* x_signatures' := method_lift (list_setitem x_signatures j (Some sig)) in
              let* _ := update_txin i (set_signatures x_signatures') in
              let* k := method_lift (kind x_pubkey) in
              if bool_decide (k = 253) then
                let* pubkey_bytes := method_lift (PrivateKey_public_key_bytes sec compressed) in
                let* x := method_lift (XPublicKey_init pubkey_bytes) in
                update_txin i (setitem_x_pubkeys j x)
              else method_ret ()
          end in
        sign_x_pubkeys keypairs i num (S j) x_pubkeys'
  end.

(** The outer loop of [Transaction.sign] from input [i] on, for
    [remaining] inputs. *)
Fixpoint sign_inputs (keypairs : gmap XPublicKey (bytes * bool)) (i : nat)
  (remaining : nat) : Method unit :=
  match remaining with
  | O => method_ret ()
  | S remaining' =>
      let* self := method_self in
      let* txin := method_lift (list_index (_inputs self) i) in
      let* num := method_lift (getitem "num_sig" (num_sig txin)) in
      let* x_pubkeys := method_lift (getitem "x_pubkeys" (x_pubkeys txin)) in
      let* _ := sign_x_pubkeys keypairs i num 0 x_pubkeys in
      sign_inputs keypairs (S i) remaining'
  end.

(** [Transaction.sign] *)
Definition sign (keypairs : gmap XPublicKey (bytes * bool)) : Method unit :=
  let* self := method_self in
  let* _ := sign_inputs keypairs 0 (length (_inputs self)) in
  let* self := method_self in
  let* _ := method_lift (is_complete self) in
  let* raw := method_lift (serialize self false) in
  method_set (set_tx_raw (Some raw) self).

(** [Transaction.add_signature_to_txin], the input being the one at [i] *)
Definition add_signature_to_txin (i : nat) (signingPos : nat) (sig : bytes)
  : Method unit :=
  let* self := method_self in
  let* txin := method_lift (list_index (_inputs self) i) in
  let* x_signatures := method_lift (getitem "signatures" (signatures txin)) in
  let* x_signatures' := method_lift (list_setitem x_signatures signingPos (Some sig)) in
  let* _ := update_txin i (λ txin, set_scriptSig None (set_signatures x_signatures' txin)) in
  let* self := method_self in
  method_set (set_tx_raw None self).

(** [public_key in pubkeys] and [pubkeys.index(public_key)]: the first
    position holding an equal key.  An address is never equal to a key. *)
Fixpoint pubkeys_index (public_key : PublicKey) (pubkeys : list (PublicKey + Address))
  : option nat :=
  match pubkeys with
  | [] => None
  | inl k :: pubkeys' =>
      if PublicKey_eqb public_key k then Some O
      else S <$> pubkeys_index public_key pubkeys'
  | inr _ :: pubkeys' => S <$> pubkeys_index public_key pubkeys'
  end.

(** The loop over the recovery ids in [Transaction.update_signatures]. *)
Fixpoint try_recids (i : nat) (sig : bytes) (pubkeys : list (PublicKey + Address))
  (pre_hash rec_sig_base : bytes) (recids : list Z) : Method unit :=
  match recids with
  | [] => method_ret ()
  | recid :: recids' =>
      let rec_sig := rec_sig_base ++ [Z_to_byte recid] in
      match from_recoverable_signature rec_sig pre_hash with
      | Raise InvalidSignatureError | Raise ValueError =>
          try_recids i sig pubkeys pre_hash rec_sig_base recids'
      | Raise e => method_lift (Raise e)
      | Ok public_key =>
          match pubkeys_index public_key pubkeys with
          | None => try_recids i sig pubkeys pre_hash rec_sig_base recids'
          | Some j =>
              match verify_recoverable_signature public_key rec_sig pre_hash with
              | Raise _ => try_recids i sig pubkeys pre_hash rec_sig_base recids'
              | Ok _ => add_signature_to_txin i j sig
              end
          end
      end
  end.

(** The body of the loop over the inputs in [Transaction.update_signatures],
    [signature] being [signatures[i]]. *)
Definition update_signatures_txin (i : nat) (signature : bytes) : Method unit :=
  let* self := method_self in
  let* txin := method_lift (list_index (_inputs self) i) in
  let sig := signature ++ [Z_to_byte nHashType] in
  match signatures txin with
  | None => method_lift (Raise TypeError)
  | Some x_signatures =>
      if bool_decide (Some sig ∈ x_signatures) then method_ret ()
      else
        let* x_pubkeys := method_lift (getitem "x_pubkeys" (x_pubkeys txin)) in
        let* pubkeys := method_lift (rmapM to_public_key x_pubkeys) in
        let* pre_hash := method_lift (preimage_hash self i) in
        let* rec_sig_base := method_lift (der_signature_to_compact signature) in
        try_recids i sig pubkeys pre_hash rec_sig_base [0; 1; 2; 3]
  end.

Fixpoint update_signatures_inputs (i : nat) (signatures : list bytes) : Method unit :=
  match signatures with
  | [] => method_ret ()
  | signature :: signatures' =>
      let* _ := update_signatures_txin i signature in
      update_signatures_inputs (S i) signatures'
  end.

Definition length_mismatch (n_inputs n_signatures : nat) : exn :=
  RuntimeError ("expected " +:+ pretty n_inputs +:+ " signatures; got "
                +:+ pretty n_signatures).

(** [Transaction.update_signatures] *)
Definition update_signatures (signatures : list bytes) : Method unit :=
  let* self := method_self in
  let* complete := method_lift (is_complete self) in
  if (complete : bool) then method_ret ()
  else if decide (length (_inputs self) ≠ length signatures) then
    method_lift (Raise (length_mismatch (length (_inputs self)) (length signatures)))
  else
    let* _ := update_signatures_inputs 0 signatures in
    let* self := method_self in
    let* raw := method_lift (serialize self false) in
    method_set (set_tx_raw (Some raw) self).

End WithExternals.

Delimit Scope method_scope with method.
Bind Scope method_scope with Method.
Notation "'let*' p ':=' m 'in' k" := (method_bind m (λ p, k%method))
  (at level 10, p pattern, m at level 100, k at level 200, only parsing)
  : method_scope.

End Tx.

(** * Wallet storage: [electrumsv/storage.py] *)

Module Storage.

Declare Scope storage_scope.

Definition OLD_SEED_VERSION : Z := 4.
Definition NEW_SEED_VERSION : Z := 11.
Definition FINAL_SEED_VERSION : Z := 19.

(** The values of the document: what [json.loads] gives (numbers being
    integers), and [JOther] for an object that [json.dumps] refuses. *)
#[local] Unset Elimination Schemes.
Inductive json : Type :=
| JNone
| JBool (b : bool)
| JInt (z : Z)
| JStr (s : string)
| JList (l : list json)
| JDict (d : list (string * json))
| JOther (id : nat).
#[local] Set Elimination Schemes.

Fixpoint assoc {A : Type} (k : string) (d : list (string * A)) : option A :=
  match d with
  | [] => None
  | (k', v) :: d' => if String.eqb k k' then Some v else assoc k d'
  end.

(** Python's [==] on these values: [True == 1], lists compare element by
    element, dictionaries key by key. *)
Fixpoint py_eqb (a b : json) : bool :=
  match a, b with
  | JNone, JNone => true
  | JBool x, JBool y => Bool.eqb x y
  | JInt x, JInt y => x =? y
  | JBool x, JInt y => (if x then 1 else 0) =? y
  | JInt x, JBool y => x =? (if y then 1 else 0)
  | JStr x, JStr y => String.eqb x y
  | JList l, JList l' =>
      (fix go (l l' : list json) : bool :=
         match l, l' with
         | [], [] => true
         | x :: l, y :: l' => py_eqb x y && go l l'
         | _, _ => false
         end) l l'
  | JDict d, JDict d' =>
      Nat.eqb (length d) (length d')
      && forallb (λ kv, match assoc kv.1 d' with
                        | Some v' => py_eqb kv.2 v'
                        | None => false
                        end) d
  | JOther i, JOther j => Nat.eqb i j
  | _, _ => false
  end.

(** Truth value. *)
Definition py_truthy (v : json) : bool :=
  match v with
  | JNone => false
  | JBool b => b
  | JInt z => negb (z =? 0)
  | JStr s => negb (String.eqb s "")
  | JList l => negb (Nat.eqb (length l) 0)
  | JDict d => negb (Nat.eqb (length d) 0)
  | JOther _ => true
  end.

(** [json.dumps(v)] returns. *)
Fixpoint json_dumpable (v : json) : bool :=
  match v with
  | JOther _ => false
  | JList l => forallb json_dumpable l
  | JDict d => forallb (λ kv, json_dumpable kv.2) d
  | _ => true
  end.

(** The value as a number in a comparison with an [int]. *)
Definition as_number (v : json) : result Z :=
  match v with
  | JInt z => Ok z
  | JBool b => Ok (if b then 1 else 0)
  | _ => Raise TypeError
  end.

(** [len(v)] *)
Definition py_len (v : json) : result Z :=
  match v with
  | JStr s => Ok (Z.of_nat (String.length s))
  | JList l => Ok (Z.of_nat (length l))
  | JDict d => Ok (Z.of_nat (length d))
  | _ => Raise TypeError
  end.

(** A [WalletStorage] object. *)
Record WalletStorage : Type := mkWalletStorage {
  manual_upgrades : bool;
  data : gmap string json;
  path : string;
  _file_exists : bool;
  modified : bool;
  pubkey : option string;
  raw : string;
}.

(** What the object acts on: the files (content and permission bits by
    path), the process id and whether the running thread is a daemon. *)
Record Machine : Type := mkMachine {
  fs : gmap string (string * Z);
  pid : nat;
  daemon : bool;
}.

(** A method: the object and the machine after the call come with the
    outcome. *)
Definition Method (A : Type) : Type :=
  WalletStorage * Machine → result A * (WalletStorage * Machine).

Definition method_ret {A : Type} (a : A) : Method A := λ w, (Ok a, w).

Definition method_bind {A B : Type} (m : Method A) (f : A → Method B) : Method B :=
  λ w,
    match m w with
    | (Ok a, w') => f a w'
    | (Raise e, w') => (Raise e, w')
    end.

Definition method_raise {A : Type} (e : exn) : Method A := λ w, (Raise e, w).

Definition method_lift {A : Type} (m : result A) : Method A := λ w, (m, w).

Definition method_self : Method WalletStorage := λ w, (Ok w.1, w).

Definition method_machine : Method Machine := λ w, (Ok w.2, w).

Definition set_self (f : WalletStorage → WalletStorage) : Method unit :=
  λ w, (Ok (), (f w.1, w.2)).

Definition set_fs (f : gmap string (string * Z) → gmap string (string * Z))
  : Method unit :=
  λ w, (Ok (), (w.1, mkMachine (f (fs w.2)) (pid w.2) (daemon w.2))).

Delimit Scope storage_scope with storage.
Bind Scope storage_scope with Method.
Notation "'let*' p ':=' m 'in' k" := (method_bind m (λ p, k%storage))
  (at level 10, p pattern, m at level 100, k at level 200, only parsing)
  : storage_scope.
Notation "m ';;' k" := (method_bind m (λ _, k%storage))
  (at level 100, k at level 200, right associativity, only parsing)
  : storage_scope.

Definition set_data (d : gmap string json) (s : WalletStorage) : WalletStorage :=
  mkWalletStorage (manual_upgrades s) d (path s) (_file_exists s) (modified s)
    (pubkey s) (raw s).
Definition set_modified (b : bool) (s : WalletStorage) : WalletStorage :=
  mkWalletStorage (manual_upgrades s) (data s) (path s) (_file_exists s) b
    (pubkey s) (raw s).
Definition set_written (text : string) (s : WalletStorage) : WalletStorage :=
  mkWalletStorage (manual_upgrades s) (data s) (path s) true false (pubkey s) text.

(** What the module takes from elsewhere: the encoders, and the parts of
    the conversion steps that follow their version guard and work with the
    address codec or the wallet database. *)
Class Externals : Type := {
  (** [json.dumps(data, indent=4, sort_keys=True)] *)
  json_dumps : gmap string json → string;
  (** [PublicKey.from_hex(k).encrypt_message_to_base64(zlib.compress(s.encode()))] *)
  encrypt_message_to_base64 : string → string → string;
  (** the permission bits of a file that [open(.., "w")] creates *)
  new_file_mode : Z;
  (** [json.loads(s)], or the older literal format when that fails *)
  parse_document : string → result (gmap string json);
  convert_imported_body : Method unit;
  convert_wallet_type_body : Method unit;
  convert_version_13_b_body : Method unit;
  convert_version_14_body : Method unit;
  convert_version_16_body : Method unit;
  convert_version_18_body : Method unit;
  convert_version_19_body : Method unit;
}.

Section WithExternals.
Context `{Externals}.

(** [WalletStorage.file_exists] *)
Definition file_exists (self : WalletStorage) : bool := _file_exists self.

(** [WalletStorage.get]: copies are values, so [deepcopy] is the identity. *)
Definition get (self : WalletStorage) (key : string) (default : json) : json :=
  match data self !! key with
  | None | Some JNone => default
  | Some v => v
  end.

(** [WalletStorage.put] *)
Definition put (key : string) (value : json) (self : WalletStorage) : WalletStorage :=
  if negb (json_dumpable value) then self
  else
    match value with
    | JNone =>
        match data self !! key with
        | Some _ => set_modified true (set_data (delete key (data self)) self)
        | None => self
        end
    | _ =>
        if negb (py_eqb (default JNone (data self !! key)) value)
        then set_data (<[key:=value]> (data self)) (set_modified true self)
        else self
    end.

Definition put_ (key : string) (value : json) : Method unit :=
  set_self (put key value).

Definition S_IREAD : Z := 256.
Definition S_IWRITE : Z := 128.

(** [WalletStorage._write] *)
Definition _write : Method unit :=
  let* machine := method_machine in
  if daemon machine then method_ret ()
  else
    let* self := method_self in
    if negb (modified self) then method_ret ()
    else
      let s := json_dumps (data self) in
      let s := match pubkey self with
               | Some k => encrypt_message_to_base64 k s
               | None => s
               end in
      let temp_path := path self +:+ ".tmp." +:+ pretty (pid machine) in
      let temp_mode := match fs machine !! temp_path with
                       | Some f => f.2
                       | None => new_file_mode
                       end in
      set_fs (insert temp_path (s, temp_mode));;
      let* mode :=
        if file_exists self then
          match fs machine !! path self with
          | Some f => method_ret f.2
          | None => method_raise FileNotFoundError
          end
        else method_ret (Z.lor S_IREAD S_IWRITE) in
      set_fs (λ files, <[path self:=(s, temp_mode)]> (delete temp_path files));;
      set_fs (λ files, <[path self:=(s, mode)]> files);;
      set_self (set_written s).

(** [WalletStorage.write] *)
Definition write : Method unit := _write.

(** ** The version of the document *)

Definition too_old : exn :=
  RuntimeError "This version of ElectrumSV is too old to open this wallet".

(** [WalletStorage.raise_unsupported_version]: it always raises; the text
    of the message, which names the file and the version, is cut to its
    first sentence. *)
Definition raise_unsupported_version {A : Type} (self : WalletStorage) (seed_version : Z)
  : result A :=
  Raise (Exception "Your wallet has an unsupported seed version.").

(** [WalletStorage.get_seed_version] *)
Definition get_seed_version (self : WalletStorage) : result Z :=
  let seed_version := get self "seed_version" JNone in
  let* seed_version :=
    if negb (py_truthy seed_version) then
      let* n := py_len (get self "master_public_key" (JStr "")) in
      Ok (if bool_decide (n = 128) then OLD_SEED_VERSION else NEW_SEED_VERSION)
    else as_number seed_version in
  if bool_decide (seed_version > FINAL_SEED_VERSION) then Raise too_old
  else if bool_decide (12 ≤ seed_version) then Ok seed_version
  else if bool_decide (seed_version ∉ [OLD_SEED_VERSION; NEW_SEED_VERSION])
  then raise_unsupported_version self seed_version
  else Ok seed_version.

Definition unexpected_version (cur_version min_version max_version : Z) : exn :=
  Exception ("storage upgrade: unexpected version " +:+ pretty cur_version
             +:+ " (should be " +:+ pretty min_version +:+ "-"
             +:+ pretty max_version +:+ ")").

(** [WalletStorage._is_upgrade_method_needed] *)
Definition _is_upgrade_method_needed (min_version max_version : Z) : Method bool :=
  let* self := method_self in
  let* cur_version := method_lift (get_seed_version self) in
  if bool_decide (cur_version > max_version) then method_ret false
  else if bool_decide (cur_version < min_version) then
    method_raise (unexpected_version cur_version min_version max_version)
  else method_ret true.

(** [WalletStorage.requires_split] *)
Definition requires_split (self : WalletStorage) : result bool :=
  let* n := py_len (get self "accounts" (JDict [])) in
  Ok (bool_decide (n > 1)).

(** [WalletStorage.requires_upgrade] *)
Definition requires_upgrade (self : WalletStorage) : result bool :=
  if file_exists self then
    let* seed_version := get_seed_version self in
    if bool_decide (seed_version ≤ 17) then Ok true
    else if bool_decide (seed_version < FINAL_SEED_VERSION) then
      if py_eqb (get self "wallet_author" JNone) (JStr "ESV") then Ok true
      else Raise IncompatibleWalletError
    else Ok false
  else Ok false.

(** ** The backup *)

(** [self._wallet_backup_pattern % (self.path, attempt)] *)
Definition wallet_backup_path (path : string) (attempt : nat) : string :=
  path +:+ ".backup." +:+ pretty attempt.

(** The loop of [_get_wallet_backup_path] from [attempt] on, for at most
    [fuel] passes; [None] when the passes are used up. *)
Fixpoint _get_wallet_backup_path_from (fuel : nat) (files : gmap string (string * Z))
  (path : string) (attempt : nat) : option string :=
  match fuel with
  | O => None
  | S fuel' =>
      let new_wallet_path := wallet_backup_path path attempt in
      match files !! new_wallet_path with
      | None => Some new_wallet_path
      | Some _ => _get_wallet_backup_path_from fuel' files path (S attempt)
      end
  end.

(** [WalletStorage._get_wallet_backup_path]: one pass more than there are
    files always finds a free path. *)
Definition _get_wallet_backup_path (self : WalletStorage) (machine : Machine)
  : option string :=
  _get_wallet_backup_path_from (S (size (fs machine))) (fs machine) (path self) 1.

(** [shutil.copyfile(src, dst)]: content only; a file that is created gets
    the permission bits of a new file. *)
Definition copyfile (src dst : string) : Method unit :=
  let* machine := method_machine in
  match fs machine !! src with
  | None => method_raise FileNotFoundError
  | Some f =>
      let mode := match fs machine !! dst with
                  | Some g => g.2
                  | None => new_file_mode
                  end in
      set_fs (insert dst (f.1, mode))
  end.

(** [WalletStorage._backup_wallet] *)
Definition _backup_wallet : Method unit :=
  let* self := method_self in
  if negb (file_exists self) then method_ret ()
  else
    let* machine := method_machine in
    match _get_wallet_backup_path self machine with
    | None => method_raise (Exception "no free backup path")
    | Some new_wallet_path => copyfile (path self) new_wallet_path
    end.

(** ** The conversion steps *)

Definition guarded (min_version max_version : Z) (body : Method unit) : Method unit :=
  let* needed := _is_upgrade_method_needed min_version max_version in
  if (needed : bool) then body else method_ret ().

Definition convert_imported : Method unit := guarded 0 13 convert_imported_body.

Definition convert_wallet_type : Method unit := guarded 0 13 convert_wallet_type_body.

Definition convert_account : Method unit := guarded 0 13 (put_ "accounts" JNone).

Definition convert_version_13_b : Method unit := guarded 0 13 convert_version_13_b_body.

Definition convert_version_14 : Method unit := guarded 13 13 convert_version_14_body.

Definition convert_version_15 : Method unit :=
  guarded 14 14 (put_ "seed_version" (JInt 15)).

Definition convert_version_16 : Method unit := guarded 15 15 convert_version_16_body.

(** [all(v for v in addrs.values())] *)
Definition all_values_truthy (addrs : json) : result bool :=
  match addrs with
  | JDict d => Ok (forallb (λ kv, py_truthy kv.2) d)
  | _ => Raise AttributeError
  end.

Definition convert_version_17 : Method unit :=
  guarded 16 16
    (let* self := method_self in
     (if py_eqb (get self "wallet_type" JNone) (JStr "imported") then
        let* b := method_lift (all_values_truthy (get self "addresses" JNone)) in
        if (b : bool) then put_ "wallet_type" (JStr "imported_privkey")
        else put_ "wallet_type" (JStr "imported_addr")
      else method_ret ());;
     put_ "seed_version" (JInt 17)).

Definition convert_version_18 : Method unit := guarded 17 17 convert_version_18_body.

Definition convert_version_19 : Method unit := guarded 18 18 convert_version_19_body.

(** [WalletStorage.upgrade] *)
Definition upgrade : Method unit :=
  _backup_wallet;;
  convert_imported;;
  convert_wallet_type;;
  convert_account;;
  convert_version_13_b;;
  convert_version_14;;
  convert_version_15;;
  convert_version_16;;
  convert_version_17;;
  convert_version_18;;
  convert_version_19;;
  put_ "seed_version" (JInt FINAL_SEED_VERSION);;
  write.

(** [WalletStorage.load_data] *)
Definition load_data (s : string) : Method unit :=
  let* d := method_lift (parse_document s) in
  set_self (set_data d);;
  let* self := method_self in
  if manual_upgrades self then method_ret ()
  else
    let* split := method_lift (requires_split self) in
    if (split : bool) then
      method_raise (Exception "This wallet has multiple accounts and must be split")
    else
      let* self := method_self in
      let* needed := method_lift (requires_upgrade self) in
      if (needed : bool) then upgrade else method_ret ().

End WithExternals.

End Storage.

(** ** Reading the claims *)

Module TxSpec.
Import Tx.

Section WithExternals.
Context `{Externals}.

(** The number of non-empty signature slots of an input. *)
Definition present_count (txin : TxInput) : Z :=
  Z.of_nat (length (present_signatures (default [] (signatures txin)))).

(** The threshold of an input, [-1] standing for an absent ['num_sig']. *)
Definition required_count (txin : TxInput) : Z := default (-1) (num_sig txin).

Definition is_coinbase (txin : TxInput) : bool :=
  bool_decide (type txin = Some coinbase).

(** An input on its own carries exactly [num_sig] signatures. *)
Definition input_satisfied (txin : TxInput) : Prop :=
  present_count txin = required_count txin.

Definition non_coinbase (inputs : list TxInput) : list TxInput :=
  List.filter (λ txin, negb (is_coinbase txin)) inputs.

Fixpoint sumZ (l : list Z) : Z :=
  match l with
  | [] => 0
  | z :: l' => z + sumZ l'
  end.

Definition total_present (inputs : list TxInput) : Z :=
  sumZ (present_count <$> non_coinbase inputs).

Definition total_required (inputs : list TxInput) : Z :=
  sumZ (required_count <$> non_coinbase inputs).

(** The input with ['signatures'] rebound (or removed). *)
Definition with_signatures (v : option (list (option bytes))) (d : TxInput) : TxInput :=
  mkTxInput (type d) (prevout_hash d) (prevout_n d) (sequence d) (x_pubkeys d)
    v (num_sig d) (address d) (value d) (scriptSig d) (scriptCode d).

(** The inputs after the signature slots of inputs other than [i] were
    rewritten, [slots k txin] being the new slots of input [k]. *)
Definition resign_others (i : nat) (slots : nat → TxInput → option (list (option bytes)))
  (inputs : list TxInput) : list TxInput :=
  imap (λ k txin, if decide (k = i) then txin else with_signatures (slots k txin) txin)
       inputs.

(** Two inputs spend the same output with the same sequence number. *)
Definition same_outpoint (a b : TxInput) : Prop :=
  prevout_hash a = prevout_hash b ∧ prevout_n a = prevout_n b
  ∧ sequence a = sequence b.

(** Two inputs agree on what [get_preimage_script] and the amount read:
    kind, keys, threshold and value, and the address and the script code
    that the kinds [p2pkh] and [unknown] take the script from. *)
Definition same_script_fields (a b : TxInput) : Prop :=
  type a = type b ∧ x_pubkeys a = x_pubkeys b ∧ num_sig a = num_sig b
  ∧ value a = value b ∧ address a = address b ∧ scriptCode a = scriptCode b.

Definition is_Ok {A : Type} (r : result A) : Prop := ∃ a, r = Ok a.

(** Every exception that a library function raises satisfies [P]. *)
Definition Externals_raise (P : exn → Prop) : Prop :=
  (∀ b e, PublicKey_from_bytes b = Raise e → P e)
  ∧ (∀ k d e, PublicKey_add k d = Raise e → P e)
  ∧ (∀ b p e, bip32_derive b p = Raise e → P e)
  ∧ (∀ a e, Address_to_bytes a = Raise e → P e)
  ∧ (∀ k e, P2PK_Output_script k = Raise e → P e)
  ∧ (∀ s h e, PrivateKey_sign s h = Raise e → P e)
  ∧ (∀ s c e, PrivateKey_public_key_bytes s c = Raise e → P e)
  ∧ (∀ s e, der_signature_to_compact s = Raise e → P e)
  ∧ (∀ s h e, from_recoverable_signature s h = Raise e → P e)
  ∧ (∀ k s h e, verify_recoverable_signature k s h = Raise e → P e).

(** Exceptions of the language itself, as raised by subscripts, attribute
    access, conversions, assertions and [struct]. *)
Definition builtin (e : exn) : Prop :=
  match e with
  | KeyError _ | IndexError | TypeError | ValueError | AssertionError
  | AttributeError | StructError | SerializationError => True
  | _ => False
  end.

(** Every exception that [r] can be satisfies [P]. *)
Definition raises {A : Type} (P : exn → Prop) (r : result A) : Prop :=
  ∀ e, r = Raise e → P e.

(** Every exception that the method [m] can raise satisfies [P]. *)
Definition method_raises {A : Type} (P : exn → Prop) (m : Method A) : Prop :=
  ∀ self e self', m self = (Raise e, self') → P e.

(** The exception is the one [update_signatures] raises for a list of
    signatures of the wrong length. *)
Definition is_length_mismatch (e : exn) : Prop :=
  ∃ n m, e = length_mismatch n m.

(** No recovery id gives a key that is declared and verifies: the recovery
    fails with one of the two exceptions the loop passes over, or the key is
    not among [pubkeys], or its verification raises. *)
Definition no_recid_matches (pubkeys : list (PublicKey + Address))
  (pre_hash rec_sig_base : bytes) : Prop :=
  ∀ recid, recid ∈ [0; 1; 2; 3] →
    let rec_sig := rec_sig_base ++ [Z_to_byte recid] in
    match from_recoverable_signature rec_sig pre_hash with
    | Ok public_key =>
        pubkeys_index public_key pubkeys = None
        ∨ ∃ e, verify_recoverable_signature public_key rec_sig pre_hash = Raise e
    | Raise e => e = InvalidSignatureError ∨ e = ValueError
    end.

(** What [serialize_preimage] computes before it reads the value of the
    input: the input, the bytes that precede the amount and the bytes that
    follow the sequence number. *)
Definition preimage_head (self : Transaction) (i : nat)
  : result (TxInput * bytes * bytes) :=
  let* nVersion := int_to_hex (version self) 4 in
  let* nHashType := int_to_hex nHashType 4 in
  let* nLocktime := int_to_hex (locktime self) 4 in
  let* txin := list_index (_inputs self) i in
  let* outpoints := rmapM serialize_outpoint (_inputs self) in
  let* sequences := rmapM (λ txin, int_to_hex (get_sequence txin) 4) (_inputs self) in
  let* outs := join_outputs (_outputs self) in
  let* outpoint := serialize_outpoint txin in
  let* preimage_script := get_preimage_script txin in
  let* n := var_int (Z.of_nat (length preimage_script)) in
  Ok (txin,
      nVersion ++ sha256d (concat outpoints) ++ sha256d (concat sequences)
        ++ outpoint ++ n ++ preimage_script,
      sha256d outs ++ nLocktime ++ nHashType).

(** A key after [sign]: the key it was, unless that was a script-hash
    placeholder (kind [0xfd]). *)
Definition key_kept (key key' : XPublicKey) : Prop :=
  key' = key ∨ kind key = Ok 253.

Definition keys_kept (txin txin' : TxInput) : Prop :=
  option_Forall2 (Forall2 key_kept) (x_pubkeys txin) (x_pubkeys txin').

(** The stream holds [rest] from the cursor on. *)
Definition stream_at (vds : BCDataStream) (rest : bytes) : Prop :=
  drop (read_cursor vds) (input vds) = rest.

(** Equality on the fields of an input that the claims compare: previous
    output, sequence number, kind, keys and signatures. *)
Definition same_input (a b : TxInput) : Prop :=
  prevout_hash a = prevout_hash b ∧ prevout_n a = prevout_n b
  ∧ sequence a = sequence b ∧ type a = type b
  ∧ x_pubkeys a = x_pubkeys b ∧ signatures a = signatures b.

(** The previous output and the sequence number are there and fit the
    wire format. *)
Definition wire_fields_ok (txin : TxInput) : Prop :=
  ∃ h n q,
    prevout_hash txin = Some h ∧ length h = 32%nat
    ∧ prevout_n txin = Some n ∧ 0 ≤ n < 2 ^ 32
    ∧ sequence txin = Some q ∧ 0 ≤ q < 2 ^ 32.


Definition pushable (x : bytes) : Prop := x ≠ [] ∧ Z.of_nat (length x) < 2 ^ 32.


(** What [bitcoinx.push_int] returns for the numbers of a multisig script:
    the one opcode [OP_1] to [OP_16]. *)
Definition push_int_small : Prop :=
  ∀ k, 1 ≤ k ≤ 16 → push_int k = [Z_to_byte (OP_1 + k - 1)].

(** What [bitcoinx.push_item] returns for an item of two to seventy-five
    bytes: the item after its length on one byte. *)
Definition push_item_short : Prop :=
  ∀ b : bytes, (1 < length b < 76)%nat →
    push_item b = Z_to_byte (Z.of_nat (length b)) :: b.

(** A key that a multisig script holds as a short item and that the
    constructor of [XPublicKey] accepts. *)
Definition script_key (k : XPublicKey) : Prop :=
  (1 < length (raw k) < 76)%nat ∧ ∃ pk, to_public_key k = Ok pk.

(** The item that holds the key in the script. *)
Definition key_item (k : XPublicKey) : bytes :=
  Z_to_byte (Z.of_nat (length (raw k))) :: raw k.




Definition roundtrip_output (output : TxOutput) : Prop :=
  - 2 ^ 63 ≤ out_value output < 2 ^ 63
  ∧ Z.of_nat (length (script_pubkey output)) < 2 ^ 64.

(** The first four reads of [_parse_input]: previous output, script and
    sequence. *)
Definition read_input_prefix : Reader (bytes * Z * bytes * Z) :=
  let* prevout_bytes := read_bytes 32 in
  let* prevout_n := read_uint32 in
  let* script_len := read_compact_size in
  let* scriptSig := read_bytes script_len in
  let* sequence := read_uint32 in
  reader_ret (prevout_bytes, prevout_n, scriptSig, sequence).

End WithExternals.

End TxSpec.

(** ** A small implementation of the interface

    Keys and addresses are byte strings and the hash functions are the
    identity: enough to run the definitions on concrete transactions. *)

Module TxRun.
Import Tx.

Definition run_externals : Externals := {|
  PublicKey := bytes;
  Address := bytes;
  PublicKey_eqb := λ a b, bool_decide (a = b);
  sha256d := λ b, b;
  double_sha256 := λ b, b;
  hash_160 := λ b, b;
  PublicKey_from_bytes := λ b,
    if bool_decide (length b = 33%nat ∨ length b = 65%nat) then Ok b else Raise ValueError;
  PublicKey_to_bytes := λ k _, k;
  PublicKey_add := λ k _, Ok k;
  PublicKey_to_address := λ k, k;
  bip32_derive := λ b _, Ok (take 33 b);
  classify_output_script := λ s, Some s;
  Address_with_coin := λ a, a;
  Address_to_script_bytes := λ a, a;
  Address_to_bytes := λ _, Raise AttributeError;
  P2PK_Output_script := λ k,
    match k with inl p => Ok (p ++ [xac]) | inr _ => Raise TypeError end;
  P2SH_Address := λ h, h;
  push_int := λ z, [Z_to_byte (80 + z)];
  push_item := λ b, Z_to_byte (Z.of_nat (length b)) :: b;
  PrivateKey_sign := λ sec h, Ok (x30 :: sec);
  PrivateKey_public_key_bytes := λ sec c,
    Ok ((if c then x02 else x04) :: sec ++ replicate (if c then 0 else 32) x00);
  der_signature_to_compact := λ s, Ok s;
  from_recoverable_signature := λ _ _, Raise InvalidSignatureError;
  verify_recoverable_signature := λ _ _ _, Ok true;
  dummy_public_key := x03 :: replicate 32 x00;
|}.

End TxRun.

(** ** Sample transactions *)

Module TxSamples.
Import Tx TxRun.

#[local] Existing Instance run_externals.

Definition key_a : XPublicKey := mkXPublicKey (x02 :: replicate 32 x11).
Definition key_b : XPublicKey := mkXPublicKey (x03 :: replicate 32 x22).
Definition key_c : XPublicKey := mkXPublicKey (x02 :: replicate 32 x33).

(** A legacy-keystore reference (kind [0xfe]): 64 bytes of master key and
    two indices. *)
Definition legacy_key : XPublicKey :=
  mkXPublicKey (xfe :: replicate 64 x44 ++ [x01; x00; x00; x00]).

(** A script-hash placeholder (kind [0xfd]) around an output script. *)
Definition placeholder_key : XPublicKey :=
  mkXPublicKey (xfd :: [x76; xa9; x14] ++ replicate 20 x55 ++ [x88; xac]).

Definition sig_1 : bytes := [x30; x44; x01; x41].
Definition sig_2 : bytes := [x30; x44; x02; x41].
Definition sig_3 : bytes := [x30; x44; x03; x41].

Definition secret : bytes := replicate 32 x07.

Definition prevout_1 : bytes := replicate 32 xaa.
Definition prevout_2 : bytes := replicate 32 xbb.

Definition output_1 : TxOutput :=
  mkTxOutput 50000 ([x76; xa9; x14] ++ replicate 20 x66 ++ [x88; xac]).

(** A 2-of-3 multisig input with the given slots. *)
Definition multisig_input (prevout : bytes) (slots : list (option bytes)) : TxInput :=
  mkTxInput (Some p2sh) (Some prevout) (Some 0) (Some 4294967295)
    (Some [key_a; key_b; key_c]) (Some slots) (Some 2)
    (Some (AddressOf (replicate 20 x77 : @Address run_externals))) (Some 70000)
    None None.

(** One input carries three signatures for a threshold of two, the other
    one signature. *)
Definition oversigned_tx : Transaction :=
  mkTransaction None
    [multisig_input prevout_1 [Some sig_1; Some sig_2; Some sig_3];
     multisig_input prevout_2 [Some sig_1; None; None]]
    [output_1] 0 1.


(** A pay-to-public-key-hash input with one key and one slot. *)
Definition p2pkh_input (key : XPublicKey) (slot : option bytes) (v : option Z)
  : TxInput :=
  mkTxInput (Some p2pkh) (Some prevout_1) (Some 1) (Some 4294967294)
    (Some [key]) (Some [slot]) (Some 1)
    (Some (AddressOf (replicate 20 x55 : @Address run_externals))) v None None.

(** A pay-to-public-key input, with its key as a wallet declares it. *)
Definition p2pk_input (keys : list XPublicKey) (v : option Z) : TxInput :=
  mkTxInput (Some p2pk) (Some prevout_2) (Some 0) (Some 4294967295)
    (Some keys) (Some [Some sig_2]) (Some 1) (Some AddressNone) v
    None None.

Definition coinbase_input : TxInput :=
  mkTxInput (Some coinbase) (Some (replicate 32 x00)) (Some 4294967295)
    (Some 4294967295) None None None (Some UnknownAddress) None
    (Some (Some [x03; x01; x02; x03])) None.

Definition tx_of (inputs : list TxInput) : Transaction :=
  mkTransaction None inputs [output_1] 0 1.

(** Complete, with a raw key: comes back from the wire as it is. *)
Definition signed_tx : Transaction :=
  tx_of [p2pkh_input key_a (Some sig_1) (Some 70000); p2pk_input [] None;
         coinbase_input].


(** Unsigned, the key being a legacy-keystore reference. *)
Definition legacy_tx : Transaction :=
  tx_of [p2pkh_input legacy_key None (Some 70000)].

(** Unsigned, the key being a script-hash placeholder. *)
Definition placeholder_tx : Transaction :=
  tx_of [p2pkh_input placeholder_key None (Some 70000)].

(** Unsigned, the spent amount not known. *)
Definition valueless_tx : Transaction := tx_of [p2pkh_input key_a None None].

Definition keypairs_of (key : XPublicKey) : gmap XPublicKey (bytes * bool) :=
  {[ key := (secret, true) ]}.

(** A transaction that was read from the wire: a pay-to-public-key input
    has no declared key and, being complete, no value. *)
Definition parsed_p2pk_tx : Transaction := tx_of [p2pk_input [] None].

(** The wire form of an unsigned pay-to-public-key-hash input: the text
    that stands for the missing signature, the key, and the value after the
    sequence number. *)
Definition unsigned_input_bytes : bytes :=
  prevout_1 ++ [x01; x00; x00; x00]
  ++ [x24] ++ ([x01; xff] ++ [x21] ++ raw key_a)
  ++ [xfe; xff; xff; xff]
  ++ [x70; x11; x01; x00; x00; x00; x00; x00].





(** The transactions after [sign]. *)
Definition legacy_signed : Transaction :=
  Eval vm_compute in (sign (keypairs_of legacy_key) legacy_tx).2.

Definition placeholder_signed : Transaction :=
  Eval vm_compute in (sign (keypairs_of placeholder_key) placeholder_tx).2.

(** The input that [_parse_input] reads from [unsigned_input_bytes]. *)
Definition unsigned_input : TxInput :=
  Eval vm_compute in
    match _parse_input (mkBCDataStream unsigned_input_bytes 0) with
    | Ok (d, _) => d
    | Raise _ => coinbase_input
    end.

(** Unsigned, the key being a raw public key and the spent amount known;
    and the same input under another address. *)
Definition plain_tx : Transaction := tx_of [p2pkh_input key_a None (Some 70000)].

Definition readdressed_tx : Transaction :=
  tx_of [set_address (AddressOf (replicate 20 x66 : @Address run_externals))
           (p2pkh_input key_a None (Some 70000))].

(** An input of unknown kind with the script code [code]. *)
Definition unknown_input (code : option bytes) : TxInput :=
  mkTxInput (Some unknown) (Some prevout_2) (Some 0) (Some 4294967295)
    (Some []) (Some []) (Some 0) (Some AddressNone) (Some 70000)
    (Some (Some [x6a; x01; x02])) code.

(** Two unsigned inputs, the second without its spent amount, and the
    keys of both. *)
Definition second_valueless_tx : Transaction :=
  tx_of [p2pkh_input key_a None (Some 70000);
         mkTxInput (Some p2pkh) (Some prevout_2) (Some 0) (Some 4294967295)
           (Some [key_b]) (Some [None]) (Some 1)
           (Some (AddressOf (replicate 20 x66 : @Address run_externals))) None
           None None].

Definition keypairs_a_b : gmap XPublicKey (bytes * bool) :=
  {[ key_a := (secret, true); key_b := (secret, true) ]}.

(** What [sign] leaves of it. *)
Definition second_valueless_signed : Transaction :=
  Eval vm_compute in (sign keypairs_a_b second_valueless_tx).2.






(** The hashes of the preimages of the samples that differ in an address
    or in a script code. *)
Definition preimage_of (tx : Transaction) : bytes :=
  match preimage_hash tx 0 with Ok h => h | Raise _ => [] end.

Definition plain_preimage : bytes := Eval vm_compute in preimage_of plain_tx.

Definition readdressed_preimage : bytes :=
  Eval vm_compute in preimage_of readdressed_tx.

Definition unknown_preimage_1 : bytes :=
  Eval vm_compute in preimage_of (tx_of [unknown_input (Some [x51])]).

Definition unknown_preimage_2 : bytes :=
  Eval vm_compute in preimage_of (tx_of [unknown_input (Some [x52])]).

End TxSamples.

(** ** Reading the claims *)

Module StorageSpec.
Import Storage.

Section WithExternals.
Context `{Externals}.

(** The conversion steps of [upgrade], in their order. *)
Definition conversion_steps : list (Method unit) :=
  [convert_imported; convert_wallet_type; convert_account; convert_version_13_b;
   convert_version_14; convert_version_15; convert_version_16; convert_version_17;
   convert_version_18; convert_version_19].

(** What [upgrade] does after the backup. *)
Definition conversions : Method unit :=
  (convert_imported;;
   convert_wallet_type;;
   convert_account;;
   convert_version_13_b;;
   convert_version_14;;
   convert_version_15;;
   convert_version_16;;
   convert_version_17;;
   convert_version_18;;
   convert_version_19;;
   put_ "seed_version" (JInt FINAL_SEED_VERSION);;
   write)%storage.

(** [N] is the smallest positive number whose backup path is free. *)
Definition first_free_backup (files : gmap string (string * Z)) (path : string)
  (N : nat) : Prop :=
  (1 ≤ N)%nat
  ∧ files !! wallet_backup_path path N = None
  ∧ ∀ k, (1 ≤ k < N)%nat → is_Some (files !! wallet_backup_path path k).

(** The machine with [content] in a new file at [dst]. *)
Definition with_new_file (machine : Machine) (dst content : string) : Machine :=
  mkMachine (<[dst:=(content, new_file_mode)]> (fs machine)) (pid machine)
    (daemon machine).

(** A call of [put] that sets a key to the value it has: the value is not
    [None] and compares equal to the stored one. *)
Definition same_value_put (self : WalletStorage) (kv : string * json) : Prop :=
  kv.2 ≠ JNone ∧ ∃ w, data self !! kv.1 = Some w ∧ py_eqb w kv.2 = true.

Definition puts (kvs : list (string * json)) (self : WalletStorage) : WalletStorage :=
  foldl (λ s kv, put kv.1 kv.2 s) self kvs.

End WithExternals.

End StorageSpec.

Module StorageRun.
Import Storage.

(** An implementation of the interface for running the definitions: the
    document is written as a fixed text, and the parts of the conversion
    steps that are taken from elsewhere do nothing. *)
Definition run_externals : Externals := {|
  json_dumps := λ _, "{}";
  encrypt_message_to_base64 := λ _ s, s;
  new_file_mode := 420;
  parse_document := λ _, Ok ∅;
  convert_imported_body := method_ret ();
  convert_wallet_type_body := method_ret ();
  convert_version_13_b_body := method_ret ();
  convert_version_14_body := method_ret ();
  convert_version_16_body := method_ret ();
  convert_version_18_body := method_ret ();
  convert_version_19_body := method_ret ();
|}.

End StorageRun.

(** ** Sample wallets *)

Module StorageSamples.
Import Storage StorageRun.

#[local] Existing Instance run_externals.

(** A wallet object made for a path at which there is no file. *)
Definition fresh_storage : WalletStorage :=
  mkWalletStorage true {["seed_version" := JInt 18]} "w" false false None "".

Definition empty_machine : Machine := mkMachine ∅ 7 false.

(** A wallet written by a later version of the program. *)
Definition future_storage : WalletStorage :=
  mkWalletStorage false {["seed_version" := JInt 20]} "w" true false None "".

(** A wallet whose document holds a null under ["k"], as read from its
    file. *)
Definition null_storage : WalletStorage :=
  mkWalletStorage false {["k" := JNone]} "w" true false None "{'k': None}".

(** A wallet as the constructor makes it for a path at which there is no
    file: at the final version, modified and not yet written. *)
Definition new_storage : WalletStorage :=
  mkWalletStorage false
    {["tx_store_aeskey" := JStr "00"; "wallet_author" := JStr "ESV";
      "seed_version" := JInt 19]} "w" false true None "".

Definition disk_machine : Machine :=
  mkMachine {["w" := ("{'k': None}", 384)]} 7 false.

End StorageSamples.
(** * More of [electrumsv/transaction.py] *)

Module TxMore.
Import Tx.

(** ** [_BCDataStream], writing *)

(** [_BCDataStream.write]: the bytes are appended; a stream before its
    first write holds no bytes. *)
Definition write (_bytes : bytes) (vds : BCDataStream) : BCDataStream :=
  mkBCDataStream (input vds ++ _bytes) (read_cursor vds).

(** The least value and the bound of a [struct] format. *)
Definition format_min (format : struct_format) : Z :=
  match format with
  | fmt_h => - 2 ^ 15
  | fmt_i => - 2 ^ 31
  | fmt_q => - 2 ^ 63
  | fmt_H | fmt_I | fmt_Q => 0
  end.

Definition format_bound (format : struct_format) : Z :=
  match format with
  | fmt_h => 2 ^ 15
  | fmt_i => 2 ^ 31
  | fmt_q => 2 ^ 63
  | fmt_H => 2 ^ 16
  | fmt_I => 2 ^ 32
  | fmt_Q => 2 ^ 64
  end.

(** [struct.pack(format, num)]: little-endian two's complement; a number
    out of the range of the format is an error of [struct]. *)
Definition pack (format : struct_format) (num : Z) : result bytes :=
  if bool_decide (format_min format ≤ num < format_bound format) then
    Ok (le_bytes (calcsize format) (num `mod` 256 ^ Z.of_nat (calcsize format)))
  else Raise StructError.

(** [_BCDataStream._write_num] *)
Definition _write_num (format : struct_format) (num : Z) (vds : BCDataStream)
  : result BCDataStream :=
  let* s := pack format num in Ok (write s vds).

Definition write_int16 : Z → BCDataStream → result BCDataStream := _write_num fmt_h.
Definition write_uint16 : Z → BCDataStream → result BCDataStream := _write_num fmt_H.
Definition write_int32 : Z → BCDataStream → result BCDataStream := _write_num fmt_i.
Definition write_uint32 : Z → BCDataStream → result BCDataStream := _write_num fmt_I.
Definition write_int64 : Z → BCDataStream → result BCDataStream := _write_num fmt_q.
Definition write_uint64 : Z → BCDataStream → result BCDataStream := _write_num fmt_Q.

Definition read_int16 : Reader Z := _read_num fmt_h.
Definition read_uint16 : Reader Z := _read_num fmt_H.
Definition read_int64 : Reader Z := _read_num fmt_q.

(** [_BCDataStream.write_compact_size]: a size of [2**64] or more falls
    through every branch and nothing is written. *)
Definition write_compact_size (size : Z) (vds : BCDataStream) : result BCDataStream :=
  if bool_decide (size < 0) then Raise SerializationError
  else if bool_decide (size < 253) then Ok (write [Z_to_byte size] vds)
  else if bool_decide (size < 2 ^ 16) then _write_num fmt_H size (write [xfd] vds)
  else if bool_decide (size < 2 ^ 32) then _write_num fmt_I size (write [xfe] vds)
  else if bool_decide (size < 2 ^ 64) then _write_num fmt_Q size (write [xff] vds)
  else Ok vds.

(** The stream positioned at the end of what [vds] held, over the bytes of
    [vds']: where a reader starts on what was written after [vds]. *)
Definition reader_after (vds vds' : BCDataStream) : BCDataStream :=
  mkBCDataStream (input vds') (length (input vds)).

Definition at_end (vds : BCDataStream) : BCDataStream :=
  mkBCDataStream (input vds) (length (input vds)).

(** ** The stream object before its first write

    [_BCDataStream()] and [clear] leave [input] at [None], with the cursor
    at 0, and the first [write] binds the bytes.  [None] stands for that
    state, in which a subscript of [input] is a [TypeError]; the handlers
    of [read_bytes] and [read_compact_size] are for [IndexError] and let it
    pass, the handler of [_read_num] is for every exception.  Lengths are
    natural numbers. *)
Module StreamObject.

Definition t : Type := option BCDataStream.

(** [_BCDataStream.__init__] *)
Definition init : t := None.

(** [_BCDataStream.clear] *)
Definition clear (self : t) : t := None.

(** [_BCDataStream.write] *)
Definition write (_bytes : bytes) (self : t) : t :=
  match self with
  | None => Some (mkBCDataStream _bytes 0)
  | Some vds => Some (mkBCDataStream (input vds ++ _bytes) (read_cursor vds))
  end.

(** A reading method of the object, over the method of a stream that
    holds bytes; [unbound] is what the method raises before the first
    write. *)
Definition reading {A : Type} (unbound : exn) (m : Reader A) (self : t)
  : result (A * t) :=
  match self with
  | None => Raise unbound
  | Some vds => rmap (λ r, (r.1, Some r.2)) (m vds)
  end.

(** [_BCDataStream.read_bytes] *)
Definition read_bytes (length : nat) : t → result (bytes * t) :=
  reading TypeError (Tx.read_bytes (Z.of_nat length)).

(** [_BCDataStream.read_compact_size] *)
Definition read_compact_size : t → result (Z * t) :=
  reading TypeError Tx.read_compact_size.

(** [_BCDataStream._read_num] *)
Definition _read_num (format : struct_format) : t → result (Z * t) :=
  reading SerializationError (Tx._read_num format).

End StreamObject.

Section WithExternals.
Context `{Externals}.

(** ** More methods of [Transaction] *)

(** [Transaction.txid] *)
Definition txid (self : Transaction) : result (option bytes) :=
  let* complete := is_complete self in
  if negb complete then Ok None
  else
    let* ser := serialize self false in
    Ok (Some (reverse (sha256d ser))).

(** [Transaction.input_value] *)
Definition input_value (self : Transaction) : result Z :=
  let* values := rmapM (λ x, getitem "value" (value x)) (_inputs self) in
  Ok (foldl Z.add 0 values).

(** [Transaction.output_value] *)
Definition output_value (self : Transaction) : Z :=
  foldl Z.add 0 (out_value <$> _outputs self).

(** [Transaction.get_fee] *)
Definition get_fee (self : Transaction) : result Z :=
  let* i := input_value self in Ok (i - output_value self).

(** [Transaction.is_final] *)
Definition is_final (self : Transaction) : bool :=
  negb (existsb (λ x, bool_decide (get_sequence x < 4294967295 - 1)) (_inputs self)).

(** [Transaction.estimated_input_size] *)
Definition estimated_input_size (txin : TxInput) : result Z :=
  let* script := input_script txin true in
  let* s := serialize_input txin script true in
  Ok (Z.of_nat (length s)).

(** [Transaction.estimated_size] *)
Definition estimated_size (self : Transaction) : result Z :=
  let* complete := is_complete self in
  match negb complete, tx_raw self with
  | false, Some raw => Ok (Z.of_nat (length raw))
  | _, _ => let* s := serialize self true in Ok (Z.of_nat (length s))
  end.

(** [Transaction.add_inputs] *)
Definition add_inputs (inputs : list TxInput) : Method unit :=
  λ self, (Ok (), set_tx_raw None (set_inputs (_inputs self ++ inputs) self)).

(** [Transaction.add_outputs] *)
Definition add_outputs (outputs : list TxOutput) : Method unit :=
  λ self, (Ok (), mkTransaction None (_inputs self) (_outputs self ++ outputs)
                    (locktime self) (version self)).

(** [Transaction.from_io] *)
Definition from_io (inputs : list TxInput) (outputs : list TxOutput) (locktime : Z)
  : Transaction :=
  mkTransaction None inputs outputs locktime 1.

End WithExternals.

End TxMore.
(** ** Reading the further properties *)

Module TxMoreSpec.
Import Tx TxMore.

Section WithExternals.
Context `{Externals}.

(** What signing leaves of an input: every field but the keys and the
    signature slots, and the number of keys and of slots. *)
Definition sign_frame (a b : TxInput) : Prop :=
  type a = type b ∧ prevout_hash a = prevout_hash b ∧ prevout_n a = prevout_n b
  ∧ sequence a = sequence b ∧ num_sig a = num_sig b ∧ address a = address b
  ∧ value a = value b ∧ scriptSig a = scriptSig b ∧ scriptCode a = scriptCode b
  ∧ length <$> x_pubkeys a = length <$> x_pubkeys b
  ∧ length <$> signatures a = length <$> signatures b.

(** What signing leaves of a transaction. *)
Definition tx_frame (tx tx' : Transaction) : Prop :=
  Forall2 sign_frame (_inputs tx) (_inputs tx')
  ∧ _outputs tx' = _outputs tx ∧ locktime tx' = locktime tx
  ∧ version tx' = version tx.

(** The input after [update_signatures] handled it with [signature]: as
    it was, or with one slot holding the signature followed by the hash
    type and with the stored script dropped. *)
Definition updated_by (signature : bytes) (a b : TxInput) : Prop :=
  b = a
  ∨ ∃ sigs j,
      signatures a = Some sigs ∧ (j < length sigs)%nat
      ∧ b = set_scriptSig None
              (set_signatures (<[j:=Some (signature ++ [Z_to_byte nHashType])]> sigs) a).

(** The dictionary that [_parse_input] fills before it looks at the
    script of an input that is not a coinbase. *)
Definition unclassified (h : bytes) (n : Z) (script : bytes) (q : Z) : TxInput :=
  mkTxInput (Some unknown) (Some h) (Some n) (Some q) (Some []) (Some []) (Some 0)
    (Some AddressNone) None (Some (Some script)) None.

(** What [_parse_scriptSig] makes of a dictionary: nothing, or one of
    the three kinds with their keys, slots and threshold. *)
Definition classified (d d' : TxInput) : Prop :=
  d' = d
  ∨ (∃ item, d' = set_x_pubkeys [] (set_num_sig 1 (set_signatures [Some item]
                     (set_type p2pk d))))
  ∨ (∃ slot k a, d' = set_address (AddressOf a) (set_num_sig 1 (set_x_pubkeys [k]
                          (set_signatures [slot] (set_type p2pkh d))))
       ∧ (∃ pk, to_public_key k = Ok pk))
  ∨ (∃ slots keys m a,
       d' = set_address (AddressOf a) (set_x_pubkeys keys
              (set_signatures slots (set_num_sig m (set_type p2sh d))))
       ∧ 1 ≤ m ≤ Z.of_nat (length keys)).

(** The fields of an input that [_parse_input] returned, by kind. *)
Definition parsed_shape (d : TxInput) : Prop :=
  (∃ h, prevout_hash d = Some h ∧ length h = 32%nat)
  ∧ (∃ n, prevout_n d = Some n ∧ 0 ≤ n < 2 ^ 32)
  ∧ (∃ q, sequence d = Some q ∧ 0 ≤ q < 2 ^ 32)
  ∧ (∃ s, scriptSig d = Some (Some s))
  ∧ scriptCode d = None
  ∧ match type d with
    | Some coinbase =>
        x_pubkeys d = None ∧ signatures d = None ∧ num_sig d = None
        ∧ address d = Some UnknownAddress ∧ value d = None
    | Some unknown =>
        x_pubkeys d = Some [] ∧ signatures d = Some [] ∧ num_sig d = Some 0
        ∧ address d = Some AddressNone ∧ value d = None
    | Some p2pk =>
        x_pubkeys d = Some [] ∧ (∃ item, signatures d = Some [Some item])
        ∧ num_sig d = Some 1 ∧ address d = Some AddressNone
    | Some p2pkh =>
        (∃ k, x_pubkeys d = Some [k]) ∧ (∃ slot, signatures d = Some [slot])
        ∧ num_sig d = Some 1 ∧ ∃ a, address d = Some (AddressOf a)
    | Some p2sh =>
        ∃ keys slots m a,
          x_pubkeys d = Some keys ∧ signatures d = Some slots
          ∧ num_sig d = Some m ∧ 1 ≤ m ≤ Z.of_nat (length keys)
          ∧ address d = Some (AddressOf a)
    | None => False
    end.

(** The input with ['value'] rebound (or removed). *)
Definition with_value (v : option Z) (d : TxInput) : TxInput :=
  mkTxInput (type d) (prevout_hash d) (prevout_n d) (sequence d) (x_pubkeys d)
    (signatures d) (num_sig d) (address d) v (scriptSig d) (scriptCode d).

(** An input that counts for completeness has its threshold and is
    complete on its own. *)
Definition complete_on_its_own (txin : TxInput) : Prop :=
  is_Some (type txin)
  ∧ (type txin ≠ Some coinbase →
     is_Some (num_sig txin) ∧ is_txin_complete txin = Ok true).

(** An unsigned pay-to-public-key-hash input as a wallet hands it to an
    offline signer: one key that [to_public_key] accepts, the one slot
    empty, and the spent amount. *)
Definition offline_input (txin : TxInput) : Prop :=
  TxSpec.wire_fields_ok txin
  ∧ prevout_hash txin ≠ Some (replicate 32 x00)
  ∧ type txin = Some p2pkh
  ∧ (∃ k pk, x_pubkeys txin = Some [k] ∧ to_public_key k = Ok pk
       ∧ Z.of_nat (length (raw k)) < 2 ^ 32)
  ∧ signatures txin = Some [None]
  ∧ num_sig txin = Some 1
  ∧ ∃ v, value txin = Some v ∧ 0 ≤ v < 2 ^ 64.

(** Equality on the fields that the wire form of an unsigned input
    carries: those of [same_input], the threshold and the value. *)
Definition same_input_and_value (a b : TxInput) : Prop :=
  TxSpec.same_input a b ∧ num_sig a = num_sig b ∧ value a = value b.

End WithExternals.

End TxMoreSpec.

(** ** Further sample transactions *)

Module TxMoreSamples.
Import Tx TxRun TxSamples TxMore.

#[local] Existing Instance run_externals.

(** The keys of the 2-of-3 multisig sample. *)
Definition multisig_keys : list XPublicKey := [key_a; key_b; key_c].

(** Unsigned, with a raw key and the spent amount: what an offline signer
    is handed. *)
Definition offline_tx : Transaction :=
  tx_of [p2pkh_input key_a None (Some 70000)].

(** The unsigned 2-of-3 multisig transaction and what [update_signatures]
    makes of it when it is given one signature. *)
Definition unsigned_multisig_tx : Transaction :=
  tx_of [multisig_input prevout_1 [None; None; None]].

Definition updated_multisig : result unit * Transaction :=
  Eval vm_compute in update_signatures [sig_1] unsigned_multisig_tx.

End TxMoreSamples.

(** * Wallet storage: the constructor *)

Module StorageMore.
Import Storage.

(** What the constructor sees of its surroundings besides the files. *)
Class Surroundings : Type := {
  (** [os.path.exists(os.path.dirname(path))] *)
  dirname_exists : string → bool;
  (** [base64.b64decode(raw)[0:4] == b'BIE1'], false when decoding raises *)
  b64_starts_with_BIE1 : string → bool;
}.

Section WithExternals.
Context `{Externals} `{Surroundings}.

(** [WalletStorage.is_encrypted] *)
Definition is_encrypted (self : WalletStorage) : bool :=
  b64_starts_with_BIE1 (raw self).

(** [WalletStorage.__init__]: the object that is constructed, or the
    exception, and the machine after it.  [tx_store_aeskey_hex] is
    [os.urandom(32).hex()]; the files hold text, so reading one does not
    fail to decode; [raw] of an object made for a new wallet, which the
    constructor does not bind, is the empty text. *)
Definition WalletStorage_init (path : string) (manual_upgrades : bool)
  (tx_store_aeskey_hex : string) (machine : Machine)
  : result WalletStorage * Machine :=
  if negb (dirname_exists path) then (Raise IOError, machine)
  else
    let self :=
      mkWalletStorage manual_upgrades ∅ path
        (negb (String.eqb path "") && bool_decide (is_Some (fs machine !! path)))
        false None "" in
    if file_exists self then
      match fs machine !! path with
      | None => (Raise FileNotFoundError, machine)
      | Some f =>
          let self :=
            mkWalletStorage manual_upgrades ∅ path (_file_exists self) false None f.1 in
          if negb (is_encrypted self) then
            match load_data (raw self) (self, machine) with
            | (Ok _, w) => (Ok w.1, w.2)
            | (Raise e, w) => (Raise e, w.2)
            end
          else (Ok self, machine)
      end
    else
      let self := put "tx_store_aeskey" (JStr tx_store_aeskey_hex) self in
      let self := put "wallet_author" (JStr "ESV") self in
      let self := put "seed_version" (JInt FINAL_SEED_VERSION) self in
      (Ok self, machine).

End WithExternals.

End StorageMore.

(** ** Reading the further properties of the storage *)

Module StorageMoreSpec.
Import Storage StorageMore.

Section WithExternals.
Context `{Externals}.

(** The text that [_write] puts in the file: the document, encrypted when
    the object has a key. *)
Definition written_text (self : WalletStorage) : string :=
  match pubkey self with
  | Some k => encrypt_message_to_base64 k (json_dumps (data self))
  | None => json_dumps (data self)
  end.

(** The path of the temporary file of [_write]. *)
Definition temp_path (self : WalletStorage) (machine : Machine) : string :=
  path self +:+ ".tmp." +:+ pretty (pid machine).

(** The machine with [text] in the temporary file. *)
Definition with_temp_file (self : WalletStorage) (machine : Machine) : Machine :=
  mkMachine
    (<[temp_path self machine :=
         (written_text self,
          match fs machine !! temp_path self machine with
          | Some f => f.2
          | None => new_file_mode
          end)]> (fs machine))
    (pid machine) (daemon machine).

(** The permission bits of the wallet file after [_write]: those it had,
    or owner read and write for a wallet that had no file. *)
Definition mode_after_write (self : WalletStorage) (machine : Machine) : Z :=
  if file_exists self then
    match fs machine !! path self with
    | Some f => f.2
    | None => 384
    end
  else 384.

(** The document of a wallet that the constructor makes for a path at
    which there is no file. *)
Definition new_wallet_data (tx_store_aeskey_hex : string) : gmap string json :=
  <["seed_version":=JInt FINAL_SEED_VERSION]>
    (<["wallet_author":=JStr "ESV"]>
       (<["tx_store_aeskey":=JStr tx_store_aeskey_hex]> ∅)).

(** The object that the constructor makes for a file that holds [text],
    with the document [d]. *)
Definition opened (path : string) (manual_upgrades : bool) (text : string)
  (d : gmap string json) : WalletStorage :=
  mkWalletStorage manual_upgrades d path true false None text.

(** The fields of the object that [put] never touches. *)
Definition same_file_fields (a b : WalletStorage) : Prop :=
  path a = path b ∧ _file_exists a = _file_exists b ∧ pubkey a = pubkey b
  ∧ raw a = raw b ∧ manual_upgrades a = manual_upgrades b.

End WithExternals.

End StorageMoreSpec.

Module StorageMoreSamples.
Import Storage StorageRun StorageSamples StorageMore.

(** The directory of every path exists and no text is an encrypted
    document. *)
Definition run_surroundings : Surroundings := {|
  dirname_exists := λ _, true;
  b64_starts_with_BIE1 := λ _, false;
|}.

(** The interface for running the definitions with a parser that reads
    every text as a document of the final version. *)
Definition final_externals : Externals := {|
  json_dumps := λ _, "{}";
  encrypt_message_to_base64 := λ _ s, s;
  new_file_mode := 420;
  parse_document := λ _, Ok {["seed_version" := JInt 19]};
  convert_imported_body := method_ret ();
  convert_wallet_type_body := method_ret ();
  convert_version_13_b_body := method_ret ();
  convert_version_14_body := method_ret ();
  convert_version_16_body := method_ret ();
  convert_version_18_body := method_ret ();
  convert_version_19_body := method_ret ();
|}.

(** A wallet of the final version, as read from its file. *)
Definition final_storage : WalletStorage :=
  mkWalletStorage false {["seed_version" := JInt 19]} "w" true false None
    "{'k': None}".

(** What [upgrade] gives for the wallet of the final version: the object
    as it was, and the files with the backup. *)
Definition final_upgraded : WalletStorage * Machine :=
  Eval vm_compute in (@upgrade run_externals (final_storage, disk_machine)).2.

End StorageMoreSamples.

(** * Properties of the transaction code *)

Module TxProofs.
Import Tx TxSpec.

Section WithExternals.
Context `{Externals}.

(** ** Completeness *)

Lemma non_coinbase_cons (txin : TxInput) (inputs : list TxInput) :
  non_coinbase (txin :: inputs)
  = if is_coinbase txin then non_coinbase inputs else txin :: non_coinbase inputs.
Proof. unfold non_coinbase; simpl. by destruct (is_coinbase txin). Qed.

Lemma signature_count_loop_totals (inputs : list TxInput) (s r : Z) :
  Forall (λ txin, is_Some (type txin)) inputs →
  signature_count_loop inputs s r
  = Ok (s + total_present inputs, r + total_required inputs).
Proof.
  intros Hty. revert s r.
  induction Hty as [|txin inputs [t Ht] _ IH]; intros s r; simpl.
  - unfold total_present, total_required; simpl. do 2 f_equal; lia.
  - rewrite Ht; simpl.
    unfold total_present, total_required in *.
    rewrite non_coinbase_cons. unfold is_coinbase. rewrite Ht.
    destruct (decide (t = coinbase)) as [->|Hne].
    + rewrite bool_decide_eq_true_2 by done. apply IH.
    + rewrite bool_decide_eq_false_2 by congruence.
      rewrite !fmap_cons. cbn [sumZ]. rewrite IH.
      unfold present_count at 2, required_count at 2. do 2 f_equal; lia.
Qed.

Lemma sumZ_le (l : list TxInput) :
  Forall (λ txin, present_count txin ≤ required_count txin) l →
  sumZ (present_count <$> l) ≤ sumZ (required_count <$> l).
Proof.
  induction 1 as [|txin l Hle _ IH]; [done|].
  rewrite !fmap_cons. cbn [sumZ]. lia.
Qed.

Lemma sumZ_pointwise_le (l : list TxInput) :
  Forall (λ txin, present_count txin ≤ required_count txin) l →
  sumZ (present_count <$> l) = sumZ (required_count <$> l) →
  Forall input_satisfied l.
Proof.
  induction 1 as [|txin l Hle Hall IH]; [constructor|].
  rewrite !fmap_cons. cbn [sumZ]. intros Hsum.
  pose proof (sumZ_le l Hall) as Hl.
  constructor; [unfold input_satisfied; lia|]. apply IH. lia.
Qed.

Lemma sumZ_satisfied (l : list TxInput) :
  Forall input_satisfied l →
  sumZ (present_count <$> l) = sumZ (required_count <$> l).
Proof.
  induction 1 as [|txin l Hs _ IH]; [done|].
  rewrite !fmap_cons. cbn [sumZ]. rewrite Hs, IH. done.
Qed.

Lemma Forall_non_coinbase (P : TxInput → Prop) (inputs : list TxInput) :
  Forall P (non_coinbase inputs)
  ↔ Forall (λ txin, type txin ≠ Some coinbase → P txin) inputs.
Proof.
  induction inputs as [|txin inputs IH]; [split; constructor|].
  rewrite non_coinbase_cons. unfold is_coinbase. case_bool_decide as Hc.
  - rewrite IH. split.
    + intros Hall. constructor; [congruence|done].
    + intros Hall. by inversion Hall.
  - rewrite !Forall_cons, IH. split; intros [? ?]; split; auto.
Qed.

Lemma non_coinbase_idemp (inputs : list TxInput) :
  non_coinbase (non_coinbase inputs) = non_coinbase inputs.
Proof.
  induction inputs as [|txin inputs IH]; [done|].
  rewrite non_coinbase_cons. destruct (is_coinbase txin) eqn:Hc; [done|].
  rewrite non_coinbase_cons, Hc. by rewrite IH.
Qed.

(** C1 (as the code has it): [is_complete] compares the total number of
    non-empty signature slots of the non-coinbase inputs with the total of
    their thresholds; coinbase inputs do not count; and when no
    non-coinbase input carries more signatures than its threshold, the
    transaction is complete exactly when every non-coinbase input carries
    [num_sig] signatures. *)
Theorem is_complete_compares_totals (tx : Transaction) :
  Forall (λ txin, is_Some (type txin)) (_inputs tx) →
  is_complete tx
  = Ok (bool_decide (total_required (_inputs tx) = total_present (_inputs tx)))
  ∧ is_complete tx = is_complete (set_inputs (non_coinbase (_inputs tx)) tx)
  ∧ (Forall (λ txin, type txin ≠ Some coinbase →
               present_count txin ≤ required_count txin) (_inputs tx) →
     (is_complete tx = Ok true
      ↔ Forall (λ txin, type txin ≠ Some coinbase → input_satisfied txin) (_inputs tx))).
Proof.
  intros Hty.
  assert (Htot : is_complete tx
    = Ok (bool_decide (total_required (_inputs tx) = total_present (_inputs tx)))).
  { unfold is_complete, signature_count.
    rewrite signature_count_loop_totals by done. simpl.
    f_equal; try (apply bool_decide_ext; lia). }
  split; [done|]. split.
  - rewrite Htot. unfold is_complete, signature_count. simpl.
    rewrite signature_count_loop_totals.
    + simpl. unfold total_present, total_required.
      rewrite !non_coinbase_idemp. done.
    + unfold non_coinbase. apply List.Forall_forall. intros x [Hx _]%filter_In.
      rewrite List.Forall_forall in Hty. by apply Hty.
  - intros Hle. rewrite Htot. rewrite <- !Forall_non_coinbase in *.
    split.
    + intros Heq. apply sumZ_pointwise_le; [done|].
      injection Heq as Heq. apply bool_decide_eq_true_1 in Heq.
      unfold total_present, total_required in Heq. done.
    + intros Hsat. f_equal. apply bool_decide_eq_true_2.
      unfold total_present, total_required. by rewrite sumZ_satisfied.
Qed.

(** ** The signing preimage *)

Lemma rmapM_ext {A B : Type} (f g : A → result B) (l : list A) :
  (∀ a, a ∈ l → f a = g a) → rmapM f l = rmapM g l.
Proof.
  induction l as [|a l IH]; intros Hfg; [done|]. simpl.
  rewrite Hfg by left. rewrite IH; [done|].
  intros b Hb. apply Hfg. by right.
Qed.

Lemma rmapM_imap {A B : Type} (g : A → result B) (h : nat → A → A) (l : list A) :
  (∀ k a, g (h k a) = g a) → rmapM g (imap h l) = rmapM g l.
Proof.
  intros Hg. revert h Hg.
  induction l as [|a l IH]; intros h Hg; [done|]. simpl.
  rewrite Hg. rewrite IH; [done|]. intros k b. apply Hg.
Qed.

Lemma rmapM_alter {A B : Type} (g : A → result B) (h : A → A) (i : nat) (l : list A) :
  (∀ a, g (h a) = g a) → rmapM g (alter h i l) = rmapM g l.
Proof.
  intros Hg. revert i.
  induction l as [|a l IH]; intros [|i]; try done.
  - cbn. by rewrite Hg.
  - change (alter h (S i) (a :: l)) with (a :: alter h i l).
    cbn [rmapM]. by rewrite IH.
Qed.

Lemma list_index_resign_others i slots (inputs : list TxInput) :
  list_index (resign_others i slots inputs) i = list_index inputs i.
Proof.
  unfold list_index, resign_others. rewrite list_lookup_imap.
  destruct (inputs !! i); simpl; [|done]. by rewrite decide_True.
Qed.

Lemma rmapM_Forall2 {A B : Type} (f : A → result B) (R : A → A → Prop)
  (l l' : list A) :
  (∀ a b, R a b → f a = f b) → Forall2 R l l' → rmapM f l = rmapM f l'.
Proof.
  intros Hf. induction 1 as [|a b l l' Hab _ IH]; [done|].
  cbn [rmapM]. by rewrite (Hf _ _ Hab), IH.
Qed.

Lemma serialize_outpoint_same (a b : TxInput) :
  same_outpoint a b → serialize_outpoint a = serialize_outpoint b.
Proof. intros (Hh & Hn & _). unfold serialize_outpoint. by rewrite Hh, Hn. Qed.

Lemma get_sequence_same (a b : TxInput) :
  same_outpoint a b → get_sequence a = get_sequence b.
Proof. intros (_ & _ & Hs). unfold get_sequence. by rewrite Hs. Qed.

Lemma get_preimage_script_same (a b : TxInput) :
  same_script_fields a b → get_preimage_script a = get_preimage_script b.
Proof.
  intros (Ht & Hk & Hn & _ & Ha & Hc). unfold get_preimage_script.
  by rewrite Ht, Hk, Hn, Ha, Hc.
Qed.

(** C3 (as the code has it): the preimage hash of input [i] does not
    change when the signature slots of the other inputs are filled in,
    emptied or reordered; it is the same for two transactions that agree on
    version, lock time and outputs, on the outpoint and the sequence number
    of every input, and on the kind, keys, threshold, value, address and
    script code of input [i]. *)
Theorem preimage_hash_ignores_other_signatures (tx : Transaction) (i : nat) :
  (∀ slots : nat → TxInput → option (list (option bytes)),
     preimage_hash (set_inputs (resign_others i slots (_inputs tx)) tx) i
     = preimage_hash tx i)
  ∧ (∀ tx' : Transaction,
       version tx' = version tx → locktime tx' = locktime tx →
       _outputs tx' = _outputs tx →
       Forall2 same_outpoint (_inputs tx) (_inputs tx') →
       (∀ a b, _inputs tx !! i = Some a → _inputs tx' !! i = Some b →
               same_script_fields a b) →
       preimage_hash tx' i = preimage_hash tx i).
Proof.
  split.
  - intros slots. unfold preimage_hash, serialize_preimage. simpl.
    rewrite list_index_resign_others.
    unfold resign_others.
    rewrite (rmapM_imap serialize_outpoint).
    2:{ intros k a. by destruct (decide (k = i)). }
    rewrite (rmapM_imap (λ txin, int_to_hex (get_sequence txin) 4)).
    2:{ intros k a. by destruct (decide (k = i)). }
    done.
  - intros tx' Hv Hl Ho Hall Hi.
    unfold preimage_hash, serialize_preimage. rewrite Hv, Hl, Ho.
    rewrite <- (rmapM_Forall2 serialize_outpoint same_outpoint _ _
                  serialize_outpoint_same Hall).
    rewrite <- (rmapM_Forall2 (λ txin, int_to_hex (get_sequence txin) 4)
                  same_outpoint (_inputs tx) (_inputs tx')).
    2:{ intros a b Hab. by rewrite (get_sequence_same a b). }
    2:{ done. }
    unfold list_index.
    destruct (_inputs tx !! i) as [a|] eqn:Ha.
    + destruct (Forall2_lookup_l _ _ _ _ _ Hall Ha) as (b & Hb & Hab).
      rewrite Hb. specialize (Hi a b eq_refl Hb).
      cbn [rbind].
      rewrite <- (serialize_outpoint_same a b Hab).
      rewrite <- (get_preimage_script_same a b Hi).
      rewrite <- (get_sequence_same a b Hab).
      destruct Hi as (_ & _ & _ & Hval & _). by rewrite <- Hval.
    + destruct (_inputs tx' !! i) as [b|] eqn:Hb; [|done].
      destruct (Forall2_lookup_r _ _ _ _ _ Hall Hb) as (a & Ha' & _). congruence.
Qed.
(** ** Which exceptions a computation can raise *)

Lemma raises_Ok {A : Type} (P : exn → Prop) (a : A) : raises P (Ok a).
Proof. intros e [=]. Qed.

Lemma raises_Raise {A : Type} (P : exn → Prop) (e : exn) : P e → raises (A:=A) P (Raise e).
Proof. intros HP e' [= <-]. done. Qed.

Lemma raises_rbind {A B : Type} (P : exn → Prop) (m : result A) (f : A → result B) :
  raises P m → (∀ a, m = Ok a → raises P (f a)) → raises P (rbind m f).
Proof.
  intros Hm Hf e. destruct m as [a|e']; simpl.
  - by apply Hf.
  - intros [= ->]. by apply Hm.
Qed.

Lemma raises_rmap {A B : Type} (P : exn → Prop) (g : A → B) (m : result A) :
  raises P m → raises P (rmap g m).
Proof. intros Hm e. destruct m; simpl; [done|]. intros [= ->]. by apply Hm. Qed.

Lemma raises_rmapM {A B : Type} (P : exn → Prop) (f : A → result B) (l : list A) :
  (∀ a, raises P (f a)) → raises P (rmapM f l).
Proof.
  intros Hf. induction l as [|a l IH]; simpl; [apply raises_Ok|].
  apply raises_rbind; [apply Hf|]. intros b _.
  apply raises_rbind; [apply IH|]. intros bs _. apply raises_Ok.
Qed.

Lemma raises_getitem {A : Type} (P : exn → Prop) (key : string) (o : option A) :
  (∀ e, builtin e → P e) → raises P (getitem key o).
Proof. intros Hb. destruct o; [apply raises_Ok|]. apply raises_Raise, Hb. exact I. Qed.

Lemma raises_list_index {A : Type} (P : exn → Prop) (l : list A) (i : nat) :
  (∀ e, builtin e → P e) → raises P (list_index l i).
Proof.
  intros Hb. unfold list_index. destruct (l !! i); [apply raises_Ok|].
  apply raises_Raise, Hb. exact I.
Qed.

Lemma raises_int_to_hex (P : exn → Prop) (z : Z) (n : nat) :
  (∀ e, builtin e → P e) → raises P (int_to_hex z n).
Proof.
  intros Hb. unfold int_to_hex. case_bool_decide; [apply raises_Ok|].
  apply raises_Raise, Hb. exact I.
Qed.

Lemma raises_var_int (P : exn → Prop) (z : Z) :
  (∀ e, builtin e → P e) → raises P (var_int z).
Proof.
  intros Hb. unfold var_int.
  repeat case_bool_decide; try apply raises_rmap; by apply raises_int_to_hex.
Qed.

(** One step of the case analysis of a computation. *)
Ltac raises_step Hb :=
  lazymatch goal with
  | |- raises _ (Ok _) => apply raises_Ok
  | |- raises _ (Raise _) => apply raises_Raise; try (apply Hb; exact I)
  | |- raises _ (rbind _ _) => apply raises_rbind; [|intros ? ?]
  | |- raises _ (rmap _ _) => apply raises_rmap
  | |- raises _ (rmapM _ _) => apply raises_rmapM; intros ?
  | |- raises _ (getitem _ _) => apply raises_getitem, Hb
  | |- raises _ (list_index _ _) => apply raises_list_index, Hb
  | |- raises _ (int_to_hex _ _) => apply raises_int_to_hex, Hb
  | |- raises _ (var_int _) => apply raises_var_int, Hb
  | |- raises _ (if ?c then _ else _) => destruct c
  | |- raises _ (match ?x with _ => _ end) => destruct x
  end.

Section Raises.
Context (P : exn → Prop).
Hypothesis Hb : ∀ e, builtin e → P e.
Hypothesis Hext : Externals_raise P.

Lemma raises_kind x : raises P (kind x).
Proof. unfold kind. repeat raises_step Hb. Qed.

Lemma raises_unpack_le_uint16_at r n : raises P (unpack_le_uint16_at r n).
Proof. unfold unpack_le_uint16_at. repeat raises_step Hb. Qed.

Lemma raises_to_public_key x : raises P (to_public_key x).
Proof.
  destruct Hext as (Hfb & Hadd & Hbip & _).
  unfold to_public_key.
  apply raises_rbind; [apply raises_kind|]. intros k _.
  repeat case_bool_decide.
  - apply raises_rmap. intros e. apply Hfb.
  - apply raises_rmap. unfold _bip32_public_key, bip32_extended_key_and_path,
      bip32_extended_key, is_bip32_key.
    apply raises_rbind.
    + repeat first [apply raises_kind | apply raises_unpack_le_uint16_at
                   | raises_step Hb].
    + intros [ek path] _. intros e. apply Hbip.
  - apply raises_rmap. unfold _old_keystore_public_key, old_keystore_mpk_and_path,
      old_keystore_delta_prefix.
    apply raises_rbind.
    + repeat first [apply raises_kind | apply raises_unpack_le_uint16_at
                   | raises_step Hb].
    + intros [mpk path] _.
      apply raises_rbind; [intros e; apply Hfb|]. intros mpk' _.
      apply raises_rbind; [repeat raises_step Hb|]. intros prefix _.
      intros e. apply Hadd.
  - repeat raises_step Hb.
  - repeat raises_step Hb.
Qed.

Lemma raises_XPublicKey_init r : raises P (XPublicKey_init r).
Proof.
  unfold XPublicKey_init.
  pose proof (raises_to_public_key (mkXPublicKey r)) as Hk.
  destruct (to_public_key (mkXPublicKey r)) as [k|e]; [apply raises_Ok|].
  specialize (Hk e eq_refl).
  destruct e; apply raises_Raise; try done; apply Hb; exact I.
Qed.

Lemma raises_key_object_to_bytes k : raises P (key_object_to_bytes k).
Proof.
  destruct Hext as (_ & _ & _ & Hab & _).
  destruct k as [x|[p|a]]; simpl; try apply raises_Ok. intros e. apply Hab.
Qed.

Lemma raises_multisig_script ks m : raises P (multisig_script ks m).
Proof.
  unfold multisig_script.
  repeat first [apply raises_key_object_to_bytes | raises_step Hb].
Qed.

Lemma raises_serialize_outpoint txin : raises P (serialize_outpoint txin).
Proof. unfold serialize_outpoint. repeat raises_step Hb. Qed.

Lemma raises_TxOutput_to_bytes o : raises P (TxOutput_to_bytes o).
Proof. unfold TxOutput_to_bytes, pack_le_int64. repeat raises_step Hb. Qed.

Lemma raises_join_outputs outs : raises P (join_outputs outs).
Proof.
  unfold join_outputs. apply raises_rmap, raises_rmapM, raises_TxOutput_to_bytes.
Qed.

Lemma raises_get_preimage_script txin :
  P (RuntimeError "Unknown txin type") → raises P (get_preimage_script txin).
Proof.
  intros Hrt. destruct Hext as (_ & _ & _ & _ & Hpk & _).
  unfold get_preimage_script.
  apply raises_rbind; [apply raises_getitem, Hb|]. intros t _.
  destruct t.
  - repeat raises_step Hb.
  - repeat first [apply raises_to_public_key | raises_step Hb].
    intros e. apply Hpk.
  - repeat first [apply raises_to_public_key | apply raises_multisig_script
                 | raises_step Hb].
  - by apply raises_Raise.
  - repeat raises_step Hb.
Qed.

Lemma raises_preimage_head tx i :
  P (RuntimeError "Unknown txin type") → raises P (preimage_head tx i).
Proof.
  intros Hrt. unfold preimage_head.
  repeat first [apply raises_serialize_outpoint | apply raises_join_outputs
               | apply raises_get_preimage_script; assumption
               | raises_step Hb].
Qed.

End Raises.

Lemma serialize_preimage_head (tx : Transaction) (i : nat) :
  serialize_preimage tx i
  = (let* (txin, head, tail) := preimage_head tx i in
     let* amount :=
       match value txin with
       | None => Raise InputValueMissing
       | Some v => int_to_hex v 8
       end in
     let* nSequence := int_to_hex (get_sequence txin) 4 in
     Ok (head ++ amount ++ nSequence ++ tail))%result.
Proof.
  unfold serialize_preimage, preimage_head.
  repeat match goal with
  | |- rbind ?m _ = _ => destruct m; simpl; [|reflexivity]
  end.
  by rewrite <- !app_assoc.
Qed.

Lemma rmapM_Ok_elem {A B : Type} (f : A → result B) (l : list A) (bs : list B) (a : A) :
  rmapM f l = Ok bs → a ∈ l → is_Ok (f a).
Proof.
  revert bs. induction l as [|a' l IH]; intros bs Hm Ha.
  - by apply elem_of_nil in Ha.
  - simpl in Hm. destruct (f a') as [b|] eqn:Hfa; [|done]. simpl in Hm.
    destruct (rmapM f l) as [bs'|] eqn:Hl; [|done].
    apply elem_of_cons in Ha as [->|Ha]; [by exists b|]. by eapply IH.
Qed.

Lemma preimage_head_sequence (tx : Transaction) (i : nat) txin head tail :
  preimage_head tx i = Ok (txin, head, tail) →
  _inputs tx !! i = Some txin ∧ is_Ok (int_to_hex (get_sequence txin) 4).
Proof.
  unfold preimage_head. intros Hh.
  repeat match type of Hh with
  | rbind ?m _ = _ => let E := fresh "E" in destruct m eqn:E; simpl in Hh; [|done]
  end.
  injection Hh as -> _ _.
  unfold list_index in *.
  destruct (_inputs tx !! i) as [t|] eqn:Hi; [|done].
  match goal with E : Ok _ = Ok _ |- _ => injection E as -> end.
  split; [done|].
  match goal with
  | E : rmapM (λ txin, int_to_hex (get_sequence txin) 4) _ = Ok _ |- _ =>
      apply (rmapM_Ok_elem _ _ _ txin) in E; [done|]
  end.
  by eapply list_elem_of_lookup_2.
Qed.

(** The preimage of input [i] fails for the missing value exactly when
    its head is built and the input has no value. *)
Lemma serialize_preimage_value_missing (tx : Transaction) (i : nat) :
  Externals_raise (λ e, e ≠ InputValueMissing) →
  (serialize_preimage tx i = Raise InputValueMissing
   ↔ ∃ txin head tail,
       preimage_head tx i = Ok (txin, head, tail) ∧ _inputs tx !! i = Some txin
       ∧ value txin = None)
  ∧ (∀ txin, _inputs tx !! i = Some txin → is_Some (value txin) →
       serialize_preimage tx i ≠ Raise InputValueMissing).
Proof.
  intros Hext.
  assert (Hhead : raises (λ e, e ≠ InputValueMissing) (preimage_head tx i)).
  { apply raises_preimage_head; try done. by intros [] He. }
  assert (Hiff : serialize_preimage tx i = Raise InputValueMissing
   ↔ ∃ txin head tail,
       preimage_head tx i = Ok (txin, head, tail) ∧ _inputs tx !! i = Some txin
       ∧ value txin = None).
  { rewrite serialize_preimage_head. split.
    - destruct (preimage_head tx i) as [[[txin head] tail]|e] eqn:Hh; simpl.
      + destruct (preimage_head_sequence _ _ _ _ _ Hh) as [Hi [q Hq]].
        intros Hr. exists txin, head, tail. repeat split; try done.
        destruct (value txin) as [v|]; [|done]. exfalso.
        pose proof (raises_int_to_hex (λ e, e ≠ InputValueMissing) v 8) as Hv.
        destruct (int_to_hex v 8) as [a|e] eqn:Ha; simpl in Hr.
        * rewrite Hq in Hr. done.
        * injection Hr as ->. eapply Hv; [|done..]. by intros [] He.
      + intros [= ->]. exfalso. exact (Hhead _ eq_refl eq_refl).
    - intros (txin & head & tail & -> & _ & Hv). simpl. by rewrite Hv. }
  split; [done|].
  intros txin Hi [v Hv] Hr. apply Hiff in Hr as (txin' & _ & _ & _ & Hi' & Hv').
  congruence.
Qed.

(** ** Parsing an input *)

Lemma _parse_scriptSig_keeps (d d' : TxInput) (s : bytes) :
  _parse_scriptSig d s = Ok d' →
  value d' = value d
  ∧ (type d' = type d ∨ type d' = Some p2pk ∨ type d' = Some p2pkh ∨ type d' = Some p2sh).
Proof.
  unfold _parse_scriptSig. intros Hp.
  repeat match type of Hp with
  | (if ?c then _ else _) = _ => destruct c
  | rbind ?m _ = _ => destruct m; simpl in Hp; [|done]
  | match ?x with _ => _ end = _ => destruct x
  | Ok _ = Ok _ => injection Hp as <-
  | Raise _ = Ok _ => done
  end; simpl; auto.
Qed.

Lemma is_txin_complete_set_value (v : Z) (d : TxInput) :
  is_txin_complete (set_value v d) = is_txin_complete d.
Proof. done. Qed.

Lemma _read_num_cursor (format : struct_format) (vds vds' : BCDataStream) (z : Z) :
  _read_num format vds = Ok (z, vds') →
  z = unpack format (take (calcsize format) (drop (read_cursor vds) (input vds)))
  ∧ input vds' = input vds
  ∧ read_cursor vds' = (read_cursor vds + calcsize format)%nat.
Proof. unfold _read_num. case_decide; [|done]. by intros [= <- <-]. Qed.

(** C7: when [_parse_input] returns an input that is not a coinbase, the
    eight-byte value after the sequence number was read exactly when the
    parsed signatures are not complete; a complete input ends at its
    sequence number. *)
Theorem _parse_input_reads_value_iff (vds vds' : BCDataStream) (d : TxInput) :
  _parse_input vds = Ok (d, vds') →
  ∃ prefix vds1,
    read_input_prefix vds = Ok (prefix, vds1)
    ∧ (type d = Some coinbase → value d = None ∧ vds' = vds1)
    ∧ (type d ≠ Some coinbase →
       ∃ complete,
         is_txin_complete d = Ok complete
         ∧ (complete = true → value d = None ∧ vds' = vds1)
         ∧ (complete = false →
            ∃ v, read_uint64 vds1 = Ok (v, vds')
              ∧ value d = Some v
              ∧ v = le_value (take 8 (drop (read_cursor vds1) (input vds1)))
              ∧ read_cursor vds' = (read_cursor vds1 + 8)%nat)).
Proof.
  unfold _parse_input, read_input_prefix, reader_bind, reader_ret, reader_lift.
  intros Hp.
  destruct (read_bytes 32 vds) as [[prevout_bytes s1]|] eqn:E1; [|done].
  destruct (read_uint32 s1) as [[prevout_n s2]|] eqn:E2; [|done].
  destruct (read_compact_size s2) as [[script_len s3]|] eqn:E3; [|done].
  destruct (read_bytes script_len s3) as [[script s4]|] eqn:E4; [|done].
  destruct (read_uint32 s4) as [[seq s5]|] eqn:E5; [|done].
  eexists _, s5. split; [done|].
  destruct (decide (hash_to_hex_str prevout_bytes = replicate 32 x00)) as [Hz|Hz].
  - injection Hp as <- <-. simpl. split; [done|]. intros Hne. done.
  - match type of Hp with
    | context [_parse_scriptSig ?d0 script] =>
        destruct (_parse_scriptSig d0 script) as [d1|] eqn:Eps; [|done];
        destruct (_parse_scriptSig_keeps _ _ _ Eps) as [Hval Hty]; simpl in Hval, Hty
    end.
    destruct (is_txin_complete d1) as [complete|] eqn:Ec; [|done].
    destruct complete; simpl in Hp.
    + injection Hp as <- <-. split.
      * intros Hcb. destruct Hty as [Ht|[Ht|[Ht|Ht]]]; congruence.
      * intros _. exists true. split; [done|]. split; [done|]. done.
    + destruct (read_uint64 s5) as [[v s6]|] eqn:E6; [|done].
      injection Hp as <- <-. split.
      * simpl. intros Hcb. destruct Hty as [Ht|[Ht|[Ht|Ht]]]; congruence.
      * intros _. exists false. rewrite is_txin_complete_set_value.
        split; [done|]. split; [done|]. intros _. exists v.
        apply _read_num_cursor in E6 as (Hv & _ & Hc).
        repeat split; done.
Qed.

(** ** Signing *)

Lemma alter_lookup_insert {A : Type} (f : A → A) (i : nat) (l : list A) (x : A) :
  l !! i = Some x → alter f i l = <[i:=f x]> l.
Proof.
  intros Hi. apply list_eq. intros k.
  destruct (decide (i = k)) as [<-|Hne].
  - rewrite list_lookup_alter_eq, Hi. simpl.
    by rewrite list_lookup_insert_eq by by eapply lookup_lt_Some.
  - by rewrite list_lookup_alter_ne, list_lookup_insert_ne.
Qed.

Lemma keys_kept_refl (txin : TxInput) : keys_kept txin txin.
Proof.
  unfold keys_kept. destruct (x_pubkeys txin) as [keys|]; constructor.
  apply Forall_Forall2_diag, Forall_forall. intros key _. by left.
Qed.

Lemma keys_kept_set_signatures (t0 t : TxInput) sigs :
  keys_kept t0 t → keys_kept t0 (set_signatures sigs t).
Proof. done. Qed.

Lemma keys_kept_set_scriptSig (t0 t : TxInput) s :
  keys_kept t0 t → keys_kept t0 (set_scriptSig s t).
Proof. done. Qed.

Lemma keys_kept_setitem (t0 t : TxInput) (j : nat) (x key : XPublicKey) :
  keys_kept t0 t →
  (∀ keys, x_pubkeys t = Some keys → keys !! j = Some key) →
  kind key = Ok 253 →
  keys_kept t0 (setitem_x_pubkeys j x t).
Proof.
  unfold keys_kept, setitem_x_pubkeys. intros Hk Hj Hkind.
  destruct (x_pubkeys t) as [keys|] eqn:Hkeys; [|by rewrite Hkeys].
  simpl. inversion Hk as [keys0 ? Hall|]; subst. constructor.
  specialize (Hj keys eq_refl).
  rewrite list_insert_alter. apply Forall2_alter_r; [done|].
  intros k0 k Hk0 Hk' [->|Hp]; right; [|done]. congruence.
Qed.

Lemma sign_x_pubkeys_keys_kept keypairs i num (rest : list XPublicKey) :
  ∀ (j : nat) (tx : Transaction) r tx' (ins0 : list TxInput),
    Forall2 keys_kept ins0 (_inputs tx) →
    (∀ txin keys, _inputs tx !! i = Some txin → x_pubkeys txin = Some keys →
                  drop j keys = rest) →
    sign_x_pubkeys keypairs i num j rest tx = (r, tx') →
    Forall2 keys_kept ins0 (_inputs tx').
Proof.
  induction rest as [|x_pubkey rest IH]; intros j tx r tx' ins0 H0 Hdrop Hs.
  - by injection Hs as <- <-.
  - cbn [sign_x_pubkeys] in Hs.
    unfold method_bind, method_self, method_lift, method_ret in Hs.
    unfold list_index in Hs.
    destruct (_inputs tx !! i) as [txin|] eqn:Hi; [|by injection Hs as <- <-].
    destruct (signatures txin) as [x_signatures|] eqn:Hsig;
      cbn [getitem] in Hs; [|by injection Hs as <- <-].
    case_bool_decide; [by injection Hs as <- <-|].
    assert (Hrest : ∀ keys, x_pubkeys txin = Some keys →
               keys !! j = Some x_pubkey ∧ drop (S j) keys = rest).
    { intros keys Hkeys. specialize (Hdrop _ _ eq_refl Hkeys). split.
      - rewrite <- (Nat.add_0_r j), <- lookup_drop, Hdrop. done.
      - replace (S j) with (j + 1)%nat by lia.
        rewrite <- drop_drop, Hdrop. done. }
    destruct (keypairs !! x_pubkey) as [[sec compressed]|] eqn:Hkp.
    + destruct (sign_txin tx i sec) as [sig|]; [|by injection Hs as <- <-].
      destruct (list_setitem x_signatures j (Some sig)) as [sigs'|];
        [|by injection Hs as <- <-].
      unfold update_txin in Hs. cbn [fst snd] in Hs.
      set (tx1 := set_inputs (alter (set_signatures sigs') i (_inputs tx)) tx) in *.
      assert (Hk1 : Forall2 keys_kept ins0 (_inputs tx1)).
      { simpl. apply Forall2_alter_r; [done|]. intros ? ? _ _ ?.
        by apply keys_kept_set_signatures. }
      assert (Hi1 : _inputs tx1 !! i = Some (set_signatures sigs' txin)).
      { simpl. by rewrite list_lookup_alter_eq, Hi. }
      destruct (kind x_pubkey) as [k|] eqn:Hkind; [|by injection Hs as <- <-].
      case_bool_decide as Hk.
      * destruct (PrivateKey_public_key_bytes sec compressed) as [pb|];
          [|by injection Hs as <- <-].
        destruct (XPublicKey_init pb) as [x|]; [|by injection Hs as <- <-].
        cbn [fst snd] in Hs. eapply IH; [| |exact Hs].
        -- simpl. apply Forall2_alter_r; [done|]. intros t0 t _ Ht Hkept.
           apply (keys_kept_setitem _ _ _ _ x_pubkey); [done| |by rewrite Hkind, Hk].
           intros keys Hkeys. change (_inputs tx1 !! i = Some t) in Ht.
           rewrite Hi1 in Ht. injection Ht as <-. by apply Hrest.
        -- intros t keys. cbn [_inputs set_inputs].
           rewrite list_lookup_alter_eq, Hi1. simpl.
           intros [= <-]. unfold setitem_x_pubkeys. simpl.
           destruct (x_pubkeys txin) as [keys0|] eqn:Hkeys0; simpl.
           ++ intros [= <-]. rewrite drop_insert_lt by lia. by apply Hrest.
           ++ rewrite Hkeys0. done.
      * eapply IH; [exact Hk1| |exact Hs].
        intros t keys. rewrite Hi1. intros [= <-]. simpl. intros Hkeys.
        by apply Hrest.
    + eapply IH; [exact H0| |exact Hs].
      intros t keys. rewrite Hi. intros [= <-] Hkeys. by apply Hrest.
Qed.

Lemma sign_inputs_keys_kept keypairs (remaining : nat) :
  ∀ (i : nat) (tx : Transaction) r tx' (ins0 : list TxInput),
    Forall2 keys_kept ins0 (_inputs tx) →
    sign_inputs keypairs i remaining tx = (r, tx') →
    Forall2 keys_kept ins0 (_inputs tx').
Proof.
  induction remaining as [|remaining IH]; intros i tx r tx' ins0 H0 Hs.
  - by injection Hs as <- <-.
  - cbn [sign_inputs] in Hs.
    unfold method_bind, method_self, method_lift, list_index in Hs.
    destruct (_inputs tx !! i) as [txin|] eqn:Hi; [|by injection Hs as <- <-].
    destruct (num_sig txin) as [num|]; cbn [getitem] in Hs;
      [|by injection Hs as <- <-].
    destruct (x_pubkeys txin) as [keys|] eqn:Hkeys; cbn [getitem] in Hs;
      [|by injection Hs as <- <-].
    destruct (sign_x_pubkeys keypairs i num 0 keys tx) as [r1 tx1] eqn:Hinner.
    assert (H1 : Forall2 keys_kept ins0 (_inputs tx1)).
    { eapply sign_x_pubkeys_keys_kept; [exact H0| |exact Hinner].
      intros t keys' Ht. rewrite Hi in Ht. injection Ht as <-.
      rewrite Hkeys. by intros [= <-]. }
    destruct r1 as [[]|e]; [|by injection Hs as <- <-].
    by eapply IH.
Qed.

(** C4 (as the code has it): a visit of slot [j] of input [i] that inserts
    a signature replaces the key of the slot, in the same step, by the raw
    public key of the signing private key when the key is a script-hash
    placeholder (kind [0xfd]), and leaves the key list as it is for a key of
    any other kind, legacy-keystore references (kind [0xfe]) included; over
    a whole call of [sign], whatever its outcome, a key that is not a
    placeholder is still in its place. *)
Theorem sign_resolves_placeholders_only (keypairs : gmap XPublicKey (bytes * bool))
  (tx : Transaction) :
  (∀ i j num x_pubkey rest txin x_signatures sec compressed sig k,
     _inputs tx !! i = Some txin →
     signatures txin = Some x_signatures →
     Z.of_nat (length (present_signatures x_signatures)) ≠ num →
     keypairs !! x_pubkey = Some (sec, compressed) →
     sign_txin tx i sec = Ok sig →
     (j < length x_signatures)%nat →
     kind x_pubkey = Ok k →
     let signed := set_signatures (<[j:=Some sig]> x_signatures) txin in
     (k = 253 →
      ∀ pubkey_bytes x,
        PrivateKey_public_key_bytes sec compressed = Ok pubkey_bytes →
        XPublicKey_init pubkey_bytes = Ok x →
        sign_x_pubkeys keypairs i num j (x_pubkey :: rest) tx
        = sign_x_pubkeys keypairs i num (S j) rest
            (set_inputs (<[i:=setitem_x_pubkeys j x signed]> (_inputs tx)) tx))
     ∧ (k ≠ 253 →
        sign_x_pubkeys keypairs i num j (x_pubkey :: rest) tx
        = sign_x_pubkeys keypairs i num (S j) rest
            (set_inputs (<[i:=signed]> (_inputs tx)) tx)))
  ∧ (∀ r tx', sign keypairs tx = (r, tx') →
       Forall2 keys_kept (_inputs tx) (_inputs tx')).
Proof.
  split.
  - intros i j num x_pubkey rest txin x_signatures sec compressed sig k
      Hi Hsig Hnum Hkp Hsign Hj Hkind signed.
    assert (Hstep : ∀ (cont : Method unit),
      sign_x_pubkeys keypairs i num j (x_pubkey :: rest) tx
      = (let* _ := (if bool_decide (k = 253) then
                      let* pubkey_bytes :=
                        method_lift (PrivateKey_public_key_bytes sec compressed) in
                      let* x := method_lift (XPublicKey_init pubkey_bytes) in
                      update_txin i (setitem_x_pubkeys j x)
                    else method_ret ()) in
         sign_x_pubkeys keypairs i num (S j) rest)%method
          (set_inputs (<[i:=signed]> (_inputs tx)) tx)).
    { intros _. cbn [sign_x_pubkeys].
      unfold method_bind, method_self, method_lift, list_index.
      rewrite Hi, Hsig. cbn [getitem].
      rewrite bool_decide_eq_false_2 by done.
      rewrite Hkp, Hsign. unfold list_setitem. rewrite decide_True by done.
      unfold update_txin at 1. rewrite Hkind.
      by rewrite (alter_lookup_insert _ _ _ _ Hi). }
    specialize (Hstep (method_ret ())). split.
    + intros -> pubkey_bytes x Hpb Hx. rewrite Hstep.
      rewrite bool_decide_eq_true_2 by done.
      unfold method_bind, method_lift. rewrite Hpb, Hx.
      unfold update_txin. cbn [_inputs set_inputs].
      rewrite (alter_lookup_insert _ _ _ signed).
      * by rewrite list_insert_insert_eq.
      * apply list_lookup_insert_eq. by eapply lookup_lt_Some.
    + intros Hk. rewrite Hstep. rewrite bool_decide_eq_false_2 by done.
      done.
  - intros r tx' Hs. unfold sign in Hs.
    unfold method_bind, method_self, method_lift, method_set in Hs.
    destruct (sign_inputs keypairs 0 (length (_inputs tx)) tx) as [r1 tx1] eqn:Hin.
    assert (H1 : Forall2 keys_kept (_inputs tx) (_inputs tx1)).
    { eapply sign_inputs_keys_kept; [|exact Hin].
      apply Forall_Forall2_diag, Forall_forall. intros t _. apply keys_kept_refl. }
    destruct r1 as [[]|e]; [|by injection Hs as <- <-].
    destruct (is_complete tx1); [|by injection Hs as <- <-].
    destruct (serialize tx1 false); by injection Hs as <- <-.
Qed.

(** ** Exceptions of serialization and of the methods *)

Lemma method_raises_ret {A : Type} (P : exn → Prop) (a : A) :
  method_raises P (method_ret a).
Proof. intros self e self' [=]. Qed.

Lemma method_raises_lift {A : Type} (P : exn → Prop) (r : result A) :
  raises P r → method_raises P (method_lift r).
Proof. intros Hr self e self' [= -> _]. by apply Hr. Qed.

Lemma method_raises_bind {A B : Type} (P : exn → Prop) (m : Method A) (f : A → Method B) :
  method_raises P m → (∀ a, method_raises P (f a)) → method_raises P (method_bind m f).
Proof.
  intros Hm Hf self e self'. unfold method_bind.
  destruct (m self) as [[a|e1] self1] eqn:Hms.
  - apply Hf.
  - intros [= <- _]. by eapply Hm.
Qed.

Lemma method_raises_self (P : exn → Prop) : method_raises P method_self.
Proof. intros self e self' [=]. Qed.

Lemma method_raises_set (P : exn → Prop) (tx : Transaction) :
  method_raises P (method_set tx).
Proof. intros self e self' [=]. Qed.

Lemma method_raises_update_txin (P : exn → Prop) (i : nat) (f : TxInput → TxInput) :
  method_raises P (update_txin i f).
Proof. intros self e self' [=]. Qed.

Ltac method_raises_step :=
  lazymatch goal with
  | |- method_raises _ (method_ret _) => apply method_raises_ret
  | |- method_raises _ method_self => apply method_raises_self
  | |- method_raises _ (method_set _) => apply method_raises_set
  | |- method_raises _ (update_txin _ _) => apply method_raises_update_txin
  | |- method_raises _ (method_lift _) => apply method_raises_lift
  | |- method_raises _ (method_bind _ _) => apply method_raises_bind; [|intros ?]
  | |- method_raises _ (if ?c then _ else _) => destruct c
  | |- method_raises _ (match ?x with _ => _ end) => destruct x
  end.

Section MoreRaises.
Context (P : exn → Prop).
Hypothesis Hb : ∀ e, builtin e → P e.
Hypothesis Hext : Externals_raise P.
Hypothesis Hrt : P (RuntimeError "Unknown txin type").
Hypothesis Hivm : P InputValueMissing.

Lemma raises_serialize_preimage tx i : raises P (serialize_preimage tx i).
Proof.
  rewrite serialize_preimage_head.
  apply raises_rbind; [by apply raises_preimage_head|].
  intros [[txin head] tail] _. repeat raises_step Hb. done.
Qed.

Lemma raises_preimage_hash tx i : raises P (preimage_hash tx i).
Proof. apply raises_rmap, raises_serialize_preimage. Qed.

Lemma raises_is_txin_complete txin : raises P (is_txin_complete txin).
Proof. unfold is_txin_complete. repeat raises_step Hb. Qed.

Lemma raises_push_script x : raises P (push_script x).
Proof. unfold push_script, op_push. repeat raises_step Hb. Qed.

Lemma raises_is_compressed x : raises P (is_compressed x).
Proof. unfold is_compressed. apply raises_rbind; [by apply raises_kind|]. intros. apply raises_Ok. Qed.

Lemma raises_get_siglist txin est : raises P (get_siglist txin est).
Proof.
  unfold get_siglist.
  repeat first [apply raises_is_compressed | apply raises_XPublicKey_init; assumption
               | apply raises_to_public_key; assumption
               | apply raises_key_object_to_bytes; assumption
               | raises_step Hb].
Qed.

Lemma raises_input_script txin est : raises P (input_script txin est).
Proof.
  unfold input_script.
  apply raises_rbind; [apply raises_getitem, Hb|]. intros t _.
  destruct (decide (t = coinbase)); [apply raises_getitem, Hb|].
  apply raises_rbind; [apply raises_get_siglist|]. intros [keys sigs] _.
  apply raises_rbind; [apply raises_rmapM, raises_push_script|]. intros pushes _.
  destruct t;
    repeat first [apply raises_push_script | apply raises_multisig_script; assumption
                 | raises_step Hb].
Qed.

Lemma raises_serialize_input txin script est : raises P (serialize_input txin script est).
Proof.
  unfold serialize_input.
  repeat first [apply raises_serialize_outpoint; assumption
               | apply raises_is_txin_complete | raises_step Hb].
Qed.

Lemma raises_serialize tx est : raises P (serialize tx est).
Proof.
  unfold serialize.
  repeat first [apply raises_input_script | apply raises_serialize_input
               | apply raises_join_outputs; assumption | raises_step Hb].
Qed.

Lemma raises_list_setitem {A : Type} (l : list A) i x : raises P (list_setitem l i x).
Proof. unfold list_setitem. repeat raises_step Hb. Qed.

Lemma method_raises_add_signature_to_txin i j sig :
  method_raises P (add_signature_to_txin i j sig).
Proof.
  unfold add_signature_to_txin.
  repeat first [apply raises_list_setitem | apply raises_list_index, Hb
               | apply raises_getitem, Hb | method_raises_step].
Qed.

Lemma method_raises_try_recids i sig pubkeys pre_hash base recids :
  method_raises P (try_recids i sig pubkeys pre_hash base recids).
Proof.
  destruct Hext as (_ & _ & _ & _ & _ & _ & _ & _ & Hrec & _).
  induction recids as [|recid recids IH]; cbn [try_recids];
    [apply method_raises_ret|].
  destruct (from_recoverable_signature _ pre_hash) as [pk|e] eqn:Hr.
  - destruct (pubkeys_index pk pubkeys); [|done].
    destruct (verify_recoverable_signature pk _ pre_hash); [|done].
    apply method_raises_add_signature_to_txin.
  - apply Hrec in Hr.
    destruct e; try done; by apply method_raises_lift, raises_Raise.
Qed.

Lemma method_raises_update_signatures_txin i signature :
  method_raises P (update_signatures_txin i signature).
Proof.
  pose proof Hext as (_ & _ & _ & _ & _ & _ & _ & Hder & _).
  unfold update_signatures_txin.
  apply method_raises_bind; [apply method_raises_self|]. intros self.
  apply method_raises_bind; [apply method_raises_lift, raises_list_index, Hb|].
  intros txin.
  destruct (signatures txin) as [sigs|];
    [|apply method_raises_lift, raises_Raise, Hb; exact I].
  case_bool_decide; [apply method_raises_ret|].
  repeat first [apply method_raises_try_recids | apply raises_preimage_hash
               | apply raises_getitem, Hb
               | apply raises_rmapM; intros ?; apply raises_to_public_key; assumption
               | method_raises_step].
  intros e. apply Hder.
Qed.

Lemma method_raises_update_signatures_inputs i signatures :
  method_raises P (update_signatures_inputs i signatures).
Proof.
  revert i. induction signatures as [|s signatures IH]; intros i;
    cbn [update_signatures_inputs]; [apply method_raises_ret|].
  apply method_raises_bind; [apply method_raises_update_signatures_txin|].
  intros _. apply IH.
Qed.

End MoreRaises.

(** ** [update_signatures] *)

Lemma builtin_not_length_mismatch (e : exn) : builtin e → ¬ is_length_mismatch e.
Proof. intros He (n & m & ->). exact He. Qed.

Lemma try_recids_no_match i sig pubkeys pre_hash rec_sig_base (recids : list Z)
  (tx : Transaction) :
  (∀ recid, recid ∈ recids →
     match from_recoverable_signature (rec_sig_base ++ [Z_to_byte recid]) pre_hash with
     | Ok public_key =>
         pubkeys_index public_key pubkeys = None
         ∨ ∃ e, verify_recoverable_signature public_key
                  (rec_sig_base ++ [Z_to_byte recid]) pre_hash = Raise e
     | Raise e => e = InvalidSignatureError ∨ e = ValueError
     end) →
  try_recids i sig pubkeys pre_hash rec_sig_base recids tx = (Ok (), tx).
Proof.
  induction recids as [|recid recids IH]; intros Hno; [done|].
  cbn [try_recids].
  pose proof (Hno recid (list_elem_of_here _ _)) as Hr.
  assert (IH' := IH (λ r Hin, Hno r (list_elem_of_further _ _ _ Hin))).
  destruct (from_recoverable_signature _ pre_hash) as [pk|e].
  - destruct Hr as [Hr|[e Hr]].
    + by rewrite Hr.
    + destruct (pubkeys_index pk pubkeys); [|done]. by rewrite Hr.
  - by destruct Hr as [->| ->].
Qed.

(** C5 (as the code has it): [update_signatures] changes nothing on a
    complete transaction; on one that is not complete it raises the
    length-mismatch error exactly when the number of signatures differs
    from the number of inputs; an input whose keys resolve, whose preimage
    is built and whose signature converts, and for which no recovery id
    gives a declared key that verifies, is left as it was, without an
    exception; and when the keys do not resolve, the preimage is not built
    or the signature does not convert, that exception is raised with the
    transaction as it was. *)
Theorem update_signatures_contract (signatures : list bytes) (tx : Transaction) :
  Externals_raise (λ e, ¬ is_length_mismatch e) →
  (is_complete tx = Ok true → update_signatures signatures tx = (Ok (), tx))
  ∧ (is_complete tx = Ok false →
     (length (_inputs tx) ≠ length signatures →
      update_signatures signatures tx
      = (Raise (length_mismatch (length (_inputs tx)) (length signatures)), tx))
     ∧ ((∃ e, (update_signatures signatures tx).1 = Raise e ∧ is_length_mismatch e)
        ↔ length (_inputs tx) ≠ length signatures))
  ∧ (∀ i signature txin x_signatures keys pubkeys pre_hash rec_sig_base,
       _inputs tx !! i = Some txin →
       Tx.signatures txin = Some x_signatures →
       x_pubkeys txin = Some keys →
       rmapM to_public_key keys = Ok pubkeys →
       preimage_hash tx i = Ok pre_hash →
       der_signature_to_compact signature = Ok rec_sig_base →
       no_recid_matches pubkeys pre_hash rec_sig_base →
       update_signatures_txin i signature tx = (Ok (), tx))
  ∧ (∀ i signature txin x_signatures keys,
       _inputs tx !! i = Some txin →
       Tx.signatures txin = Some x_signatures →
       Some (signature ++ [Z_to_byte nHashType]) ∉ x_signatures →
       x_pubkeys txin = Some keys →
       (∀ e, rmapM to_public_key keys = Raise e →
          update_signatures_txin i signature tx = (Raise e, tx))
       ∧ (∀ pubkeys e, rmapM to_public_key keys = Ok pubkeys →
            preimage_hash tx i = Raise e →
            update_signatures_txin i signature tx = (Raise e, tx))
       ∧ (∀ pubkeys pre_hash e, rmapM to_public_key keys = Ok pubkeys →
            preimage_hash tx i = Ok pre_hash →
            der_signature_to_compact signature = Raise e →
            update_signatures_txin i signature tx = (Raise e, tx))).
Proof.
  intros Hext.
  assert (Hrt : ¬ is_length_mismatch (RuntimeError "Unknown txin type"))
    by (by intros (n & m & [=])).
  assert (Hivm : ¬ is_length_mismatch InputValueMissing)
    by (by intros (n & m & [=])).
  assert (Hmis : length (_inputs tx) ≠ length signatures →
    is_complete tx = Ok false →
    update_signatures signatures tx
    = (Raise (length_mismatch (length (_inputs tx)) (length signatures)), tx)).
  { intros Hlen Hc. unfold update_signatures, method_bind, method_self, method_lift.
    rewrite Hc. by rewrite decide_True. }
  split; [|split; [|split]].
  - intros Hc. unfold update_signatures, method_bind, method_self, method_lift.
    by rewrite Hc.
  - intros Hc. split; [by auto|]. split.
    + intros (e & He & Hm).
      destruct (decide (length (_inputs tx) = length signatures)) as [Hlen|]; [|done].
      exfalso. revert He.
      unfold update_signatures, method_bind, method_self, method_lift, method_set.
      rewrite Hc. rewrite decide_False by (intros Hne; by apply Hne).
      destruct (update_signatures_inputs 0 signatures tx) as [[[]|e1] tx1] eqn:Hloop;
        simpl.
      * destruct (serialize tx1 false) as [raw|e2] eqn:Hser; simpl; [done|].
        intros [= ->]. revert Hm.
        exact (raises_serialize _ builtin_not_length_mismatch Hext
                 tx1 false e Hser).
      * intros [= ->]. revert Hm.
        exact (method_raises_update_signatures_inputs _ builtin_not_length_mismatch
                 Hext Hrt Hivm 0%nat signatures tx e tx1 Hloop).
    + intros Hlen. rewrite Hmis by done. eexists. split; [done|]. by eexists _, _.
  - intros i signature txin x_signatures keys pubkeys pre_hash rec_sig_base
      Hi Hsig Hkeys Hpub Hpre Hder Hno.
    unfold update_signatures_txin, method_bind, method_self, method_lift, list_index.
    rewrite Hi, Hsig. case_bool_decide; [done|].
    rewrite Hkeys. cbn [getitem]. rewrite Hpub, Hpre, Hder.
    by apply try_recids_no_match.
  - intros i signature txin x_signatures keys Hi Hsig Hnew Hkeys.
    assert (Hbody : update_signatures_txin i signature tx
      = match rmapM to_public_key keys with
        | Raise e => (Raise e, tx)
        | Ok pubkeys =>
            match preimage_hash tx i with
            | Raise e => (Raise e, tx)
            | Ok pre_hash =>
                match der_signature_to_compact signature with
                | Raise e => (Raise e, tx)
                | Ok rec_sig_base =>
                    try_recids i (signature ++ [Z_to_byte nHashType]) pubkeys
                      pre_hash rec_sig_base [0; 1; 2; 3] tx
                end
            end
        end).
    { unfold update_signatures_txin, method_bind, method_self, method_lift,
        list_index.
      rewrite Hi, Hsig. rewrite bool_decide_eq_false_2 by done.
      rewrite Hkeys. cbn [getitem].
      destruct (rmapM to_public_key keys); [|done].
      destruct (preimage_hash tx i); [|done].
      by destruct (der_signature_to_compact signature). }
    rewrite Hbody. split; [|split].
    + by intros e ->.
    + by intros pubkeys e -> ->.
    + by intros pubkeys pre_hash e -> -> ->.
Qed.

(** ** Round trip of the wire format *)

Lemma byte_to_Z_range (b : byte) : 0 ≤ byte_to_Z b < 256.
Proof. unfold byte_to_Z. pose proof (Byte.to_N_bounded b). lia. Qed.

Lemma byte_to_Z_to_byte (z : Z) : byte_to_Z (Z_to_byte z) = z `mod` 256.
Proof.
  unfold byte_to_Z, Z_to_byte.
  pose proof (Z.mod_pos_bound z 256 eq_refl) as Hz.
  destruct (Byte.of_N (Z.to_N (z `mod` 256))) as [b|] eqn:Hb; simpl.
  - apply Byte.to_of_N in Hb. rewrite Hb. lia.
  - apply Byte.of_N_None_iff in Hb. lia.
Qed.

Lemma Z_to_byte_to_Z (b : byte) : Z_to_byte (byte_to_Z b) = b.
Proof.
  unfold Z_to_byte. pose proof (byte_to_Z_range b).
  rewrite Z.mod_small by done. unfold byte_to_Z.
  rewrite N2Z.id, Byte.of_to_N. done.
Qed.

Lemma length_le_bytes (n : nat) (z : Z) : length (le_bytes n z) = n.
Proof. revert z. induction n as [|n IH]; intros z; simpl; [done|]. by rewrite IH. Qed.

Lemma le_value_le_bytes (n : nat) (z : Z) :
  0 ≤ z < 256 ^ Z.of_nat n → le_value (le_bytes n z) = z.
Proof.
  revert z. induction n as [|n IH]; intros z Hz.
  - simpl in *. lia.
  - cbn [le_bytes le_value]. rewrite byte_to_Z_to_byte.
    rewrite Nat2Z.inj_succ, Z.pow_succ_r in Hz by lia.
    rewrite IH.
    + pose proof (Z.div_mod z 256). lia.
    + split; [apply Z.div_pos; lia|]. apply Z.div_lt_upper_bound; lia.
Qed.

Lemma le_value_range (bs : bytes) : 0 ≤ le_value bs < 256 ^ Z.of_nat (length bs).
Proof.
  induction bs as [|b bs IH]; [simpl; lia|].
  cbn [le_value length]. rewrite Nat2Z.inj_succ, Z.pow_succ_r by lia.
  pose proof (byte_to_Z_range b). lia.
Qed.

Lemma int_to_hex_Ok (z : Z) (n : nat) :
  0 ≤ z < 256 ^ Z.of_nat n → int_to_hex z n = Ok (le_bytes n z).
Proof. intros Hz. unfold int_to_hex. by rewrite bool_decide_eq_true_2. Qed.

Lemma stream_at_length (vds : BCDataStream) (rest : bytes) :
  stream_at vds rest → rest ≠ [] →
  (read_cursor vds + length rest = length (input vds))%nat.
Proof.
  unfold stream_at. intros <- Hne. rewrite length_drop.
  destruct (decide (read_cursor vds < length (input vds))%nat); [lia|].
  rewrite drop_ge in Hne by lia. done.
Qed.

Lemma read_bytes_at (vds : BCDataStream) (bs tail : bytes) :
  stream_at vds (bs ++ tail) →
  ∃ vds', read_bytes (Z.of_nat (length bs)) vds = Ok (bs, vds') ∧ stream_at vds' tail.
Proof.
  unfold stream_at, read_bytes. intros Hat. eexists. split.
  - rewrite Nat2Z.id, Hat. by rewrite take_app_length.
  - simpl. rewrite <- drop_drop, Hat. by rewrite drop_app_length.
Qed.

Lemma _read_num_at (format : struct_format) (vds : BCDataStream) (z : Z) (tail : bytes) :
  0 ≤ z < 256 ^ Z.of_nat (calcsize format) →
  stream_at vds (le_bytes (calcsize format) z ++ tail) →
  ∃ vds', _read_num format vds = Ok (unpack format (le_bytes (calcsize format) z), vds')
          ∧ stream_at vds' tail.
Proof.
  intros Hz Hat. unfold _read_num.
  pose proof (stream_at_length _ _ Hat) as Hlen.
  rewrite length_app, length_le_bytes in Hlen.
  rewrite decide_True.
  2:{ assert (le_bytes (calcsize format) z ++ tail ≠ []) as Hne.
      { destruct format; done. }
      specialize (Hlen Hne). lia. }
  eexists. split.
  - unfold stream_at in Hat. rewrite Hat.
    rewrite <- (length_le_bytes (calcsize format) z) at 1.
    by rewrite take_app_length.
  - unfold stream_at in *. simpl. rewrite <- drop_drop, Hat.
    rewrite <- (length_le_bytes (calcsize format) z) at 1.
    by rewrite drop_app_length.
Qed.

Lemma stream_at_cons (vds : BCDataStream) (b : byte) (tail : bytes) :
  stream_at vds (b :: tail) →
  input vds !! read_cursor vds = Some b
  ∧ stream_at (mkBCDataStream (input vds) (read_cursor vds + 1)) tail.
Proof.
  unfold stream_at. intros Hat. split.
  - rewrite <- (Nat.add_0_r (read_cursor vds)), <- lookup_drop, Hat. done.
  - simpl. rewrite <- drop_drop, Hat. done.
Qed.

Lemma read_compact_size_at (vds : BCDataStream) (z : Z) (enc tail : bytes) :
  0 ≤ z < 2 ^ 64 →
  var_int z = Ok enc →
  stream_at vds (enc ++ tail) →
  ∃ vds', read_compact_size vds = Ok (z, vds') ∧ stream_at vds' tail.
Proof.
  intros Hz Henc Hat. unfold var_int in Henc. unfold read_compact_size.
  repeat case_bool_decide.
  - rewrite int_to_hex_Ok in Henc by (simpl; lia). injection Henc as <-.
    simpl in Hat. apply stream_at_cons in Hat as [-> Hat].
    rewrite byte_to_Z_to_byte, Z.mod_small by lia.
    rewrite !bool_decide_eq_false_2 by lia. eauto.
  - rewrite int_to_hex_Ok in Henc by (simpl; lia). injection Henc as <-.
    apply stream_at_cons in Hat as [-> Hat].
    change (byte_to_Z xfd) with 253. rewrite bool_decide_eq_true_2 by done.
    destruct (_read_num_at fmt_H (mkBCDataStream (input vds) (read_cursor vds + 1))
                z tail) as (vds' & Hr & Hat'); [simpl; lia|exact Hat|].
    rewrite Hr. cbn [unpack calcsize].
    rewrite le_value_le_bytes by (simpl; lia). eauto.
  - rewrite int_to_hex_Ok in Henc by (simpl; lia). injection Henc as <-.
    apply stream_at_cons in Hat as [-> Hat].
    change (byte_to_Z xfe) with 254.
    rewrite bool_decide_eq_false_2 by done. rewrite bool_decide_eq_true_2 by done.
    destruct (_read_num_at fmt_I (mkBCDataStream (input vds) (read_cursor vds + 1))
                z tail) as (vds' & Hr & Hat'); [simpl; lia|exact Hat|].
    rewrite Hr. cbn [unpack calcsize].
    rewrite le_value_le_bytes by (simpl; lia). eauto.
  - rewrite int_to_hex_Ok in Henc by (simpl; lia). injection Henc as <-.
    apply stream_at_cons in Hat as [-> Hat].
    change (byte_to_Z xff) with 255.
    rewrite !bool_decide_eq_false_2 by done. rewrite bool_decide_eq_true_2 by done.
    destruct (_read_num_at fmt_Q (mkBCDataStream (input vds) (read_cursor vds + 1))
                z tail) as (vds' & Hr & Hat'); [simpl; lia|exact Hat|].
    rewrite Hr. cbn [unpack calcsize].
    rewrite le_value_le_bytes by (simpl; lia). eauto.
Qed.

Lemma var_int_Ok (z : Z) : 0 ≤ z < 2 ^ 64 → is_Ok (var_int z).
Proof.
  intros Hz. unfold var_int.
  repeat case_bool_decide; rewrite int_to_hex_Ok by (simpl; lia); by eexists.
Qed.

Lemma int_to_hex_bytes (z : Z) (n : nat) :
  0 ≤ z < 256 ^ Z.of_nat n →
  ∃ bs, int_to_hex z n = Ok bs ∧ length bs = n ∧ le_value bs = z.
Proof.
  intros Hz. exists (le_bytes n z). rewrite int_to_hex_Ok by done.
  by rewrite length_le_bytes, le_value_le_bytes.
Qed.

(** Decoding one data push. *)
Ltac same_position :=
  match goal with
  | |- (_, _, ?a) :: _ = (_, _, ?b) :: _ =>
      replace b with a
        by (rewrite ?length_app, ?length_le_bytes; cbn [length];
            rewrite ?length_app; lia)
  end; reflexivity.

Lemma _script_GetOp_from_push (x p rest : bytes) (fuel i : nat) :
  x ≠ [] → Z.of_nat (length x) < 2 ^ 32 →
  push_script x = Ok p →
  ∃ opcode,
    0 < opcode ≤ OP_PUSHDATA4
    ∧ _script_GetOp_from (S fuel) (p ++ rest) i
      = (opcode, Some x, (i + length p)%nat)
        :: _script_GetOp_from fuel rest (i + length p)%nat.
Proof.
  intros Hne Hlen Hp. unfold push_script, op_push in Hp.
  assert (0 < Z.of_nat (length x)) by (destruct x; [done|simpl; lia]).
  unfold OP_PUSHDATA4.
  repeat case_bool_decide.
  - rewrite int_to_hex_Ok in Hp by (simpl; lia). injection Hp as <-.
    exists (Z.of_nat (length x)). split; [lia|].
    cbn [le_bytes app _script_GetOp_from].
    rewrite byte_to_Z_to_byte, Z.mod_small by lia.
    unfold OP_PUSHDATA4, OP_PUSHDATA1, OP_PUSHDATA2.
    rewrite bool_decide_eq_true_2 by lia.
    rewrite !bool_decide_eq_false_2 by lia.
    rewrite !drop_0, Nat2Z.id.
    rewrite take_app_length, drop_app_length. same_position.
  - rewrite int_to_hex_Ok in Hp by (simpl; lia). injection Hp as <-.
    exists 76. split; [lia|].
    cbn [le_bytes app _script_GetOp_from].
    change (byte_to_Z x4c) with 76.
    unfold OP_PUSHDATA4, OP_PUSHDATA1, OP_PUSHDATA2.
    rewrite !bool_decide_eq_true_2 by lia.
    rewrite byte_to_Z_to_byte, Z.mod_small by lia.
    change (drop 1 (?b :: ?l)) with l.
    rewrite Nat2Z.id, take_app_length, drop_app_length. same_position.
  - destruct (int_to_hex_bytes (Z.of_nat (length x)) 2) as (hdr & Hh & Hl & Hv);
      [simpl; lia|].
    rewrite Hh in Hp. injection Hp as <-.
    exists 77. split; [lia|].
    cbn [app _script_GetOp_from].
    change (byte_to_Z x4d) with 77.
    unfold OP_PUSHDATA4, OP_PUSHDATA1, OP_PUSHDATA2.
    rewrite bool_decide_eq_true_2 by lia.
    rewrite bool_decide_eq_false_2 by lia.
    rewrite bool_decide_eq_true_2 by lia.
    rewrite decide_True by (rewrite !length_app; lia).
    rewrite <- !app_assoc. rewrite <- Hl.
    rewrite take_app_length, drop_app_length, Hv.
    rewrite Nat2Z.id, take_app_length, drop_app_length.
    rewrite Hl. same_position.
  - destruct (int_to_hex_bytes (Z.of_nat (length x)) 4) as (hdr & Hh & Hl & Hv);
      [simpl; lia|].
    rewrite Hh in Hp. injection Hp as <-.
    exists 78. split; [lia|].
    cbn [app _script_GetOp_from].
    change (byte_to_Z x4e) with 78.
    unfold OP_PUSHDATA4, OP_PUSHDATA1, OP_PUSHDATA2.
    rewrite bool_decide_eq_true_2 by lia.
    rewrite !bool_decide_eq_false_2 by lia.
    rewrite bool_decide_eq_true_2 by lia.
    rewrite decide_True by (rewrite !length_app; lia).
    rewrite <- !app_assoc. rewrite <- Hl.
    rewrite take_app_length, drop_app_length, Hv.
    rewrite Nat2Z.id, take_app_length, drop_app_length.
    rewrite Hl. same_position.
Qed.

Lemma push_script_Ok (x : bytes) :
  Z.of_nat (length x) < 2 ^ 32 →
  ∃ p, push_script x = Ok p ∧ p ≠ [] ∧ (length p ≤ length x + 5)%nat.
Proof.
  intros Hx. unfold push_script, op_push.
  repeat case_bool_decide; rewrite int_to_hex_Ok by (simpl; lia);
    eexists; (split; [reflexivity|]); (split; [done|]);
    cbn [rmap app length]; rewrite ?length_app, ?length_le_bytes; simpl; lia.
Qed.

(** The five reads at the head of an input. *)
Lemma read_input_prefix_at (vds : BCDataStream) (h script vi tail : bytes) (n q : Z) :
  length h = 32%nat → 0 ≤ n < 2 ^ 32 → 0 ≤ q < 2 ^ 32 →
  Z.of_nat (length script) < 2 ^ 64 →
  var_int (Z.of_nat (length script)) = Ok vi →
  stream_at vds ((h ++ le_bytes 4 n ++ vi ++ script ++ le_bytes 4 q) ++ tail) →
  ∃ vds1, read_input_prefix vds = Ok ((h, n, script, q), vds1) ∧ stream_at vds1 tail.
Proof.
  intros Hh Hn Hq Hlen Hvi Hat. rewrite <- !app_assoc in Hat.
  unfold read_input_prefix, reader_bind, reader_ret.
  destruct (read_bytes_at _ _ _ Hat) as (s1 & Hr1 & Hat1).
  rewrite Hh in Hr1. change (Z.of_nat 32) with 32 in Hr1. rewrite Hr1.
  destruct (_read_num_at fmt_I s1 n _ Hn Hat1) as (s2 & Hr2 & Hat2).
  unfold read_uint32. rewrite Hr2.
  destruct (read_compact_size_at s2 _ _ _ (conj (Zle_0_nat _) Hlen) Hvi Hat2)
    as (s3 & Hr3 & Hat3).
  rewrite Hr3.
  destruct (read_bytes_at _ _ _ Hat3) as (s4 & Hr4 & Hat4). rewrite Hr4.
  destruct (_read_num_at fmt_I s4 q _ Hq Hat4) as (s5 & Hr5 & Hat5). rewrite Hr5.
  cbn [unpack calcsize]. rewrite !le_value_le_bytes by (simpl; lia). eauto.
Qed.



Lemma _script_GetOp_from_nil (fuel i : nat) : _script_GetOp_from fuel [] i = [].
Proof. by destruct fuel. Qed.


Lemma _script_GetOp_two_pushes (x y p q : bytes) :
  pushable x → pushable y → push_script x = Ok p → push_script y = Ok q →
  ∃ op1 pos1 op2 pos2,
    0 < op1 ≤ OP_PUSHDATA4 ∧ 0 < op2 ≤ OP_PUSHDATA4
    ∧ _script_GetOp (p ++ q) = [(op1, Some x, pos1); (op2, Some y, pos2)].
Proof.
  intros [Hxne Hxlen] [Hyne Hylen] Hp Hq.
  destruct (push_script_Ok x Hxlen) as (p' & Hp' & Hpne & _).
  assert (p' = p) as -> by congruence.
  destruct (push_script_Ok y Hylen) as (q' & Hq' & Hqne & _).
  assert (q' = q) as -> by congruence.
  unfold _script_GetOp. rewrite length_app.
  destruct (length p) as [|lp] eqn:Hlp; [by destruct p|].
  destruct (length q) as [|lq] eqn:Hlq; [by destruct q|].
  replace (S lp + S lq)%nat with (S (S (lp + lq))) by lia.
  destruct (_script_GetOp_from_push x p q (S (lp + lq)) 0 Hxne Hxlen Hp)
    as (op1 & Hop1 & Hget1).
  rewrite Hget1.
  destruct (_script_GetOp_from_push y q [] (lp + lq) (0 + length p) Hyne Hylen Hq)
    as (op2 & Hop2 & Hget2).
  rewrite app_nil_r in Hget2. rewrite Hget2, _script_GetOp_from_nil. eauto 10.
Qed.




Lemma to_public_key_nonempty (k : XPublicKey) pk :
  to_public_key k = Ok pk → raw k ≠ [].
Proof. unfold to_public_key, kind. by destruct (raw k). Qed.






Lemma read_exact_at (vds : BCDataStream) (bs tail : bytes) :
  stream_at vds (bs ++ tail) →
  ∃ vds', read_exact (length bs) vds = Ok (bs, vds') ∧ stream_at vds' tail.
Proof.
  intros Hat. destruct (read_bytes_at _ _ _ Hat) as (vds' & Hr & Hat').
  exists vds'. split; [|done]. unfold read_exact, reader_bind. rewrite Hr.
  by rewrite decide_True.
Qed.

Lemma read_varint_at (vds : BCDataStream) (z : Z) (enc tail : bytes) :
  0 ≤ z < 2 ^ 64 →
  var_int z = Ok enc →
  stream_at vds (enc ++ tail) →
  ∃ vds', read_varint vds = Ok (z, vds') ∧ stream_at vds' tail.
Proof.
  intros Hz Henc Hat. unfold var_int in Henc. unfold read_varint.
  repeat case_bool_decide.
  - rewrite int_to_hex_Ok in Henc by (simpl; lia). injection Henc as <-.
    destruct (read_exact_at vds (le_bytes 1 z) tail Hat) as (vds' & Hr & Hat').
    unfold reader_bind. rewrite length_le_bytes in Hr. rewrite Hr.
    rewrite le_value_le_bytes by (simpl; lia).
    rewrite bool_decide_eq_true_2 by lia. eauto.
  - destruct (int_to_hex_bytes z 2) as (hdr & Hh & Hl & Hv); [simpl; lia|].
    rewrite Hh in Henc. injection Henc as <-.
    destruct (read_exact_at vds [xfd] (hdr ++ tail) Hat) as (vds1 & Hr1 & Hat1).
    destruct (read_exact_at vds1 hdr tail Hat1) as (vds' & Hr & Hat').
    unfold reader_bind. cbn [length] in Hr1. rewrite Hr1. change (le_value [xfd]) with 253.
    rewrite bool_decide_eq_false_2 by lia. rewrite bool_decide_eq_true_2 by lia.
    rewrite Hl in Hr. rewrite Hr, Hv. eauto.
  - destruct (int_to_hex_bytes z 4) as (hdr & Hh & Hl & Hv); [simpl; lia|].
    rewrite Hh in Henc. injection Henc as <-.
    destruct (read_exact_at vds [xfe] (hdr ++ tail) Hat) as (vds1 & Hr1 & Hat1).
    destruct (read_exact_at vds1 hdr tail Hat1) as (vds' & Hr & Hat').
    unfold reader_bind. cbn [length] in Hr1. rewrite Hr1. change (le_value [xfe]) with 254.
    rewrite !bool_decide_eq_false_2 by lia. rewrite bool_decide_eq_true_2 by lia.
    rewrite Hl in Hr. rewrite Hr, Hv. eauto.
  - destruct (int_to_hex_bytes z 8) as (hdr & Hh & Hl & Hv); [simpl; lia|].
    rewrite Hh in Henc. injection Henc as <-.
    destruct (read_exact_at vds [xff] (hdr ++ tail) Hat) as (vds1 & Hr1 & Hat1).
    destruct (read_exact_at vds1 hdr tail Hat1) as (vds' & Hr & Hat').
    unfold reader_bind. cbn [length] in Hr1. rewrite Hr1. change (le_value [xff]) with 255.
    rewrite !bool_decide_eq_false_2 by lia.
    rewrite Hl in Hr. rewrite Hr, Hv. eauto.
Qed.

Lemma to_signed_mod (v : Z) :
  - 2 ^ 63 ≤ v < 2 ^ 63 → to_signed 64 (v `mod` 2 ^ 64) = v.
Proof.
  intros Hv. unfold to_signed.
  change (2 ^ (64 - 1)) with 9223372036854775808.
  change (2 ^ 64) with 18446744073709551616.
  change (2 ^ 63) with 9223372036854775808 in Hv.
  destruct (decide (0 ≤ v)).
  - rewrite Z.mod_small by lia. case_match; lia.
  - rewrite <- (Z.mod_add v 1) by lia. rewrite Z.mod_small by lia. case_match; lia.
Qed.

Lemma roundtrip_output_at (output : TxOutput) :
  roundtrip_output output →
  ∃ enc, TxOutput_to_bytes output = Ok enc
    ∧ ∀ vds tail, stream_at vds (enc ++ tail) →
        ∃ vds', TxOutput_read vds = Ok (output, vds') ∧ stream_at vds' tail.
Proof.
  intros [Hv Hl]. unfold TxOutput_to_bytes, pack_le_int64.
  rewrite bool_decide_eq_true_2 by done.
  destruct (var_int_Ok (Z.of_nat (length (script_pubkey output)))) as [vi Hvi]; [lia|].
  rewrite Hvi. eexists. split; [reflexivity|].
  intros vds tail Hat. rewrite <- !app_assoc in Hat.
  destruct (read_exact_at _ _ _ Hat) as (vds1 & Hr1 & Hat1).
  rewrite length_le_bytes in Hr1.
  destruct (read_varint_at vds1 _ vi _ (conj (Zle_0_nat _) Hl) Hvi Hat1)
    as (vds2 & Hr2 & Hat2).
  destruct (read_exact_at _ _ _ Hat2) as (vds' & Hr3 & Hat').
  exists vds'. split; [|done].
  unfold TxOutput_read, reader_bind, reader_ret. rewrite Hr1, Hr2.
  rewrite Nat2Z.id, Hr3.
  rewrite le_value_le_bytes.
  - rewrite to_signed_mod by done. by destruct output.
  - apply Z.mod_pos_bound. done.
Qed.

Lemma roundtrip_outputs_at (outputs : list TxOutput) :
  Forall roundtrip_output outputs →
  ∃ encs, rmapM TxOutput_to_bytes outputs = Ok encs
    ∧ ∀ vds tail, stream_at vds (concat encs ++ tail) →
        ∃ vds', read_times (length outputs) TxOutput_read vds = Ok (outputs, vds')
                ∧ stream_at vds' tail.
Proof.
  induction 1 as [|output outputs Hout _ (encs & Hencs & IH)].
  - exists []. split; [done|]. intros vds tail Hat. by exists vds.
  - destruct (roundtrip_output_at output Hout) as (enc & Henc & Hread).
    exists (enc :: encs). split.
    { cbn [rmapM]. rewrite Henc. cbn [rbind]. by rewrite Hencs. }
    intros vds tail Hat. cbn [concat] in Hat. rewrite <- app_assoc in Hat.
    destruct (Hread vds _ Hat) as (vds1 & Hr & Hat1).
    destruct (IH vds1 tail Hat1) as (vds' & Hrs & Hat').
    exists vds'. split; [|done].
    cbn [read_times length]. unfold reader_bind at 1. rewrite Hr.
    unfold reader_bind at 1. rewrite Hrs. done.
Qed.

End WithExternals.

(** ** The properties on the sample transactions *)

Import TxRun TxSamples.
#[local] Existing Instance run_externals.

Lemma run_externals_raise (P : exn → Prop) :
  P ValueError → P AttributeError → P TypeError → P InvalidSignatureError →
  Externals_raise P.
Proof.
  intros Hv Ha Ht Hi. unfold Externals_raise. simpl.
  repeat split; intros; repeat case_match; simplify_eq; done.
Qed.

(** C1, as stated, fails: the transaction counts as complete although its
    second input carries one signature for a threshold of two, the first
    input carrying three. *)
Lemma is_complete_not_per_input :
  is_complete oversigned_tx = Ok true
  ∧ ¬ Forall (λ txin, type txin ≠ Some coinbase → input_satisfied txin)
        (_inputs oversigned_tx).
Proof.
  split; [reflexivity|]. intros Hall.
  apply Forall_cons in Hall as [Hfirst _].
  specialize (Hfirst ltac:(done)). discriminate Hfirst.
Qed.

Lemma is_complete_compares_totals_witness :
  Forall (λ txin, is_Some (type txin)) (_inputs oversigned_tx)
  ∧ is_complete oversigned_tx
    = Ok (bool_decide (total_required (_inputs oversigned_tx)
                       = total_present (_inputs oversigned_tx))).
Proof.
  assert (Hty : Forall (λ txin, is_Some (type txin)) (_inputs oversigned_tx))
    by (repeat constructor; by eexists).
  split; [exact Hty|].
  exact (proj1 (is_complete_compares_totals oversigned_tx Hty)).
Defined.



(** C3, as stated, fails: the preimage of a pay-to-public-key-hash input
    takes its script from the address of the input, and that of an input of
    unknown kind from its script code; two transactions that agree on
    everything the claim lists and differ in the one or in the other have
    different preimage hashes. *)
Lemma preimage_hash_reads_address :
  (version readdressed_tx = version plain_tx
   ∧ locktime readdressed_tx = locktime plain_tx
   ∧ _outputs readdressed_tx = _outputs plain_tx
   ∧ Forall2 (λ a b, same_outpoint a b ∧ type a = type b
                     ∧ x_pubkeys a = x_pubkeys b ∧ num_sig a = num_sig b
                     ∧ value a = value b ∧ signatures a = signatures b)
       (_inputs plain_tx) (_inputs readdressed_tx)
   ∧ preimage_hash plain_tx 0 = Ok plain_preimage
   ∧ preimage_hash readdressed_tx 0 = Ok readdressed_preimage
   ∧ plain_preimage ≠ readdressed_preimage)
  ∧ (Forall2 (λ a b, same_outpoint a b ∧ type a = type b
                     ∧ x_pubkeys a = x_pubkeys b ∧ num_sig a = num_sig b
                     ∧ value a = value b ∧ signatures a = signatures b
                     ∧ address a = address b)
       [unknown_input (Some [x51])] [unknown_input (Some [x52])]
     ∧ preimage_hash (tx_of [unknown_input (Some [x51])]) 0 = Ok unknown_preimage_1
     ∧ preimage_hash (tx_of [unknown_input (Some [x52])]) 0 = Ok unknown_preimage_2
     ∧ unknown_preimage_1 ≠ unknown_preimage_2).
Proof.
  split.
  - split; [reflexivity|]. split; [reflexivity|]. split; [reflexivity|].
    split; [by repeat constructor|].
    split; [vm_compute; reflexivity|]. split; [vm_compute; reflexivity|].
    vm_compute. discriminate.
  - split; [by repeat constructor|].
    split; [vm_compute; reflexivity|]. split; [vm_compute; reflexivity|].
    vm_compute. discriminate.
Qed.

Lemma preimage_hash_ignores_other_signatures_witness :
  preimage_hash
    (set_inputs (resign_others 0 (λ _ _, Some [None; Some sig_2; Some sig_1])
                   (_inputs oversigned_tx)) oversigned_tx) 0
  = preimage_hash oversigned_tx 0.
Proof.
  exact (proj1 (preimage_hash_ignores_other_signatures oversigned_tx 0) _).
Defined.

(** C4, as stated, fails: [sign] inserts a signature at the slot of a
    legacy-keystore reference (kind [0xfe]) and leaves the reference in the
    key list; a script-hash placeholder is replaced. *)
Lemma sign_keeps_legacy_reference :
  kind legacy_key = Ok 254
  ∧ sign (keypairs_of legacy_key) legacy_tx = (Ok (), legacy_signed)
  ∧ signatures <$> _inputs legacy_tx = [Some [None]]
  ∧ signatures <$> _inputs legacy_signed = [Some [Some (x30 :: secret ++ [x41])]]
  ∧ x_pubkeys <$> _inputs legacy_signed = [Some [legacy_key]]
  ∧ to_public_key legacy_key ≠ Ok (inl (raw legacy_key)).
Proof.
  split; [reflexivity|]. split; [vm_compute; reflexivity|].
  split; [reflexivity|]. split; [reflexivity|]. split; [reflexivity|].
  vm_compute. discriminate.
Qed.

Lemma sign_resolves_placeholders_only_witness :
  kind placeholder_key = Ok 253
  ∧ sign (keypairs_of placeholder_key) placeholder_tx = (Ok (), placeholder_signed)
  ∧ x_pubkeys <$> _inputs placeholder_signed
    = [Some [mkXPublicKey (x02 :: secret)]]
  ∧ Forall2 keys_kept (_inputs placeholder_tx) (_inputs placeholder_signed).
Proof.
  assert (Hs : sign (keypairs_of placeholder_key) placeholder_tx
               = (Ok (), placeholder_signed)) by (vm_compute; reflexivity).
  split; [reflexivity|]. split; [exact Hs|]. split; [reflexivity|].
  exact (proj2 (sign_resolves_placeholders_only
                  (keypairs_of placeholder_key) placeholder_tx) _ _ Hs).
Defined.

(** C5, as stated, fails: on a transaction that is not complete, given as
    many signatures as it has inputs, [update_signatures] raises when the
    preimage of an input cannot be built, here for the missing value; no
    recovery id is tried, and the input is not passed over. *)
Lemma update_signatures_raises_value_missing :
  is_complete valueless_tx = Ok false
  ∧ length (_inputs valueless_tx) = length [sig_1]
  ∧ value <$> _inputs valueless_tx = [None]
  ∧ update_signatures [sig_1] valueless_tx = (Raise InputValueMissing, valueless_tx).
Proof. repeat split; vm_compute; reflexivity. Qed.

Lemma not_length_mismatch_run :
  Externals_raise (λ e, ¬ is_length_mismatch e).
Proof. apply run_externals_raise; by intros (n & m & [=]). Qed.

Lemma update_signatures_contract_witness :
  Externals_raise (λ e, ¬ is_length_mismatch e)
  ∧ is_complete legacy_tx = Ok false
  ∧ update_signatures [] legacy_tx = (Raise (length_mismatch 1 0), legacy_tx)
  ∧ is_complete signed_tx = Ok true
  ∧ update_signatures [] signed_tx = (Ok (), signed_tx).
Proof.
  split; [exact not_length_mismatch_run|]. split; [reflexivity|].
  split; [|split; [reflexivity|]].
  - refine (proj1 (proj1 (proj2 (update_signatures_contract [] legacy_tx
                                   not_length_mismatch_run)) eq_refl) _).
    simpl. lia.
  - exact (proj1 (update_signatures_contract [] signed_tx
                    not_length_mismatch_run) eq_refl).
Defined.

(** C6, as stated, fails: an input without a value whose key list is empty
    gives [IndexError], and a coinbase input without a value gives
    [RuntimeError]; the value is read last.  And [sign] that fails for the
    missing value of the second input leaves the first input signed: the
    transaction is not as it was. *)
Lemma value_missing_other_error :
  value <$> _inputs parsed_p2pk_tx = [None]
  ∧ serialize_preimage parsed_p2pk_tx 0 = Raise IndexError
  ∧ value <$> _inputs (tx_of [coinbase_input]) = [None]
  ∧ serialize_preimage (tx_of [coinbase_input]) 0
    = Raise (RuntimeError "Unknown txin type")
  ∧ value <$> _inputs second_valueless_tx = [Some 70000; None]
  ∧ sign keypairs_a_b second_valueless_tx
    = (Raise InputValueMissing, second_valueless_signed)
  ∧ signatures <$> _inputs second_valueless_tx = [Some [None]; Some [None]]
  ∧ signatures <$> _inputs second_valueless_signed
    = [Some [Some (x30 :: secret ++ [x41])]; Some [None]]
  ∧ second_valueless_signed ≠ second_valueless_tx.
Proof.
  split; [reflexivity|]. split; [vm_compute; reflexivity|].
  split; [reflexivity|]. split; [vm_compute; reflexivity|].
  split; [reflexivity|]. split; [vm_compute; reflexivity|].
  split; [reflexivity|]. split; [reflexivity|]. discriminate.
Qed.

Lemma not_InputValueMissing_run :
  Externals_raise (λ e, e ≠ InputValueMissing).
Proof. apply run_externals_raise; done. Qed.

Lemma _parse_input_reads_value_iff_witness :
  _parse_input (mkBCDataStream unsigned_input_bytes 0)
  = Ok (unsigned_input, mkBCDataStream unsigned_input_bytes 85)
  ∧ type unsigned_input = Some p2pkh
  ∧ is_txin_complete unsigned_input = Ok false
  ∧ value unsigned_input = Some 70000
  ∧ ∃ prefix vds1,
      read_input_prefix (mkBCDataStream unsigned_input_bytes 0) = Ok (prefix, vds1)
      ∧ (type unsigned_input = Some coinbase →
         value unsigned_input = None
         ∧ mkBCDataStream unsigned_input_bytes 85 = vds1)
      ∧ (type unsigned_input ≠ Some coinbase →
         ∃ complete,
           is_txin_complete unsigned_input = Ok complete
           ∧ (complete = true →
              value unsigned_input = None
              ∧ mkBCDataStream unsigned_input_bytes 85 = vds1)
           ∧ (complete = false →
              ∃ v, read_uint64 vds1 = Ok (v, mkBCDataStream unsigned_input_bytes 85)
                ∧ value unsigned_input = Some v
                ∧ v = le_value (take 8 (drop (read_cursor vds1) (input vds1)))
                ∧ read_cursor (mkBCDataStream unsigned_input_bytes 85)
                  = (read_cursor vds1 + 8)%nat)).
Proof.
  assert (Hp : _parse_input (mkBCDataStream unsigned_input_bytes 0)
               = Ok (unsigned_input, mkBCDataStream unsigned_input_bytes 85))
    by (vm_compute; reflexivity).
  split; [exact Hp|]. split; [reflexivity|]. split; [reflexivity|].
  split; [reflexivity|].
  exact (_parse_input_reads_value_iff _ _ _ Hp).
Defined.


End TxProofs.

(** * Properties of the wallet storage *)

Module StorageProofs.
Import Storage StorageSpec.

Section WithExternals.
Context `{Externals}.

(** ** Documents from the future *)

Lemma get_seed_version_too_old (self : WalletStorage) (v : Z) :
  data self !! "seed_version" = Some (JInt v) → FINAL_SEED_VERSION < v →
  get_seed_version self = Raise too_old.
Proof.
  intros Hv Hgt. unfold get_seed_version, get. rewrite Hv.
  unfold FINAL_SEED_VERSION in *. simpl.
  replace (v =? 0) with false by lia. simpl.
  by rewrite bool_decide_eq_true_2 by lia.
Qed.

Lemma guarded_too_old (self : WalletStorage) (machine : Machine) (lo hi : Z)
  (body : Method unit) :
  get_seed_version self = Raise too_old →
  guarded lo hi body (self, machine) = (Raise too_old, (self, machine)).
Proof.
  intros Hv. unfold guarded, _is_upgrade_method_needed, method_bind, method_self,
    method_lift. simpl. by rewrite Hv.
Qed.

Lemma _backup_wallet_keeps_self (self : WalletStorage) (machine : Machine) :
  ∃ r machine', _backup_wallet (self, machine) = (r, (self, machine')).
Proof.
  unfold _backup_wallet, method_bind, method_self, method_machine, method_ret. simpl.
  destruct (file_exists self); simpl; [|by eauto].
  destruct (_get_wallet_backup_path self machine); [|by eexists _, _].
  unfold copyfile, method_bind, method_machine. simpl.
  destruct (fs machine !! path self); by eexists _, _.
Qed.

(** C8: a document whose [seed_version] is above the final version makes
    [get_seed_version] raise; every conversion step raises the same before
    it changes anything; [upgrade] fails with the storage object as it was;
    and [load_data] of a text that holds this document leaves the document
    as it was parsed. *)
Theorem future_version_rejected (self : WalletStorage) (machine : Machine) (v : Z) :
  data self !! "seed_version" = Some (JInt v) →
  FINAL_SEED_VERSION < v →
  get_seed_version self = Raise too_old
  ∧ (file_exists self = true → requires_upgrade self = Raise too_old)
  ∧ Forall (λ step, step (self, machine) = (Raise too_old, (self, machine)))
      conversion_steps
  ∧ (∃ e machine', upgrade (self, machine) = (Raise e, (self, machine')))
  ∧ (∀ s before, parse_document s = Ok (data self) →
       self = set_data (data self) before →
       ∃ r, load_data s (before, machine) = (r, (self, machine))).
Proof.
  intros Hv Hgt.
  pose proof (get_seed_version_too_old self v Hv Hgt) as Hold.
  split; [done|]. split; [|split; [|split]].
  - intros Hf. unfold requires_upgrade. by rewrite Hf, Hold.
  - unfold conversion_steps.
    repeat (constructor; [by apply guarded_too_old|]). constructor.
  - destruct (_backup_wallet_keeps_self self machine) as (r & machine' & Hb).
    unfold upgrade. unfold method_bind at 1. rewrite Hb.
    destruct r as [[]|e]; [|by eauto].
    unfold method_bind at 1. unfold convert_imported.
    rewrite guarded_too_old by done. eauto.
  - intros s before Hparse Hself.
    unfold load_data, method_bind, method_lift, set_self, method_self, method_ret,
      method_raise.
    rewrite Hparse. cbn [fst snd]. rewrite <- Hself.
    destruct (manual_upgrades self); [by eauto|].
    destruct (requires_split self) as [[]|]; [by eauto| |by eauto].
    unfold requires_upgrade. cbn [fst snd].
    destruct (file_exists self); [|by eauto].
    rewrite Hold. cbn [rbind]. eauto.
Qed.

(** ** The backup *)

Lemma wallet_backup_path_inj (path : string) (k k' : nat) :
  wallet_backup_path path k = wallet_backup_path path k' → k = k'.
Proof.
  unfold wallet_backup_path. intros Heq.
  apply (inj (String.app path)) in Heq.
  apply (inj (String.app ".backup.")) in Heq.
  by apply (inj pretty) in Heq.
Qed.

(** The search ends: [m] holds what is left of the files whose names are
    still to be tried, and there are fewer of them than passes. *)
Lemma _get_wallet_backup_path_from_finds (fuel : nat) :
  ∀ (files m : gmap string (string * Z)) (path : string) (attempt : nat),
    (size m < fuel)%nat →
    (∀ k, (attempt ≤ k)%nat → is_Some (files !! wallet_backup_path path k) →
          is_Some (m !! wallet_backup_path path k)) →
    ∃ N, (attempt ≤ N)%nat
      ∧ _get_wallet_backup_path_from fuel files path attempt
        = Some (wallet_backup_path path N)
      ∧ files !! wallet_backup_path path N = None
      ∧ ∀ k, (attempt ≤ k < N)%nat → is_Some (files !! wallet_backup_path path k).
Proof.
  induction fuel as [|fuel IH]; intros files m path attempt Hsize Hm; [lia|].
  cbn [_get_wallet_backup_path_from].
  destruct (files !! wallet_backup_path path attempt) as [f|] eqn:Hf.
  - destruct (Hm attempt (le_n _)) as [g Hg]; [by rewrite Hf|].
    destruct (IH files (delete (wallet_backup_path path attempt) m) path (S attempt))
      as (N & HN & Hfound & Hfree & Hused).
    + rewrite map_size_delete, Hg.
      assert (size m ≠ 0)%nat; [|lia].
      intros Hz. apply map_size_empty_inv in Hz. subst m. by rewrite lookup_empty in Hg.
    + intros k Hk Hsome. rewrite lookup_delete_ne.
      * apply Hm; [lia|done].
      * intros Heq%wallet_backup_path_inj. lia.
    + exists N. split; [lia|]. split; [done|]. split; [done|].
      intros k Hk. destruct (decide (k = attempt)) as [->|]; [by rewrite Hf|].
      apply Hused. lia.
  - exists attempt. split; [done|]. split; [done|]. split; [done|]. intros k Hk. lia.
Qed.

Lemma _get_wallet_backup_path_first_free (self : WalletStorage) (machine : Machine) :
  ∃ N, first_free_backup (fs machine) (path self) N
    ∧ _get_wallet_backup_path self machine
      = Some (wallet_backup_path (path self) N).
Proof.
  unfold _get_wallet_backup_path.
  destruct (_get_wallet_backup_path_from_finds (S (size (fs machine))) (fs machine)
              (fs machine) (path self) 1) as (N & HN & Hfound & Hfree & Hused);
    [lia|done|].
  exists N. by repeat split.
Qed.

(** C9 (as the code has it): [upgrade] is the backup followed by the
    conversions; when the storage object has recorded that its file exists,
    the backup copies the file, before any conversion, to
    [path.backup.N] for the smallest positive [N] whose path is free, and
    fails, before any conversion, when the file is no longer there; when
    the object has recorded no file, nothing is copied. *)
Theorem backup_before_conversions (self : WalletStorage) (machine : Machine) :
  upgrade (self, machine)
  = (_backup_wallet;; conversions)%storage (self, machine)
  ∧ (file_exists self = false →
     _backup_wallet (self, machine) = (Ok (), (self, machine)))
  ∧ (file_exists self = true →
     ∀ f, fs machine !! path self = Some f →
       ∃ N, first_free_backup (fs machine) (path self) N
         ∧ _backup_wallet (self, machine)
           = (Ok (), (self, with_new_file machine
                               (wallet_backup_path (path self) N) f.1)))
  ∧ (file_exists self = true → fs machine !! path self = None →
     _backup_wallet (self, machine) = (Raise FileNotFoundError, (self, machine))
     ∧ upgrade (self, machine) = (Raise FileNotFoundError, (self, machine))).
Proof.
  split; [done|].
  destruct (_get_wallet_backup_path_first_free self machine) as (N & Hfirst & Hpath).
  assert (Hmissing : file_exists self = true → fs machine !! path self = None →
    _backup_wallet (self, machine) = (Raise FileNotFoundError, (self, machine))).
  { intros Hf Hnone.
    unfold _backup_wallet, method_bind, method_self, method_machine. cbn [fst snd].
    rewrite Hf. cbn [negb fst snd]. rewrite Hpath.
    unfold copyfile, method_bind, method_machine. cbn [fst snd]. by rewrite Hnone. }
  split; [|split].
  - intros Hf. unfold _backup_wallet, method_bind, method_self. cbn [fst snd].
    by rewrite Hf.
  - intros Hf f Hfile. exists N. split; [done|].
    unfold _backup_wallet, method_bind, method_self, method_machine. cbn [fst snd].
    rewrite Hf. cbn [negb fst snd]. rewrite Hpath.
    unfold copyfile, method_bind, method_machine. cbn [fst snd]. rewrite Hfile.
    destruct Hfirst as (_ & Hfree & _). rewrite Hfree. done.
  - intros Hf Hnone. split; [by auto|].
    unfold upgrade. unfold method_bind at 1. by rewrite Hmissing.
Qed.

(** ** Writing *)

Lemma put_same_value (self : WalletStorage) (kv : string * json) :
  same_value_put self kv → put kv.1 kv.2 self = self.
Proof.
  intros (Hnone & w & Hw & Heq). unfold put.
  destruct (json_dumpable kv.2); [|done]. cbn [negb].
  rewrite Hw. cbn [from_option id]. rewrite Heq.
  by destruct kv.2.
Qed.

Lemma puts_same_value (kvs : list (string * json)) (self : WalletStorage) :
  Forall (same_value_put self) kvs → puts kvs self = self.
Proof.
  unfold puts. induction 1 as [|kv kvs Hkv _ IH]; [done|].
  cbn [foldl]. by rewrite put_same_value.
Qed.

(** C10 (as the code has it): [put] of a value that is not [None] and
    equals the stored one, [put] of [None] for an absent key and [put] of a
    value that cannot be encoded leave the object as it was; [write] with the
    modified flag unset touches nothing; hence after any sequence of puts
    of stored values on an unmodified object, [write] leaves the files as
    they were. *)
Theorem unchanged_puts_never_write (self : WalletStorage) (machine : Machine) :
  (∀ key value w, value ≠ JNone → data self !! key = Some w →
     py_eqb w value = true → put key value self = self)
  ∧ (∀ key, data self !! key = None → put key JNone self = self)
  ∧ (∀ key value, json_dumpable value = false → put key value self = self)
  ∧ (modified self = false → write (self, machine) = (Ok (), (self, machine)))
  ∧ (∀ kvs, modified self = false → Forall (same_value_put self) kvs →
       write (puts kvs self, machine) = (Ok (), (self, machine))).
Proof.
  assert (Hwrite : modified self = false →
                   write (self, machine) = (Ok (), (self, machine))).
  { intros Hm. unfold write, _write, method_bind, method_machine, method_self,
      method_ret. cbn [fst snd]. destruct (daemon machine); [done|].
    cbn [fst snd]. by rewrite Hm. }
  split; [|split; [|split; [|split]]].
  - intros key value w Hnone Hw Heq.
    apply (put_same_value self (key, value)). split; [done|]. by exists w.
  - intros key Hkey. unfold put. cbn. by rewrite Hkey.
  - intros key value Hd. unfold put. by rewrite Hd.
  - done.
  - intros kvs Hm Hall. rewrite puts_same_value by done. by apply Hwrite.
Qed.

End WithExternals.

(** ** The properties on the sample wallets *)

Import StorageRun StorageSamples.
#[local] Existing Instance run_externals.

Lemma future_version_rejected_witness :
  data future_storage !! "seed_version" = Some (JInt 20)
  ∧ FINAL_SEED_VERSION < 20
  ∧ get_seed_version future_storage = Raise too_old
  ∧ (upgrade (future_storage, disk_machine)).1 = Raise too_old
  ∧ (upgrade (future_storage, disk_machine)).2.1 = future_storage.
Proof.
  assert (Hv : data future_storage !! "seed_version" = Some (JInt 20))
    by (vm_compute; reflexivity).
  assert (Hgt : FINAL_SEED_VERSION < 20) by (unfold FINAL_SEED_VERSION; lia).
  split; [exact Hv|]. split; [exact Hgt|]. split.
  - exact (proj1 (future_version_rejected future_storage disk_machine 20 Hv Hgt)).
  - split; vm_compute; reflexivity.
Defined.

(** C9, as stated, fails: on a wallet object that has recorded no file,
    as the constructor makes it for a new wallet, [upgrade] makes no
    backup, whatever the conversion steps taken from elsewhere do: the
    document being at the final version, no step runs, the document is
    written to the path, and no backup file appears. *)
Lemma upgrade_without_backup :
  (file_exists new_storage = false ∧ modified new_storage = true
   ∧ fs empty_machine = ∅)
  ∧ ∀ E : Externals,
      @get_seed_version new_storage = Ok 19
      ∧ (@upgrade E (new_storage, empty_machine)).1 = Ok ()
      ∧ data (@upgrade E (new_storage, empty_machine)).2.1 = data new_storage
      ∧ fs (@upgrade E (new_storage, empty_machine)).2.2 !! "w"
        = Some (@json_dumps E (data new_storage), 384)
      ∧ ∀ N, fs (@upgrade E (new_storage, empty_machine)).2.2
               !! wallet_backup_path "w" N = None.
Proof.
  split; [done|]. intros E.
  split; [vm_compute; reflexivity|].
  assert (Hup : @upgrade E (new_storage, empty_machine)
    = (Ok (),
       (set_written (@json_dumps E (data new_storage)) new_storage,
        mkMachine {["w" := (@json_dumps E (data new_storage), 384)]} 7 false))).
  { vm_compute. reflexivity. }
  rewrite Hup. cbn [fst snd fs]. split; [done|]. split; [done|].
  split; [by rewrite lookup_singleton_eq|].
  intros N. apply lookup_singleton_ne. unfold wallet_backup_path. done.
Qed.

Lemma backup_before_conversions_witness :
  file_exists null_storage = true
  ∧ fs disk_machine !! path null_storage = Some ("{'k': None}", 384)
  ∧ ∃ N, first_free_backup (fs disk_machine) (path null_storage) N
      ∧ _backup_wallet (null_storage, disk_machine)
        = (Ok (), (null_storage,
                   with_new_file disk_machine
                     (wallet_backup_path (path null_storage) N) "{'k': None}")).
Proof.
  assert (Hf : file_exists null_storage = true) by reflexivity.
  assert (Hfile : fs disk_machine !! path null_storage = Some ("{'k': None}", 384))
    by (vm_compute; reflexivity).
  split; [exact Hf|]. split; [exact Hfile|].
  exact (proj1 (proj2 (proj2 (backup_before_conversions null_storage disk_machine)))
           Hf _ Hfile).
Defined.

(** C10, as stated, fails: [put] of [None] under a key whose stored value
    is [None] removes the key and sets the modified flag, and the [write]
    that follows rewrites the file. *)
Lemma put_stored_null_rewrites :
  data null_storage !! "k" = Some JNone
  ∧ modified null_storage = false
  ∧ data (put "k" JNone null_storage) = ∅
  ∧ modified (put "k" JNone null_storage) = true
  ∧ fs disk_machine !! "w" = Some ("{'k': None}", 384)
  ∧ fs (write (put "k" JNone null_storage, disk_machine)).2.2 !! "w"
    = Some ("{}", 384).
Proof. repeat split; vm_compute; reflexivity. Qed.

Lemma unchanged_puts_never_write_witness :
  modified future_storage = false
  ∧ Forall (same_value_put future_storage)
      [("seed_version", JInt 20); ("seed_version", JInt 20)]
  ∧ write (puts [("seed_version", JInt 20); ("seed_version", JInt 20)]
             future_storage, disk_machine)
    = (Ok (), (future_storage, disk_machine)).
Proof.
  assert (Hm : modified future_storage = false) by reflexivity.
  assert (Hall : Forall (same_value_put future_storage)
                   [("seed_version", JInt 20); ("seed_version", JInt 20)]).
  { repeat constructor; try done; exists (JInt 20); split; vm_compute; reflexivity. }
  split; [exact Hm|]. split; [exact Hall|].
  exact (proj2 (proj2 (proj2 (proj2
           (unchanged_puts_never_write future_storage disk_machine)))) _ Hm Hall).
Defined.

End StorageProofs.
(** * Further properties of the transaction code *)

Module TxExtra.
Import Tx TxSpec TxMore TxMoreSpec TxProofs.

(** ** Writing and reading the stream *)

Lemma pack_Ok (format : struct_format) (num : Z) :
  format_min format ≤ num < format_bound format →
  ∃ bs, pack format num = Ok bs ∧ length bs = calcsize format
        ∧ unpack format bs = num
        ∧ bs = le_bytes (calcsize format) (le_value bs)
        ∧ 0 ≤ le_value bs < 256 ^ Z.of_nat (calcsize format).
Proof.
  intros Hr. unfold pack. rewrite bool_decide_eq_true_2 by done.
  eexists. split; [reflexivity|].
  pose proof (Z.mod_pos_bound num (256 ^ Z.of_nat (calcsize format))
                ltac:(destruct format; done)) as Hm.
  rewrite length_le_bytes, le_value_le_bytes by done.
  split; [done|]. split; [|done].
  unfold unpack, to_signed. rewrite le_value_le_bytes by done.
  destruct format; cbn [calcsize format_min format_bound] in *;
    change (256 ^ Z.of_nat 2) with 65536 in *;
    change (256 ^ Z.of_nat 4) with 4294967296 in *;
    change (256 ^ Z.of_nat 8) with 18446744073709551616 in *;
    change (2 ^ (16 - 1)) with 32768; change (2 ^ 16) with 65536 in *;
    change (2 ^ (32 - 1)) with 2147483648; change (2 ^ 32) with 4294967296 in *;
    change (2 ^ (64 - 1)) with 9223372036854775808;
    change (2 ^ 64) with 18446744073709551616 in *;
    change (2 ^ 15) with 32768 in *; change (2 ^ 31) with 2147483648 in *;
    change (2 ^ 63) with 9223372036854775808 in *;
    try (rewrite Z.mod_small by lia; done);
    (destruct (decide (0 ≤ num));
     [rewrite Z.mod_small by lia; case_match; lia
     |rewrite <- (Z.mod_add num 1) by lia; rewrite Z.mod_small by lia;
      case_match; lia]).
Qed.

Lemma stream_at_reader_after (vds : BCDataStream) (bs : bytes) :
  stream_at (reader_after vds (write bs vds)) bs.
Proof. unfold stream_at, reader_after, write. simpl. by rewrite drop_app_length. Qed.

Lemma stream_at_nil_at_end (vds vds' : BCDataStream) :
  input vds' = input vds → stream_at vds' [] →
  (length (input vds) ≤ read_cursor vds')%nat.
Proof.
  unfold stream_at. intros Hin Hat.
  apply (f_equal length) in Hat. rewrite length_drop, Hin in Hat. simpl in Hat. lia.
Qed.

(** X1: a number in the range of its format that [_write_num] writes is
    what [_read_num] reads where the writing started, and the reader ends
    at the end of the stream; a number out of the range is refused with an
    error of [struct]. *)
Theorem _write_num_read_back (format : struct_format) (num : Z) (vds : BCDataStream) :
  (format_min format ≤ num < format_bound format →
   ∃ bs, _write_num format num vds = Ok (write bs vds)
     ∧ length bs = calcsize format
     ∧ _read_num format (reader_after vds (write bs vds))
       = Ok (num, at_end (write bs vds)))
  ∧ (¬ (format_min format ≤ num < format_bound format) →
     _write_num format num vds = Raise StructError).
Proof.
  split.
  - intros Hr. destruct (pack_Ok format num Hr) as (bs & Hp & Hl & Hu & Hbs & Hv).
    exists bs. unfold _write_num. rewrite Hp. split; [done|]. split; [done|].
    unfold _read_num, reader_after, at_end, write. cbn [input read_cursor].
    rewrite length_app, Hl. rewrite decide_True by lia.
    rewrite drop_app_length. rewrite <- Hl, take_ge by lia. by rewrite Hu, Hl.
  - intros Hr. unfold _write_num, pack. by rewrite bool_decide_eq_false_2.
Qed.

Lemma _read_num_after (format : struct_format) (num : Z) (pre bs : bytes) :
  pack format num = Ok bs →
  _read_num format (mkBCDataStream (pre ++ bs) (length pre))
  = Ok (num, mkBCDataStream (pre ++ bs) (length (pre ++ bs))).
Proof.
  intros Hp.
  assert (format_min format ≤ num < format_bound format) as Hr.
  { unfold pack in Hp. by case_bool_decide. }
  destruct (pack_Ok format num Hr) as (bs' & Hp' & Hl & Hu & _).
  assert (bs' = bs) as -> by congruence.
  unfold _read_num. cbn [input read_cursor].
  rewrite length_app, Hl. rewrite decide_True by lia.
  rewrite drop_app_length. rewrite <- Hl, take_ge by lia. by rewrite Hu.
Qed.

(** X2: a size from [0] to [2**64 - 1] that [write_compact_size] writes
    takes one, three, five or nine bytes, and [read_compact_size] reads it
    back where the writing started, ending at the end of the stream; a
    negative size is refused with [SerializationError]; a size of [2**64] or
    more writes nothing and raises nothing. *)
Theorem write_compact_size_read_back (size : Z) (vds : BCDataStream) :
  (0 ≤ size < 2 ^ 64 →
   ∃ bs, write_compact_size size vds = Ok (write bs vds)
     ∧ length bs = (if bool_decide (size < 253) then 1%nat
                    else if bool_decide (size < 2 ^ 16) then 3%nat
                    else if bool_decide (size < 2 ^ 32) then 5%nat else 9%nat)
     ∧ read_compact_size (reader_after vds (write bs vds))
       = Ok (size, at_end (write bs vds)))
  ∧ (size < 0 → write_compact_size size vds = Raise SerializationError)
  ∧ (2 ^ 64 ≤ size → write_compact_size size vds = Ok vds).
Proof.
  split; [|split].
  - intros Hs. unfold write_compact_size.
    rewrite (bool_decide_eq_false_2 (size < 0)) by lia.
    assert (Hmarker : ∀ (format : struct_format) (m : byte),
      format_min format ≤ size < format_bound format →
      byte_to_Z m ∈ [253; 254; 255] →
      (match byte_to_Z m with
       | 253 => format = fmt_H | 254 => format = fmt_I | _ => format = fmt_Q end) →
      ∃ bs, _write_num format size (write [m] vds) = Ok (write bs vds)
        ∧ length bs = S (calcsize format)
        ∧ read_compact_size (reader_after vds (write bs vds))
          = Ok (size, at_end (write bs vds))).
    { intros format m Hr Hm Hfmt.
      destruct (pack_Ok format size Hr) as (bs & Hp & Hl & _).
      exists (m :: bs). unfold _write_num. rewrite Hp. cbn [rbind].
      unfold write. cbn [input read_cursor]. rewrite <- app_assoc.
      split; [done|]. split; [simpl; by rewrite Hl|].
      unfold read_compact_size, reader_after, at_end. cbn [input read_cursor].
      rewrite lookup_app_r by lia. rewrite Nat.sub_diag. cbn [lookup list_lookup].
      pose proof (_read_num_after format size (input vds ++ [m]) bs Hp) as Hread.
      rewrite length_app in Hread. cbn [length] in Hread.
      rewrite <- app_assoc in Hread. cbn [app] in Hread.
      rewrite !length_app in Hread. cbn [length] in Hread.
      rewrite !length_app. cbn [length].
      replace (length (input vds) + S (length bs))%nat
        with (length (input vds) + (1 + length bs))%nat by lia.
      set_unfold in Hm. destruct Hm as [Hm|[Hm|[Hm|[]]]]; rewrite Hm in Hfmt |- *;
        subst format; cbn [bool_decide decide_rel]; exact Hread. }
    repeat case_bool_decide.
    + exists [Z_to_byte size]. split; [done|]. split; [done|].
      unfold read_compact_size, reader_after, at_end, write. cbn [input read_cursor].
      rewrite lookup_app_r by lia. rewrite Nat.sub_diag. cbn [lookup list_lookup].
      rewrite byte_to_Z_to_byte, Z.mod_small by lia.
      rewrite !bool_decide_eq_false_2 by lia.
      by rewrite length_app.
    + apply (Hmarker fmt_H xfd); [simpl; lia|by repeat constructor|done].
    + apply (Hmarker fmt_I xfe); [simpl; lia|by repeat constructor|done].
    + apply (Hmarker fmt_Q xff); [simpl; lia|by repeat constructor|done].
    + lia.
  - intros Hs. unfold write_compact_size. by rewrite bool_decide_eq_true_2.
  - intros Hs. unfold write_compact_size.
    rewrite !bool_decide_eq_false_2 by lia. done.
Qed.

(** X3: on a stream that holds bytes, [read_bytes] never fails: it
    returns the bytes that are left when fewer than [length] are, and moves
    the cursor by [length] all the same; once the cursor is past the end,
    every read of a number or of a compact size raises
    [SerializationError].  On a stream that was never written, or was
    cleared, [read_bytes] and [read_compact_size] raise [TypeError] and
    [_read_num] raises [SerializationError]; a write makes it a stream that
    holds the bytes, read from their start. *)
Theorem read_bytes_past_end (n : nat) (self : StreamObject.t) (_bytes : bytes) :
  (StreamObject.read_bytes n StreamObject.init = Raise TypeError
   ∧ StreamObject.read_bytes n (StreamObject.clear self) = Raise TypeError
   ∧ StreamObject.read_compact_size StreamObject.init = Raise TypeError
   ∧ (∀ format, StreamObject._read_num format StreamObject.init
                = Raise SerializationError)
   ∧ StreamObject.write _bytes StreamObject.init = Some (mkBCDataStream _bytes 0))
  ∧ (∀ vds, self = Some vds →
       ∃ bs vds',
         StreamObject.read_bytes n self = Ok (bs, Some vds')
         ∧ read_bytes (Z.of_nat n) vds = Ok (bs, vds')
         ∧ input vds' = input vds
         ∧ read_cursor vds' = (read_cursor vds + n)%nat
         ∧ length bs = (n `min` (length (input vds) - read_cursor vds))%nat
         ∧ ((length (input vds) < read_cursor vds + n)%nat →
            StreamObject.read_compact_size (Some vds') = Raise SerializationError
            ∧ ∀ format, StreamObject._read_num format (Some vds')
                        = Raise SerializationError)).
Proof.
  split; [by repeat split|]. intros vds ->.
  unfold StreamObject.read_bytes, StreamObject.read_compact_size,
    StreamObject._read_num, StreamObject.reading, read_bytes.
  rewrite Nat2Z.id. cbn [rmap fst snd].
  eexists _, _. split; [reflexivity|]. split; [reflexivity|].
  cbn [input read_cursor].
  split; [done|]. split; [done|]. split.
  { rewrite length_take, length_drop. done. }
  intros Hpast. split.
  - unfold read_compact_size. cbn [input read_cursor].
    rewrite lookup_ge_None_2 by lia. done.
  - intros format. unfold _read_num. cbn [input read_cursor].
    rewrite decide_False by lia. done.
Qed.

Lemma int_to_hex_length (z : Z) (n : nat) (bs : bytes) :
  int_to_hex z n = Ok bs → length bs = n.
Proof.
  unfold int_to_hex. case_bool_decide; [|done]. intros [= <-].
  apply length_le_bytes.
Qed.

(** ** [deserialize] *)

(** X4: [deserialize] refuses, with [SerializationError], bytes that end
    before the count of inputs, and, with [AssertionError], bytes whose
    count of inputs is zero; what [serialize] writes for a transaction
    without inputs is refused in this way. *)
Theorem deserialize_rejects_no_inputs `{Externals} (raw : bytes) :
  ((length raw ≤ 4)%nat → deserialize raw = Raise SerializationError)
  ∧ (raw !! 4%nat = Some x00 → deserialize raw = Raise AssertionError)
  ∧ (∀ tx estimate_size,
       _inputs tx = [] → serialize tx estimate_size = Ok raw →
       deserialize raw = Raise AssertionError).
Proof.
  assert (Hzero : raw !! 4%nat = Some x00 → deserialize raw = Raise AssertionError).
  { intros H4. pose proof (lookup_lt_Some _ _ _ H4) as Hlen.
    unfold deserialize, deserialize_stream, reader_bind, read_int32, _read_num.
    cbn [input read_cursor calcsize]. rewrite decide_True by lia.
    unfold read_compact_size. cbn [input read_cursor Nat.add]. rewrite H4.
    change (byte_to_Z x00) with 0. cbn [bool_decide decide_rel]. done. }
  split; [|split; [done|]].
  - intros Hlen.
    unfold deserialize, deserialize_stream, reader_bind, read_int32, _read_num.
    cbn [input read_cursor calcsize].
    destruct (decide (0 + 4 ≤ length raw)%nat) as [H4|]; [|done].
    unfold read_compact_size. cbn [input read_cursor Nat.add].
    rewrite lookup_ge_None_2 by lia. done.
  - intros tx estimate_size Hin Hser. apply Hzero.
    unfold serialize in Hser. rewrite Hin in Hser.
    destruct (int_to_hex (version tx) 4) as [v|] eqn:Hv; [|done].
    destruct (int_to_hex (locktime tx) 4) as [l|]; [|done].
    cbn [rbind length rmapM concat] in Hser.
    change (var_int (Z.of_nat 0)) with (Ok [x00] : result bytes) in Hser.
    cbn [rbind] in Hser.
    destruct (var_int _) as [n_out|]; [|done]. cbn [rbind] in Hser.
    destruct (join_outputs _) as [outs|]; [|done]. cbn [rbind] in Hser.
    injection Hser as <-. apply int_to_hex_length in Hv.
    rewrite lookup_app_r by lia. rewrite Hv. done.
Qed.

(** ** Decoding scripts *)

Lemma _script_GetOp_from_step (b : byte) (rest1 : bytes) (i : nat) :
  ∃ data i2 k,
    (∀ fuel,
       _script_GetOp_from (S fuel) (b :: rest1) i
       = (byte_to_Z b, data, i2) :: _script_GetOp_from fuel (drop k rest1) i2)
    ∧ (i < i2)%nat
    ∧ (i + 1 + length rest1 ≤ i2 + length (drop k rest1))%nat
    ∧ (byte_to_Z b ≤ OP_PUSHDATA4 ↔ is_Some data).
Proof.
  destruct (decide (byte_to_Z b ≤ OP_PUSHDATA4)) as [Hop|Hop].
  - destruct (decide (byte_to_Z b = OP_PUSHDATA1)) as [H1|H1];
      [|destruct (decide (byte_to_Z b = OP_PUSHDATA2)) as [H2|H2];
        [|destruct (decide (byte_to_Z b = OP_PUSHDATA4)) as [H4|H4]]];
      eexists _, _, _;
      (split;
       [intros fuel; cbn [_script_GetOp_from];
        rewrite (bool_decide_eq_true_2 _ Hop);
        rewrite ?(bool_decide_eq_true_2 _ H1), ?(bool_decide_eq_false_2 _ H1),
          ?(bool_decide_eq_true_2 _ H2), ?(bool_decide_eq_false_2 _ H2),
          ?(bool_decide_eq_true_2 _ H4), ?(bool_decide_eq_false_2 _ H4);
        rewrite drop_drop; reflexivity|]);
      (split; [lia|]); (split; [rewrite !length_drop; lia|]);
      (split; [by eexists|done]).
  - exists None, (i + 1)%nat, 0%nat. split.
    { intros fuel. cbn [_script_GetOp_from].
      rewrite (bool_decide_eq_false_2 _ Hop). by rewrite drop_0. }
    split; [lia|]. split; [rewrite drop_0; lia|].
    split; [done|]. by intros [? ?].
Qed.

Lemma _script_GetOp_from_props (fuel : nat) :
  ∀ (rest : bytes) (i : nat),
    let decoded := _script_GetOp_from fuel rest i in
    (length decoded ≤ length rest)%nat
    ∧ StronglySorted (λ a b : Z * option bytes * nat, (a.2 < b.2)%nat) decoded
    ∧ Forall (λ op : Z * option bytes * nat,
                (i < op.2)%nat ∧ 0 ≤ op.1.1 < 256
                ∧ (op.1.1 ≤ OP_PUSHDATA4 ↔ is_Some op.1.2)) decoded
    ∧ ((length rest ≤ fuel)%nat → rest ≠ [] →
       ∃ op, last decoded = Some op ∧ (i + length rest ≤ op.2)%nat)
    ∧ (∀ fuel', (length rest ≤ fuel)%nat → (length rest ≤ fuel')%nat →
         _script_GetOp_from fuel' rest i = decoded).
Proof.
  induction fuel as [|fuel IH]; intros rest i decoded.
  - subst decoded. cbn [_script_GetOp_from length].
    split; [lia|]. split; [constructor|]. split; [constructor|]. split.
    + intros Hlen Hne. destruct rest; [done|simpl in Hlen; lia].
    + intros fuel' Hlen _. destruct rest; [|simpl in Hlen; lia].
      apply _script_GetOp_from_nil.
  - destruct rest as [|b rest1].
    { subst decoded. cbn [_script_GetOp_from length].
      split; [lia|]. split; [constructor|]. split; [constructor|]. split; [done|].
      intros fuel' _ _. apply _script_GetOp_from_nil. }
    destruct (_script_GetOp_from_step b rest1 i)
      as (data & i2 & k & Hstep & Hi2 & Hpos & Hdata).
    subst decoded. rewrite Hstep.
    destruct (IH (drop k rest1) i2) as (Hlen & Hsorted & Hall & Hlast & Hfuel).
    pose proof (length_drop rest1 k) as Hdrop.
    split; [cbn [length]; lia|]. split.
    { constructor; [done|]. eapply Forall_impl; [exact Hall|].
      intros op (Hop & _). done. }
    split.
    { constructor.
      - split; [done|]. split; [apply byte_to_Z_range|done].
      - eapply Forall_impl; [exact Hall|]. intros op (Hop & Hrest). split; [lia|done]. }
    split.
    { intros Hf _. cbn [length] in Hf.
      destruct (decide (drop k rest1 = [])) as [Hnil|Hne].
      - rewrite Hnil, _script_GetOp_from_nil. eexists. split; [done|].
        rewrite Hnil in Hpos. cbn [length snd] in *. lia.
      - destruct Hlast as (op & Hop & Hge); [lia|done|].
        exists op. split.
        + destruct (_script_GetOp_from fuel (drop k rest1) i2); [done|].
          by rewrite last_cons, Hop.
        + cbn [length]. lia. }
    intros fuel' Hf Hf'. cbn [length] in Hf, Hf'.
    destruct fuel' as [|fuel']; [lia|].
    rewrite Hstep. f_equal. apply Hfuel; lia.
Qed.

(** X5: the decoding of a script ends within as many passes as the script
    has bytes, whatever the bytes are; the positions it reports grow
    strictly; every opcode up to [OP_PUSHDATA4], and no other, comes with
    data; and the last position is at or past the end of the script. *)
Theorem _script_GetOp_covers (_bytes : bytes) :
  (length (_script_GetOp _bytes) ≤ length _bytes)%nat
  ∧ StronglySorted (λ a b : Z * option bytes * nat, (a.2 < b.2)%nat)
      (_script_GetOp _bytes)
  ∧ Forall (λ op : Z * option bytes * nat,
              (0 < op.2)%nat ∧ 0 ≤ op.1.1 < 256
              ∧ (op.1.1 ≤ OP_PUSHDATA4 ↔ is_Some op.1.2)) (_script_GetOp _bytes)
  ∧ (_bytes ≠ [] →
     ∃ op, last (_script_GetOp _bytes) = Some op ∧ (length _bytes ≤ op.2)%nat)
  ∧ (∀ fuel, (length _bytes ≤ fuel)%nat →
       _script_GetOp_from fuel _bytes 0 = _script_GetOp _bytes).
Proof.
  unfold _script_GetOp.
  destruct (_script_GetOp_from_props (length _bytes) _bytes 0)
    as (Hlen & Hsorted & Hall & Hlast & Hfuel).
  split; [done|]. split; [done|]. split; [done|]. split.
  - intros Hne. destruct Hlast as (op & Hop & Hge); [done..|]. by exists op.
  - intros fuel Hf. by apply Hfuel.
Qed.
(** ** Multisig scripts *)

Lemma _script_GetOp_from_fuel (fuel fuel' : nat) (rest : bytes) (i : nat) :
  (length rest ≤ fuel)%nat → (length rest ≤ fuel')%nat →
  _script_GetOp_from fuel rest i = _script_GetOp_from fuel' rest i.
Proof.
  intros Hf Hf'.
  destruct (_script_GetOp_from_props fuel' rest i) as (_ & _ & _ & _ & Hsame).
  by apply Hsame.
Qed.

Lemma _script_GetOp_from_short_push (b tail : bytes) (i fuel : nat) :
  (1 ≤ length b < 76)%nat → (length (b ++ tail) < fuel)%nat →
  _script_GetOp_from fuel (Z_to_byte (Z.of_nat (length b)) :: b ++ tail) i
  = (Z.of_nat (length b), Some b, (i + 1 + length b)%nat)
    :: _script_GetOp_from fuel tail (i + 1 + length b).
Proof.
  intros Hb Hf. destruct fuel as [|fuel]; [lia|].
  match goal with |- _ = _ :: ?r => set (rhs := r) end.
  cbn [_script_GetOp_from]. rewrite byte_to_Z_to_byte, Z.mod_small by lia.
  unfold OP_PUSHDATA4, OP_PUSHDATA1, OP_PUSHDATA2.
  rewrite bool_decide_eq_true_2 by lia. rewrite !bool_decide_eq_false_2 by lia.
  rewrite drop_0, Nat2Z.id, take_app_length, drop_app_length.
  rewrite Nat.add_0_r. f_equal. subst rhs.
  apply _script_GetOp_from_fuel; rewrite length_app in Hf; lia.
Qed.

Lemma _script_GetOp_from_opcode (op : Z) (tail : bytes) (i fuel : nat) :
  OP_PUSHDATA4 < op < 256 → (length tail < fuel)%nat →
  _script_GetOp_from fuel (Z_to_byte op :: tail) i
  = (op, None, (i + 1)%nat) :: _script_GetOp_from fuel tail (i + 1).
Proof.
  intros Hop Hf. destruct fuel as [|fuel]; [lia|]. unfold OP_PUSHDATA4 in Hop.
  match goal with |- _ = _ :: ?r => set (rhs := r) end.
  cbn [_script_GetOp_from]. rewrite byte_to_Z_to_byte, Z.mod_small by lia.
  unfold OP_PUSHDATA4. rewrite bool_decide_eq_false_2 by lia. f_equal. subst rhs.
  apply _script_GetOp_from_fuel; lia.
Qed.

Section WithExternals.
Context `{Externals}.

Lemma _script_GetOp_from_keys (keys : list XPublicKey) :
  ∀ (tail : bytes) (i fuel : nat),
    Forall script_key keys →
    (length (concat (key_item <$> keys) ++ tail) < fuel)%nat →
    ∃ ops i',
      _script_GetOp_from fuel (concat (key_item <$> keys) ++ tail) i
      = ops ++ _script_GetOp_from fuel tail i'
      ∧ Forall2 (λ k (op : Z * option bytes * nat),
                   op.1 = (Z.of_nat (length (raw k)), Some (raw k))) keys ops.
Proof.
  induction keys as [|k keys IH]; intros tail i fuel Hall Hf.
  - exists [], i. by split.
  - apply Forall_cons in Hall as [[Hlen _] Hall].
    rewrite fmap_cons in Hf |- *. cbn [concat] in Hf |- *.
    change (key_item k) with (Z_to_byte (Z.of_nat (length (raw k))) :: raw k) in Hf |- *.
    rewrite <- !app_assoc in Hf |- *. cbn [app] in Hf |- *.
    rewrite _script_GetOp_from_short_push by (cbn [length] in Hf; lia).
    destruct (IH tail (i + 1 + length (raw k))%nat fuel Hall) as (ops & i' & Hops & Hfa).
    { cbn [length] in Hf. rewrite length_app in Hf. lia. }
    rewrite Hops. eexists (_ :: ops), i'. split; [done|]. by constructor.
Qed.

Lemma rmapM_push_items (keys : list XPublicKey) :
  push_item_short → Forall script_key keys →
  rmapM (λ k, rmap push_item (key_object_to_bytes k)) (KeyX <$> keys)
  = Ok (key_item <$> keys).
Proof.
  intros Hitem. induction 1 as [|k keys [Hlen _] _ IH]; [done|].
  cbn [fmap list_fmap rmapM key_object_to_bytes rmap rbind] in *.
  fold (fmap (M:=list) KeyX keys). rewrite IH. cbn [rbind].
  unfold to_bytes, key_item. by rewrite Hitem.
Qed.

Lemma _match_decoded_loop_keys (keys : list XPublicKey)
  (ops decoded : list (Z * option bytes * nat)) (to_match : list Z) :
  Forall script_key keys →
  Forall2 (λ k (op : Z * option bytes * nat),
             op.1 = (Z.of_nat (length (raw k)), Some (raw k))) keys ops →
  _match_decoded_loop (ops ++ decoded) (replicate (length keys) OP_PUSHDATA4 ++ to_match)
  = _match_decoded_loop decoded to_match.
Proof.
  intros Hall Hops. revert Hall.
  induction Hops as [|k op keys ops Hop _ IH]; intros Hall; [done|].
  apply Forall_cons in Hall as [[Hlen _] Hall].
  cbn [length replicate app _match_decoded_loop].
  rewrite Hop. cbn [fst].
  rewrite !bool_decide_eq_true_2 by (done || unfold OP_PUSHDATA4; lia).
  cbn [andb]. by apply IH.
Qed.

Lemma rmapM_keys_back (keys : list XPublicKey) (ops : list (Z * option bytes * nat)) :
  Forall script_key keys →
  Forall2 (λ k (op : Z * option bytes * nat),
             op.1 = (Z.of_nat (length (raw k)), Some (raw k))) keys ops →
  rmapM (λ x : Z * option bytes * nat,
           (let* r := bh2u_item x.1.2 in XPublicKey_init r)%result) ops
  = Ok keys.
Proof.
  intros Hall Hops. revert Hall.
  induction Hops as [|k op keys ops Hop _ IH]; intros Hall; [done|].
  apply Forall_cons in Hall as [[_ [pk Hpk]] Hall].
  match goal with
  | |- rmapM ?f (?a :: ?l) = _ =>
      change (rmapM f (a :: l))
        with (rbind (f a) (λ b, rbind (rmapM f l) (λ bs, Ok (b :: bs))))
  end.
  rewrite IH by done. cbn beta. rewrite Hop. cbn [fst snd bh2u_item rbind].
  unfold XPublicKey_init. destruct k as [r]. cbn [raw] in *. by rewrite Hpk.
Qed.

(** The script that [multisig_script] writes for the keys. *)
Lemma multisig_script_items (keys : list XPublicKey) (m : Z) :
  push_int_small → push_item_short →
  1 ≤ m ≤ Z.of_nat (length keys) → (length keys ≤ 16)%nat →
  Forall script_key keys →
  multisig_script (KeyX <$> keys) m
  = Ok ([Z_to_byte (OP_1 + m - 1)] ++ concat (key_item <$> keys)
        ++ [Z_to_byte (OP_1 + Z.of_nat (length keys) - 1)]
        ++ [Z_to_byte OP_CHECKMULTISIG]).
Proof.
  intros Hint Hitem Hm Hn Hall.
  unfold multisig_script. rewrite length_fmap.
  rewrite bool_decide_eq_true_2 by done.
  rewrite rmapM_push_items by done. cbn [rbind].
  rewrite !Hint by lia. done.
Qed.

(** What [_parse_redeemScript] makes of it. *)
Lemma _parse_redeemScript_items (keys : list XPublicKey) (m : Z) (s : bytes) :
  1 ≤ m ≤ Z.of_nat (length keys) → (length keys ≤ 16)%nat →
  Forall script_key keys →
  multisig_script (KeyX <$> keys) m = Ok s →
  s = [Z_to_byte (OP_1 + m - 1)] ++ concat (key_item <$> keys)
      ++ [Z_to_byte (OP_1 + Z.of_nat (length keys) - 1)]
      ++ [Z_to_byte OP_CHECKMULTISIG] →
  _parse_redeemScript s
  = Ok (Some (m, Z.of_nat (length keys), keys, P2SH_Address (hash_160 s))).
Proof.
  intros Hm Hn Hall Hs ->.
  set (n := Z.of_nat (length keys)) in *.
  set (s := [Z_to_byte (OP_1 + m - 1)] ++ concat (key_item <$> keys)
            ++ [Z_to_byte (OP_1 + n - 1)] ++ [Z_to_byte OP_CHECKMULTISIG]) in *.
  unfold _parse_redeemScript, _script_GetOp.
  assert (Hdec : ∃ ops p1 p2 p3,
    _script_GetOp_from (length s) s 0
    = (OP_1 + m - 1, None, p1) :: ops
      ++ [(OP_1 + n - 1, None, p2); (OP_CHECKMULTISIG, None, p3)]
    ∧ Forall2 (λ k (op : Z * option bytes * nat),
                 op.1 = (Z.of_nat (length (raw k)), Some (raw k))) keys ops).
  { rewrite (_script_GetOp_from_fuel _ (S (length s))) by lia.
    assert (Hlong : length s = (length (concat (key_item <$> keys)) + 3)%nat).
    { unfold s. rewrite !length_app. cbn [length]. lia. }
    unfold s at 2. cbn [app].
    rewrite _script_GetOp_from_opcode
      by (unfold OP_1, OP_PUSHDATA4, n in *; cbn [length]; rewrite ?length_app;
          cbn [length]; lia).
    destruct (_script_GetOp_from_keys keys
                [Z_to_byte (OP_1 + n - 1); Z_to_byte OP_CHECKMULTISIG]
                (0 + 1)%nat (S (length s)) Hall) as (ops & i' & Hops & Hfa).
    { rewrite length_app. cbn [length]. lia. }
    rewrite Hops.
    rewrite _script_GetOp_from_opcode
      by (unfold OP_1, OP_PUSHDATA4, n in *; cbn [length]; lia).
    rewrite _script_GetOp_from_opcode
      by (unfold OP_CHECKMULTISIG, OP_PUSHDATA4; cbn [length]; lia).
    rewrite _script_GetOp_from_nil. eauto 10. }
  destruct Hdec as (ops & p1 & p2 & p3 & -> & Hfa).
  pose proof (Forall2_length _ _ _ Hfa) as Hlen.
  cbn [list_index lookup list_lookup rbind fst].
  unfold list_index_last, list_index. cbn [length]. rewrite length_app. cbn [length].
  rewrite decide_True by lia.
  replace (S (length ops + 2) - 1 - 1)%nat with (S (length ops)) by lia.
  rewrite lookup_cons. rewrite lookup_app_r by lia.
  rewrite Nat.sub_diag. cbn [lookup list_lookup rbind fst].
  replace (OP_1 + m - 1 - OP_1 + 1) with m by lia.
  replace (OP_1 + n - 1 - OP_1 + 1) with n by lia.
  assert (Hmatch : _match_decoded
            ((OP_1 + m - 1, None, p1) :: ops
             ++ [(OP_1 + n - 1, None, p2); (OP_CHECKMULTISIG, None, p3)])
            ([OP_1 + m - 1] ++ replicate (Z.to_nat n) OP_PUSHDATA4
             ++ [OP_1 + n - 1; OP_CHECKMULTISIG]) = true).
  { unfold _match_decoded. rewrite decide_False.
    2:{ cbn [length app]. rewrite !length_app, length_replicate. cbn [length].
        unfold n. lia. }
    cbn [app _match_decoded_loop fst].
    rewrite (bool_decide_eq_false_2 (OP_1 + m - 1 = OP_PUSHDATA4))
      by (unfold OP_1, OP_PUSHDATA4; lia).
    cbn [andb]. rewrite (bool_decide_eq_false_2 (OP_1 + m - 1 ≠ OP_1 + m - 1))
      by (intros Hne; by apply Hne).
    unfold n. rewrite Nat2Z.id.
    rewrite (_match_decoded_loop_keys keys ops) by done.
    cbn [_match_decoded_loop fst].
    rewrite (bool_decide_eq_false_2 (OP_1 + _ - 1 = OP_PUSHDATA4))
      by (unfold OP_1, OP_PUSHDATA4; lia).
    cbn [andb].
    rewrite (bool_decide_eq_false_2 (OP_1 + _ - 1 ≠ OP_1 + _ - 1))
      by (intros Hne; by apply Hne).
    done. }
  rewrite Hmatch. cbn [negb].
  replace (S (length ops + 2) - 3)%nat with (length ops) by lia.
  change (drop 1 (?x :: ?l)) with l. rewrite take_app_length.
  rewrite (rmapM_keys_back keys ops) by done. cbn [rbind].
  rewrite Hs. done.
Qed.

(** X6: for a threshold [m] and up to sixteen keys, each a short item that
    the constructor of [XPublicKey] accepts, [multisig_script] returns a
    script that [_parse_redeemScript] reads back as the same threshold,
    number of keys and keys, with the script-hash address of that very
    script.  The two assumptions are what [bitcoinx] writes for a small
    number and for a short item. *)
Theorem multisig_script_parses_back (keys : list XPublicKey) (m : Z) :
  push_int_small → push_item_short →
  1 ≤ m ≤ Z.of_nat (length keys) → (length keys ≤ 16)%nat →
  Forall script_key keys →
  ∃ s, multisig_script (KeyX <$> keys) m = Ok s
    ∧ _parse_redeemScript s
      = Ok (Some (m, Z.of_nat (length keys), keys, P2SH_Address (hash_160 s))).
Proof.
  intros Hint Hitem Hm Hn Hall.
  pose proof (multisig_script_items keys m Hint Hitem Hm Hn Hall) as Hs.
  eexists. split; [exact Hs|].
  by apply (_parse_redeemScript_items keys m).
Qed.

(** ** The constructor of [XPublicKey] *)

(** X7: the constructor of [XPublicKey] turns the assertion failures of
    [to_public_key] into [ValueError] and never lets one out: a first byte
    that is none of [02], [03], [04], [fd], [fe], [ff], a [ff] key that is
    not 83 bytes long, an [fe] key that is not 69 bytes long and an [fd] key
    whose script is no address are refused with [ValueError]; the empty
    byte string is refused with [IndexError]; and a key that is built holds
    the bytes it was given, which [to_public_key] accepts. *)
Theorem XPublicKey_init_errors (r : bytes) :
  (r = [] → XPublicKey_init r = Raise IndexError)
  ∧ (∀ b rest, r = b :: rest →
       (byte_to_Z b ∉ [2; 3; 4; 253; 254; 255]
        ∨ (byte_to_Z b = 255 ∧ length r ≠ 83%nat)
        ∨ (byte_to_Z b = 254 ∧ length r ≠ 69%nat)
        ∨ (byte_to_Z b = 253 ∧ classify_output_script rest = None)) →
       XPublicKey_init r = Raise ValueError)
  ∧ XPublicKey_init r ≠ Raise AssertionError
  ∧ (∀ x, XPublicKey_init r = Ok x →
       raw x = r ∧ r ≠ [] ∧ ∃ pk, to_public_key x = Ok pk).
Proof.
  split; [|split; [|split]].
  - intros ->. done.
  - intros b rest -> Hcase. unfold XPublicKey_init, to_public_key, kind.
    cbn [raw rbind].
    destruct Hcase as [Hk|[[Hk Hl]|[[Hk Hl]|[Hk Hc]]]].
    + set_unfold in Hk.
      rewrite !bool_decide_eq_false_2 by (set_unfold; lia). done.
    + rewrite Hk.
      rewrite bool_decide_eq_false_2 by (set_unfold; lia).
      rewrite bool_decide_eq_true_2 by done.
      unfold _bip32_public_key, bip32_extended_key_and_path, bip32_extended_key.
      cbn [raw]. by rewrite decide_False.
    + rewrite Hk.
      rewrite bool_decide_eq_false_2 by (set_unfold; lia).
      rewrite bool_decide_eq_false_2 by done.
      rewrite bool_decide_eq_true_2 by done.
      unfold _old_keystore_public_key, old_keystore_mpk_and_path.
      cbn [raw]. by rewrite decide_False.
    + rewrite Hk.
      rewrite bool_decide_eq_false_2 by (set_unfold; lia).
      rewrite !bool_decide_eq_false_2 by done.
      rewrite bool_decide_eq_true_2 by done.
      cbn [raw]. change (drop 1 (b :: rest)) with rest. by rewrite Hc.
  - unfold XPublicKey_init. by destruct (to_public_key _) as [|[]].
  - intros x. unfold XPublicKey_init.
    destruct (to_public_key (mkXPublicKey r)) as [pk|e] eqn:Hpk.
    + intros [= <-]. split; [done|]. split; [|by eexists].
      intros ->. done.
    + by destruct e.
Qed.
(** ** What signing changes *)

Lemma sign_frame_refl (a : TxInput) : sign_frame a a.
Proof. by repeat split. Qed.

Lemma sign_frame_trans (a b c : TxInput) :
  sign_frame a b → sign_frame b c → sign_frame a c.
Proof.
  unfold sign_frame. intros Hab Hbc.
  repeat match goal with H : _ ∧ _ |- _ => destruct H end.
  repeat split; congruence.
Qed.

Lemma tx_frame_refl (tx : Transaction) : tx_frame tx tx.
Proof.
  split; [|done]. apply Forall_Forall2_diag, Forall_forall.
  intros a _. apply sign_frame_refl.
Qed.

Lemma tx_frame_alter (tx0 tx : Transaction) (i : nat) (txin : TxInput)
  (g : TxInput → TxInput) :
  tx_frame tx0 tx → _inputs tx !! i = Some txin → sign_frame txin (g txin) →
  tx_frame tx0 (set_inputs (alter g i (_inputs tx)) tx).
Proof.
  intros (Hin & Hrest) Hi Hg. split; [|done]. cbn [_inputs set_inputs].
  apply Forall2_alter_r; [done|]. intros a b _ Hb Hab.
  rewrite Hi in Hb. injection Hb as <-. by eapply sign_frame_trans.
Qed.

Lemma sign_frame_set_signatures (txin : TxInput) (sigs sigs' : list (option bytes)) :
  signatures txin = Some sigs → length sigs' = length sigs →
  sign_frame txin (set_signatures sigs' txin).
Proof.
  intros Hs Hl. unfold sign_frame. cbn. rewrite Hs. cbn. rewrite Hl.
  by repeat split.
Qed.

Lemma sign_frame_setitem_x_pubkeys (txin : TxInput) (j : nat) (x : XPublicKey) :
  sign_frame txin (setitem_x_pubkeys j x txin).
Proof.
  unfold setitem_x_pubkeys.
  destruct (x_pubkeys txin) as [keys|] eqn:Hk; [|apply sign_frame_refl].
  unfold sign_frame. cbn. rewrite Hk. cbn. rewrite length_insert.
  by repeat split.
Qed.

Lemma list_setitem_length {A : Type} (l l' : list A) (i : nat) (x : A) :
  list_setitem l i x = Ok l' → length l' = length l.
Proof.
  unfold list_setitem. case_decide; [|done]. intros [= <-]. apply length_insert.
Qed.

Lemma sign_x_pubkeys_frame keypairs (i : nat) (num : Z) (rest : list XPublicKey) :
  ∀ (j : nat) (tx tx0 : Transaction) r tx',
    tx_frame tx0 tx → tx_raw tx = tx_raw tx0 →
    sign_x_pubkeys keypairs i num j rest tx = (r, tx') →
    tx_frame tx0 tx' ∧ tx_raw tx' = tx_raw tx0.
Proof.
  induction rest as [|x_pubkey rest IH]; intros j tx tx0 r tx' H0 Hraw Hs.
  - by injection Hs as <- <-.
  - cbn [sign_x_pubkeys] in Hs.
    unfold method_bind, method_self, method_lift, method_ret in Hs.
    unfold list_index in Hs.
    destruct (_inputs tx !! i) as [txin|] eqn:Hi; [|by injection Hs as <- <-].
    destruct (signatures txin) as [x_signatures|] eqn:Hsig;
      cbn [getitem] in Hs; [|by injection Hs as <- <-].
    case_bool_decide; [by injection Hs as <- <-|].
    destruct (keypairs !! x_pubkey) as [[sec compressed]|] eqn:Hkp;
      [|by eapply IH].
    destruct (sign_txin tx i sec) as [sig|]; [|by injection Hs as <- <-].
    destruct (list_setitem x_signatures j (Some sig)) as [sigs'|] eqn:Hset;
      [|by injection Hs as <- <-].
    unfold update_txin in Hs. cbn [fst snd] in Hs.
    set (tx1 := set_inputs (alter (set_signatures sigs') i (_inputs tx)) tx) in *.
    assert (Hf1 : tx_frame tx0 tx1).
    { eapply tx_frame_alter; [done..|].
      eapply sign_frame_set_signatures; [done|]. by eapply list_setitem_length. }
    destruct (kind x_pubkey) as [k|]; [|by injection Hs as <- <-].
    case_bool_decide.
    + destruct (PrivateKey_public_key_bytes sec compressed) as [pb|];
        [|by injection Hs as <- <-].
      destruct (XPublicKey_init pb) as [x|]; [|by injection Hs as <- <-].
      cbn [fst snd] in Hs. eapply IH; [| |exact Hs]; [|done].
      eapply tx_frame_alter; [done| |apply sign_frame_setitem_x_pubkeys].
      cbn [_inputs set_inputs tx1]. by rewrite list_lookup_alter_eq, Hi.
    + by eapply IH.
Qed.

Lemma sign_inputs_frame keypairs (remaining : nat) :
  ∀ (i : nat) (tx tx0 : Transaction) r tx',
    tx_frame tx0 tx → tx_raw tx = tx_raw tx0 →
    sign_inputs keypairs i remaining tx = (r, tx') →
    tx_frame tx0 tx' ∧ tx_raw tx' = tx_raw tx0.
Proof.
  induction remaining as [|remaining IH]; intros i tx tx0 r tx' H0 Hraw Hs.
  - by injection Hs as <- <-.
  - cbn [sign_inputs] in Hs.
    unfold method_bind, method_self, method_lift, list_index in Hs.
    destruct (_inputs tx !! i) as [txin|] eqn:Hi; [|by injection Hs as <- <-].
    destruct (num_sig txin) as [num|]; cbn [getitem] in Hs;
      [|by injection Hs as <- <-].
    destruct (x_pubkeys txin) as [keys|] eqn:Hkeys; cbn [getitem] in Hs;
      [|by injection Hs as <- <-].
    destruct (sign_x_pubkeys keypairs i num 0 keys tx) as [r1 tx1] eqn:Hinner.
    destruct (sign_x_pubkeys_frame _ _ _ _ _ _ _ _ _ H0 Hraw Hinner) as [Hf1 Hraw1].
    destruct r1 as [[]|e]; [|by injection Hs as <- <-].
    by eapply IH.
Qed.

Lemma sign_x_pubkeys_no_key keypairs (i : nat) (num : Z) (rest : list XPublicKey) :
  ∀ (j : nat) (tx : Transaction) r tx',
    Forall (λ x, keypairs !! x = None) rest →
    sign_x_pubkeys keypairs i num j rest tx = (r, tx') → tx' = tx.
Proof.
  induction rest as [|x_pubkey rest IH]; intros j tx r tx' Hnone Hs.
  - by injection Hs as <- <-.
  - apply Forall_cons in Hnone as [Hx Hnone].
    cbn [sign_x_pubkeys] in Hs.
    unfold method_bind, method_self, method_lift, method_ret in Hs.
    unfold list_index in Hs.
    destruct (_inputs tx !! i) as [txin|]; [|by injection Hs as <- <-].
    destruct (signatures txin) as [x_signatures|];
      cbn [getitem] in Hs; [|by injection Hs as <- <-].
    case_bool_decide; [by injection Hs as <- <-|].
    rewrite Hx in Hs. by eapply IH.
Qed.

Lemma sign_inputs_no_key keypairs (remaining : nat) :
  ∀ (i : nat) (tx : Transaction) r tx',
    (∀ x, keypairs !! x = None) →
    sign_inputs keypairs i remaining tx = (r, tx') → tx' = tx.
Proof.
  induction remaining as [|remaining IH]; intros i tx r tx' Hnone Hs.
  - by injection Hs as <- <-.
  - cbn [sign_inputs] in Hs.
    unfold method_bind, method_self, method_lift, list_index in Hs.
    destruct (_inputs tx !! i) as [txin|]; [|by injection Hs as <- <-].
    destruct (num_sig txin) as [num|]; cbn [getitem] in Hs;
      [|by injection Hs as <- <-].
    destruct (x_pubkeys txin) as [keys|]; cbn [getitem] in Hs;
      [|by injection Hs as <- <-].
    destruct (sign_x_pubkeys keypairs i num 0 keys tx) as [r1 tx1] eqn:Hinner.
    apply sign_x_pubkeys_no_key in Hinner as ->.
    2:{ apply Forall_forall. intros x _. apply Hnone. }
    destruct r1 as [[]|e]; [|by injection Hs as <- <-].
    by eapply IH.
Qed.

Lemma serialize_set_tx_raw (tx : Transaction) (raw : option bytes) (est : bool) :
  serialize (set_tx_raw raw tx) est = serialize tx est.
Proof. done. Qed.

(** X8: whatever its outcome, [sign] leaves of every input all fields but
    the keys and the signature slots, whose numbers it keeps, and leaves
    the outputs, the lock time and the version; when it fails, the stored
    serialization is the one before the call; when it returns, the stored
    serialization is that of the transaction it leaves; and without a
    private key it changes no input. *)
Theorem sign_changes_only_slots (keypairs : gmap XPublicKey (bytes * bool))
  (tx tx' : Transaction) (r : result unit) :
  sign keypairs tx = (r, tx') →
  tx_frame tx tx'
  ∧ (∀ e, r = Raise e → tx_raw tx' = tx_raw tx)
  ∧ (r = Ok () → ∃ raw, tx_raw tx' = Some raw ∧ serialize tx' false = Ok raw)
  ∧ (keypairs = ∅ → _inputs tx' = _inputs tx).
Proof.
  unfold sign, method_bind, method_self, method_lift, method_set. intros Hs.
  destruct (sign_inputs keypairs 0 (length (_inputs tx)) tx) as [r1 tx1] eqn:Hin.
  destruct (sign_inputs_frame _ _ _ _ _ _ _ (tx_frame_refl tx) eq_refl Hin)
    as [Hf1 Hraw1].
  assert (Hempty : keypairs = ∅ → tx1 = tx).
  { intros ->. eapply sign_inputs_no_key; [|exact Hin]. intros x. apply lookup_empty. }
  destruct r1 as [[]|e1].
  2:{ injection Hs as <- <-. split; [done|]. split; [done|]. split; [done|].
      intros He. by rewrite Hempty. }
  destruct (is_complete tx1) as [c|e2].
  2:{ injection Hs as <- <-. split; [done|]. split; [done|]. split; [done|].
      intros He. by rewrite Hempty. }
  cbn [fst snd] in Hs.
  destruct (serialize tx1 false) as [raw|e3] eqn:Hser.
  2:{ injection Hs as <- <-. split; [done|]. split; [done|]. split; [done|].
      intros He. by rewrite Hempty. }
  injection Hs as <- <-. split; [exact Hf1|]. split; [done|]. split.
  - intros _. exists raw. split; [done|]. by rewrite serialize_set_tx_raw.
  - intros He. cbn [_inputs set_tx_raw]. by rewrite Hempty.
Qed.
(** ** What [update_signatures] changes *)

(** The change of one pass of the loop over the inputs. *)
Lemma add_signature_to_txin_frame (i j : nat) (sig : bytes) (tx tx' : Transaction) r :
  add_signature_to_txin i j sig tx = (r, tx') →
  _outputs tx' = _outputs tx ∧ locktime tx' = locktime tx ∧ version tx' = version tx
  ∧ (_inputs tx' = _inputs tx
     ∨ ∃ a sigs,
         _inputs tx !! i = Some a ∧ signatures a = Some sigs ∧ (j < length sigs)%nat
         ∧ _inputs tx'
           = <[i:=set_scriptSig None (set_signatures (<[j:=Some sig]> sigs) a)]>
               (_inputs tx)).
Proof.
  unfold add_signature_to_txin, method_bind, method_self, method_lift, method_set,
    update_txin, list_index.
  intros Hs.
  destruct (_inputs tx !! i) as [a|] eqn:Hi; [|injection Hs as <- <-; auto].
  destruct (signatures a) as [sigs|] eqn:Hsig; cbn [getitem] in Hs;
    [|injection Hs as <- <-; auto].
  unfold list_setitem in Hs. case_decide as Hj; [|injection Hs as <- <-; auto].
  cbn [fst snd] in Hs. injection Hs as <- <-. cbn.
  split; [done|]. split; [done|]. split; [done|]. right.
  exists a, sigs. split; [done|]. split; [done|]. split; [done|].
  exact (alter_lookup_insert
           (λ txin, set_scriptSig None (set_signatures (<[j:=Some sig]> sigs) txin))
           i _ a Hi).
Qed.

Lemma try_recids_frame (i : nat) (sig : bytes) pubkeys (pre_hash rec_sig_base : bytes)
  (recids : list Z) (tx tx' : Transaction) r :
  try_recids i sig pubkeys pre_hash rec_sig_base recids tx = (r, tx') →
  _outputs tx' = _outputs tx ∧ locktime tx' = locktime tx ∧ version tx' = version tx
  ∧ (_inputs tx' = _inputs tx
     ∨ ∃ a sigs j,
         _inputs tx !! i = Some a ∧ signatures a = Some sigs ∧ (j < length sigs)%nat
         ∧ _inputs tx'
           = <[i:=set_scriptSig None (set_signatures (<[j:=Some sig]> sigs) a)]>
               (_inputs tx)).
Proof.
  induction recids as [|recid recids IH]; cbn [try_recids].
  { intros [= <- <-]. auto. }
  destruct (from_recoverable_signature _ _) as [public_key|e].
  - destruct (pubkeys_index public_key pubkeys) as [j|]; [|done].
    destruct (verify_recoverable_signature _ _ _) as [ok|]; [|done].
    intros Hadd. apply add_signature_to_txin_frame in Hadd
      as (Ho & Hl & Hv & [Hin|(a & sigs & Ha & Hsig & Hj & Hin)]); [auto|].
    split; [done|]. split; [done|]. split; [done|]. right. by exists a, sigs, j.
  - destruct e; try done; intros [= <- <-]; auto.
Qed.

Lemma update_signatures_txin_frame (i : nat) (signature : bytes)
  (tx tx' : Transaction) r :
  update_signatures_txin i signature tx = (r, tx') →
  _outputs tx' = _outputs tx ∧ locktime tx' = locktime tx ∧ version tx' = version tx
  ∧ (_inputs tx' = _inputs tx
     ∨ ∃ a b, _inputs tx !! i = Some a ∧ updated_by signature a b
         ∧ _inputs tx' = <[i:=b]> (_inputs tx)).
Proof.
  unfold update_signatures_txin, method_bind, method_self, method_lift, method_ret,
    list_index.
  intros Hs.
  destruct (_inputs tx !! i) as [a|] eqn:Hi; [|injection Hs as <- <-; auto].
  destruct (signatures a) as [sigs|] eqn:Hsig; [|injection Hs as <- <-; auto].
  case_bool_decide; [injection Hs as <- <-; auto|].
  destruct (x_pubkeys a) as [keys|]; cbn [getitem] in Hs;
    [|injection Hs as <- <-; auto].
  destruct (rmapM to_public_key keys) as [pubkeys|]; [|injection Hs as <- <-; auto].
  destruct (preimage_hash tx i) as [pre_hash|]; [|injection Hs as <- <-; auto].
  destruct (der_signature_to_compact signature) as [base|];
    [|injection Hs as <- <-; auto].
  cbn [fst snd] in Hs.
  apply try_recids_frame in Hs
    as (Ho & Hl & Hv & [Hin|(a' & sigs' & j & Ha & Hsig' & Hj & Hin)]); [auto|].
  split; [done|]. split; [done|]. split; [done|].
  rewrite Hi in Ha. injection Ha as <-. rewrite Hsig in Hsig'. injection Hsig' as <-.
  right. eexists a, _. split; [done|]. split; [|exact Hin].
  right. by exists sigs, j.
Qed.

Lemma update_signatures_inputs_frame (rest : list bytes) :
  ∀ (i : nat) (tx tx' : Transaction) r,
    update_signatures_inputs i rest tx = (r, tx') →
    _outputs tx' = _outputs tx ∧ locktime tx' = locktime tx ∧ version tx' = version tx
    ∧ length (_inputs tx') = length (_inputs tx)
    ∧ ∀ k a b, _inputs tx !! k = Some a → _inputs tx' !! k = Some b →
        b = a ∨ ((i ≤ k)%nat ∧ ∃ s, rest !! (k - i)%nat = Some s ∧ updated_by s a b).
Proof.
  induction rest as [|signature rest IH]; intros i tx tx' r; cbn [update_signatures_inputs].
  { intros [= <- <-]. repeat split; try done. intros k a b Ha Hb. left. congruence. }
  unfold method_bind.
  destruct (update_signatures_txin i signature tx) as [r1 tx1] eqn:Hstep.
  apply update_signatures_txin_frame in Hstep as (Ho & Hl & Hv & Hin).
  assert (Hone : length (_inputs tx1) = length (_inputs tx)
    ∧ ∀ k a b, _inputs tx !! k = Some a → _inputs tx1 !! k = Some b →
        b = a ∨ (k = i ∧ updated_by signature a b)).
  { destruct Hin as [Hin|(a0 & b0 & Ha0 & Hup & Hin)]; rewrite Hin.
    - split; [done|]. intros k a b Ha Hb. left. congruence.
    - split; [apply length_insert|]. intros k a b Ha Hb.
      destruct (decide (k = i)) as [->|Hne].
      + rewrite list_lookup_insert_eq in Hb by by eapply lookup_lt_Some.
        injection Hb as <-. rewrite Ha0 in Ha. injection Ha as <-. auto.
      + rewrite list_lookup_insert_ne in Hb by done. left. congruence. }
  destruct Hone as [Hlen1 Hone].
  destruct r1 as [[]|e].
  2:{ intros [= <- <-]. split; [done|]. split; [done|]. split; [done|].
      split; [done|]. intros k a b Ha Hb.
      destruct (Hone k a b Ha Hb) as [|[-> Hup]]; [by left|].
      right. split; [done|]. exists signature. by rewrite Nat.sub_diag. }
  intros Hrest. apply IH in Hrest as (Ho' & Hl' & Hv' & Hlen' & Hall).
  split; [congruence|]. split; [congruence|]. split; [congruence|].
  split; [congruence|]. intros k a b Ha Hb.
  destruct (_inputs tx1 !! k) as [a1|] eqn:Ha1.
  2:{ apply lookup_ge_None in Ha1. apply lookup_lt_Some in Ha. lia. }
  destruct (Hone k a a1 Ha Ha1) as [->|[-> Hup]].
  - destruct (Hall k a b Ha1 Hb) as [|(Hk & s & Hs & Hup)]; [by left|].
    right. split; [lia|]. exists s. split; [|done].
    replace (k - i)%nat with (S (k - S i)) by lia. done.
  - destruct (Hall i a1 b Ha1 Hb) as [->|(Hk & _)]; [|lia].
    right. split; [done|]. exists signature. by rewrite Nat.sub_diag.
Qed.

(** X9: whatever its outcome, [update_signatures] leaves the outputs, the
    lock time, the version and the number of inputs; and input [i] is as
    it was, or has one slot set to [signatures[i]] followed by the hash
    type and its stored script dropped: no other field, no other text and
    no key reaches an input. *)
Theorem update_signatures_changes_only_slots (signatures : list bytes)
  (tx tx' : Transaction) (r : result unit) :
  update_signatures signatures tx = (r, tx') →
  _outputs tx' = _outputs tx ∧ locktime tx' = locktime tx ∧ version tx' = version tx
  ∧ length (_inputs tx') = length (_inputs tx)
  ∧ ∀ i a b, _inputs tx !! i = Some a → _inputs tx' !! i = Some b →
      b = a ∨ ∃ s, signatures !! i = Some s ∧ updated_by s a b.
Proof.
  unfold update_signatures, method_bind, method_self, method_lift, method_ret,
    method_set.
  intros Hs.
  assert (Hsame : tx' = tx →
    _outputs tx' = _outputs tx ∧ locktime tx' = locktime tx ∧ version tx' = version tx
    ∧ length (_inputs tx') = length (_inputs tx)
    ∧ ∀ i a b, _inputs tx !! i = Some a → _inputs tx' !! i = Some b →
        b = a ∨ ∃ s, signatures !! i = Some s ∧ updated_by s a b).
  { intros ->. repeat split; try done. intros i a b Ha Hb. left. congruence. }
  destruct (is_complete tx) as [[]|]; [by injection Hs as <- <-; auto..| |
    by injection Hs as <- <-; auto].
  cbn [fst snd] in Hs.
  case_decide; [by injection Hs as <- <-; auto|].
  destruct (update_signatures_inputs 0 signatures tx) as [r1 tx1] eqn:Hloop.
  apply update_signatures_inputs_frame in Hloop as (Ho & Hl & Hv & Hlen & Hall).
  assert (Hres : ∀ i a b, _inputs tx !! i = Some a → _inputs tx1 !! i = Some b →
            b = a ∨ ∃ s, signatures !! i = Some s ∧ updated_by s a b).
  { intros i a b Ha Hb. destruct (Hall i a b Ha Hb) as [|(_ & s & Hs' & Hup)]; [by left|].
    right. exists s. by rewrite Nat.sub_0_r in Hs'. }
  destruct r1 as [[]|e]; [|by injection Hs as <- <-].
  cbn [fst snd] in Hs.
  destruct (serialize tx1 false) as [raw|]; injection Hs as <- <-; done.
Qed.
(** ** What [_parse_input] returns *)

Lemma _parse_redeemScript_threshold (s : bytes) (m n : Z) (keys : list XPublicKey)
  (a : Address) :
  _parse_redeemScript s = Ok (Some (m, n, keys, a)) → 1 ≤ m ≤ Z.of_nat (length keys).
Proof.
  unfold _parse_redeemScript. intros Hp.
  destruct (list_index _ 0) as [first|]; [|done]. cbn [rbind] in Hp.
  destruct (list_index_last _ 1) as [before_last|]; [|done]. cbn [rbind] in Hp.
  destruct (negb _); [done|].
  destruct (rmapM _ _) as [x_pubkeys|]; [|done]. cbn [rbind] in Hp.
  destruct (multisig_script _ _) as [script|] eqn:Hm; [|done]. cbn [rbind] in Hp.
  injection Hp as <- _ <- _.
  unfold multisig_script in Hm. case_bool_decide as Hr; [|done].
  by rewrite length_fmap in Hr.
Qed.

Lemma XPublicKey_init_Ok (r : bytes) (x : XPublicKey) :
  XPublicKey_init r = Ok x → ∃ pk, to_public_key x = Ok pk.
Proof.
  unfold XPublicKey_init.
  destruct (to_public_key (mkXPublicKey r)) as [pk|e] eqn:Hpk.
  - intros [= <-]. by exists pk.
  - by destruct e.
Qed.

Lemma _parse_scriptSig_classified (d d' : TxInput) (s : bytes) :
  _parse_scriptSig d s = Ok d' → classified d d'.
Proof.
  unfold _parse_scriptSig, classified. intros Hp.
  destruct (_match_decoded _ [OP_PUSHDATA4]).
  { destruct (list_index _ 0) as [first|]; [|done]. cbn [rbind] in Hp.
    destruct (bh2u_item _) as [item|]; [|done]. cbn [rbind] in Hp.
    injection Hp as <-. right. left. by exists item. }
  destruct (_match_decoded _ [OP_PUSHDATA4; OP_PUSHDATA4]).
  { destruct (list_index _ 0) as [first|]; [|done]. cbn [rbind] in Hp.
    destruct (bh2u_item _) as [sig|]; [|done]. cbn [rbind] in Hp.
    destruct (list_index _ 1) as [second|]; [|done]. cbn [rbind] in Hp.
    destruct (bh2u_item _) as [key|]; [|done]. cbn [rbind] in Hp.
    destruct (XPublicKey_init key) as [x_pubkey|] eqn:Hinit; [|done].
    cbn [rbind] in Hp.
    destruct (to_address x_pubkey) as [address|]; injection Hp as <-; [|by left].
    right. right. left. eexists _, x_pubkey, address. split; [done|].
    by eapply XPublicKey_init_Ok. }
  destruct (negb _); [injection Hp as <-; by left|].
  destruct (rmapM _ _) as [x_sig|]; [|done]. cbn [rbind] in Hp.
  destruct (list_index_last _ 0) as [last|]; [|done]. cbn [rbind] in Hp.
  destruct (bh2u_item _) as [redeem|]; [|done]. cbn [rbind] in Hp.
  destruct (_parse_redeemScript redeem) as [[[[[m n] keys] a]|]|] eqn:Hr; [|done..].
  cbn [rbind] in Hp. injection Hp as <-. right. right. right.
  eexists _, keys, m, a. split; [done|]. by eapply _parse_redeemScript_threshold.
Qed.

Lemma _read_num_unsigned_range (format : struct_format) (vds vds' : BCDataStream)
  (z : Z) :
  format ∈ [fmt_H; fmt_I; fmt_Q] →
  _read_num format vds = Ok (z, vds') → 0 ≤ z < 256 ^ Z.of_nat (calcsize format).
Proof.
  intros Hf Hr. unfold _read_num in Hr. case_decide as Hlen; [|done].
  injection Hr as <- <-.
  pose proof (le_value_range (take (calcsize format)
                (drop (read_cursor vds) (input vds)))) as Hrange.
  rewrite length_take, length_drop in Hrange.
  rewrite Nat.min_l in Hrange by lia.
  set_unfold in Hf. destruct Hf as [->|[->|[->|[]]]]; exact Hrange.
Qed.

Lemma read_input_prefix_fields (vds vds1 : BCDataStream) (pb script : bytes) (n q : Z) :
  read_input_prefix vds = Ok ((pb, n, script, q), vds1) →
  length pb = 32%nat ∧ 0 ≤ n < 2 ^ 32 ∧ 0 ≤ q < 2 ^ 32.
Proof.
  unfold read_input_prefix, reader_bind, reader_ret. intros Hp.
  destruct (read_bytes 32 vds) as [[pb' s1]|] eqn:E1; [|done].
  destruct (read_uint32 s1) as [[n' s2]|] eqn:E2; [|done].
  destruct (read_compact_size s2) as [[len s3]|] eqn:E3; [|done].
  destruct (read_bytes len s3) as [[script' s4]|] eqn:E4; [|done].
  destruct (read_uint32 s4) as [[q' s5]|] eqn:E5; [|done].
  injection Hp as -> -> -> -> ->.
  split; [|split].
  - unfold read_bytes in E1. injection E1 as <- <-.
    unfold read_uint32, _read_num in E2. cbn [input read_cursor calcsize] in E2.
    case_decide as Hlen; [|done].
    rewrite length_take, length_drop. change (Z.to_nat 32) with 32%nat in *. lia.
  - apply (_read_num_unsigned_range fmt_I) in E2; [done|set_solver].
  - apply (_read_num_unsigned_range fmt_I) in E5; [done|set_solver].
Qed.

Lemma _parse_input_forms (vds vds' : BCDataStream) (d : TxInput) :
  _parse_input vds = Ok (d, vds') →
  ∃ pb n script q vds1,
    read_input_prefix vds = Ok ((pb, n, script, q), vds1)
    ∧ ((hash_to_hex_str pb = replicate 32 x00
        ∧ d = mkTxInput (Some coinbase) (Some (hash_to_hex_str pb)) (Some n) (Some q)
                None None None (Some UnknownAddress) None (Some (Some script)) None
        ∧ vds' = vds1)
       ∨ (hash_to_hex_str pb ≠ replicate 32 x00
          ∧ ∃ d1, classified (unclassified (hash_to_hex_str pb) n script q) d1
              ∧ ((is_txin_complete d1 = Ok true ∧ d = d1 ∧ vds' = vds1)
                 ∨ (is_txin_complete d1 = Ok false
                    ∧ ∃ v, read_uint64 vds1 = Ok (v, vds') ∧ d = set_value v d1)))).
Proof.
  unfold _parse_input, read_input_prefix, reader_bind, reader_ret, reader_lift.
  intros Hp.
  destruct (read_bytes 32 vds) as [[pb s1]|] eqn:E1; [|done].
  destruct (read_uint32 s1) as [[n s2]|] eqn:E2; [|done].
  destruct (read_compact_size s2) as [[len s3]|] eqn:E3; [|done].
  destruct (read_bytes len s3) as [[script s4]|] eqn:E4; [|done].
  destruct (read_uint32 s4) as [[q s5]|] eqn:E5; [|done].
  exists pb, n, script, q, s5. split; [done|].
  destruct (decide (hash_to_hex_str pb = replicate 32 x00)) as [Hz|Hz].
  - left. by injection Hp as <- <-.
  - right. split; [done|].
    fold (unclassified (hash_to_hex_str pb) n script q) in Hp.
    destruct (_parse_scriptSig _ script) as [d1|] eqn:Hs; [|done].
    exists d1. split; [by eapply _parse_scriptSig_classified|].
    destruct (is_txin_complete d1) as [[]|] eqn:Hc; [| |done]; cbn [negb] in Hp.
    + left. by injection Hp as <- <-.
    + right. split; [done|].
      destruct (read_uint64 s5) as [[v s6]|]; [|done].
      injection Hp as <- <-. by exists v.
Qed.

Ltac shape_fields :=
  unfold parsed_shape; cbn;
  repeat match goal with
         | |- _ ∧ _ => split
         | |- ∃ _, _ => eexists
         | |- _ = _ => reflexivity
         end;
  first [done | lia].

(** X10: an input that [_parse_input] returns has a previous output of 32
    bytes, an output number and a sequence number below [2**32], its
    script, and a kind; by kind: a coinbase has no keys, slots, threshold
    or value; an input that was not recognised has no keys, no slots, the
    threshold zero and no value; a pay-to-public-key input has one slot,
    no key and the threshold one; a pay-to-public-key-hash input has one
    key, one slot and the threshold one; a script-hash input has a
    threshold from one to its number of keys. *)
Theorem _parse_input_shape (vds vds' : BCDataStream) (d : TxInput) :
  _parse_input vds = Ok (d, vds') → parsed_shape d.
Proof.
  intros Hp.
  destruct (_parse_input_forms _ _ _ Hp) as (pb & n & script & q & vds1 & Hpre & Hd).
  destruct (read_input_prefix_fields _ _ _ _ _ _ Hpre) as (Hpb & Hn & Hq).
  assert (Hh : length (hash_to_hex_str pb) = 32%nat)
    by (unfold hash_to_hex_str; by rewrite length_reverse).
  destruct Hd as [(_ & -> & _)|(_ & d1 & Hclass & Hd)].
  { shape_fields. }
  assert (Hshape : parsed_shape d1 ∧ type d1 ≠ Some coinbase
    ∧ (is_txin_complete d1 = Ok false → type d1 ≠ Some unknown)).
  { destruct Hclass as [->|[(item & ->)|[(slot & k & a & -> & _)|
                         (slots & keys & m & a & -> & Hm)]]];
      (split; [shape_fields|]); done. }
  destruct Hshape as (Hs1 & Hcb & Hunk).
  destruct Hd as [(_ & -> & _)|(Hc & v & _ & ->)]; [done|].
  specialize (Hunk Hc). unfold parsed_shape in *. cbn.
  destruct Hs1 as (H1 & H2 & H3 & H4 & H5 & H6).
  repeat (split; [done|]).
  by destruct (type d1) as [[]|].
Qed.
(** ** Values and fees *)

Lemma foldl_add_sumZ (l : list Z) (acc : Z) : foldl Z.add acc l = acc + sumZ l.
Proof.
  revert acc. induction l as [|z l IH]; intros acc; cbn [foldl sumZ]; [lia|].
  rewrite IH. lia.
Qed.

Lemma rmapM_value_Ok (inputs : list TxInput) (values : list Z) :
  Forall2 (λ x v, value x = Some v) inputs values →
  rmapM (λ x, getitem "value" (value x)) inputs = Ok values.
Proof.
  induction 1 as [|x v inputs values Hv _ IH]; [done|].
  cbn [rmapM]. rewrite Hv, IH. done.
Qed.

Lemma rmapM_value_missing (inputs : list TxInput) :
  Exists (λ x, value x = None) inputs →
  rmapM (λ x, getitem "value" (value x)) inputs = Raise (KeyError "value").
Proof.
  induction inputs as [|x inputs IH]; intros Hex; [by apply Exists_nil in Hex|].
  cbn [rmapM]. destruct (value x) as [v|] eqn:Hv; [|done]. cbn [getitem rbind].
  apply Exists_cons in Hex as [Hx|Hex]; [congruence|]. by rewrite IH.
Qed.

Lemma classified_value (d d' : TxInput) : classified d d' → value d' = value d.
Proof.
  intros [->|[(item & ->)|[(slot & k & a & -> & _)|(slots & keys & m & a & -> & _)]]];
    done.
Qed.

Lemma classified_type (d d' : TxInput) :
  classified d d' → type d ≠ Some coinbase → type d' ≠ Some coinbase.
Proof.
  intros [->|[(item & ->)|[(slot & k & a & -> & _)|(slots & keys & m & a & -> & _)]]];
    done.
Qed.

Lemma _parse_input_value (vds vds' : BCDataStream) (d : TxInput) :
  _parse_input vds = Ok (d, vds') →
  (value d = None ↔ type d = Some coinbase ∨ is_txin_complete d = Ok true).
Proof.
  intros Hp.
  destruct (_parse_input_forms _ _ _ Hp) as (pb & n & script & q & vds1 & _ & Hd).
  destruct Hd as [(_ & -> & _)|(_ & d1 & Hclass & Hd)]; [by split; auto|].
  pose proof (classified_value _ _ Hclass) as Hv.
  pose proof (classified_type _ _ Hclass ltac:(done)) as Ht.
  destruct Hd as [(Hc & -> & _)|(Hc & v & _ & ->)].
  - split; [by auto|]. intros _. by rewrite Hv.
  - split; [done|]. intros [Hcb|Hc']; [done|].
    rewrite is_txin_complete_set_value in Hc'. congruence.
Qed.

Lemma read_times_Forall {A : Type} (P : A → Prop) (f : Reader A) (n : nat) :
  (∀ vds a vds', f vds = Ok (a, vds') → P a) →
  ∀ vds l vds', read_times n f vds = Ok (l, vds') → Forall P l ∧ length l = n.
Proof.
  intros Hf. induction n as [|n IH]; intros vds l vds'; cbn [read_times].
  - intros [= <- <-]. by split.
  - unfold reader_bind, reader_ret.
    destruct (f vds) as [[a s1]|] eqn:Ha; [|done].
    destruct (read_times n f s1) as [[l' s2]|] eqn:Hl; [|done].
    intros [= <- <-]. destruct (IH _ _ _ Hl) as [Hall Hlen].
    split; [constructor; [by eapply Hf|done]|by rewrite <- Hlen].
Qed.

Lemma read_compact_size_nonneg (vds vds' : BCDataStream) (z : Z) :
  read_compact_size vds = Ok (z, vds') → 0 ≤ z.
Proof.
  unfold read_compact_size.
  destruct (input vds !! read_cursor vds) as [b|]; [|done].
  repeat case_bool_decide.
  - intros Hr. apply (_read_num_unsigned_range fmt_H) in Hr; [lia|set_solver].
  - intros Hr. apply (_read_num_unsigned_range fmt_I) in Hr; [lia|set_solver].
  - intros Hr. apply (_read_num_unsigned_range fmt_Q) in Hr; [lia|set_solver].
  - intros [= <- <-]. apply byte_to_Z_range.
Qed.

Lemma deserialize_inputs (raw : bytes) (d : Deserialized) :
  deserialize raw = Ok d →
  d_inputs d ≠ []
  ∧ Forall (λ x, ∃ vds vds', _parse_input vds = Ok (x, vds')) (d_inputs d).
Proof.
  unfold deserialize, deserialize_stream, reader_bind, reader_ret, reader_raise.
  destruct (read_int32 _) as [[v s1]|]; [|done].
  destruct (read_compact_size s1) as [[n_vin s2]|] eqn:Hn; [|done].
  case_decide as Hz; [done|].
  destruct (read_times _ _parse_input s2) as [[inputs s3]|] eqn:Hin; [|done].
  destruct (read_list _ s3) as [[outputs s4]|]; [|done].
  destruct (read_uint32 s4) as [[l s5]|]; [|done].
  cbn [rmap fst]. intros [= <-]. cbn [d_inputs].
  apply read_compact_size_nonneg in Hn.
  apply (read_times_Forall
           (λ x, ∃ vds vds', _parse_input vds = Ok (x, vds'))) in Hin as [Hall Hlen];
    [|by eauto].
  split; [|done]. intros ->. cbn [length] in Hlen. lia.
Qed.

(** X11: [get_fee] is the sum of the values of the inputs less the sum of
    the values of the outputs when every input has a value, and raises
    [KeyError] for ['value'] when one has none; so it raises for every
    transaction whose inputs are those that [deserialize] returned when
    each of them is a coinbase or complete, such inputs being read without
    a value. *)
Theorem get_fee_needs_every_value (tx : Transaction) :
  (∀ values, Forall2 (λ x v, value x = Some v) (_inputs tx) values →
     get_fee tx = Ok (sumZ values - sumZ (out_value <$> _outputs tx)))
  ∧ (Exists (λ x, value x = None) (_inputs tx) →
     get_fee tx = Raise (KeyError "value"))
  ∧ (∀ raw d, deserialize raw = Ok d → _inputs tx = d_inputs d →
       Forall (λ x, type x = Some coinbase ∨ is_txin_complete x = Ok true)
         (_inputs tx) →
       get_fee tx = Raise (KeyError "value")).
Proof.
  assert (Hmissing : Exists (λ x, value x = None) (_inputs tx) →
                     get_fee tx = Raise (KeyError "value")).
  { intros Hex. unfold get_fee, input_value. by rewrite rmapM_value_missing. }
  split; [|split; [done|]].
  - intros values Hall. unfold get_fee, input_value, output_value.
    rewrite (rmapM_value_Ok _ _ Hall). cbn [rbind].
    rewrite !foldl_add_sumZ. f_equal.
  - intros raw d Hd Hin Hall. apply Hmissing. rewrite Hin in Hall |- *.
    destruct (deserialize_inputs _ _ Hd) as [Hne Hparsed].
    destruct (d_inputs d) as [|x inputs]; [done|].
    apply Exists_cons_hd.
    apply Forall_cons in Hall as [Hx _].
    apply Forall_cons in Hparsed as [(vds & vds' & Hp) _].
    by apply (_parse_input_value _ _ _ Hp).
Qed.
(** ** Completeness of inputs and of the transaction *)

Lemma complete_on_its_own_satisfied (txin : TxInput) :
  complete_on_its_own txin → type txin ≠ Some coinbase → input_satisfied txin.
Proof.
  intros [_ Hc] Hne. destruct (Hc Hne) as [[n Hn] Hcomplete].
  unfold is_txin_complete in Hcomplete. unfold input_satisfied, present_count,
    required_count.
  rewrite Hn in Hcomplete |- *.
  destruct (signatures txin) as [sigs|]; [|done].
  cbn [getitem rbind from_option id] in *. injection Hcomplete as Hb.
  by apply bool_decide_eq_true_1 in Hb.
Qed.

(** X12: when every input that is not a coinbase has its threshold and is
    complete for [is_txin_complete], the transaction is complete for
    [is_complete]; the two read a missing threshold differently (as one and
    as minus one), so that a lone input without ['num_sig'] that
    [is_txin_complete] accepts makes [is_complete] false. *)
Theorem txin_complete_implies_complete (tx : Transaction) :
  (Forall complete_on_its_own (_inputs tx) → is_complete tx = Ok true)
  ∧ (∀ txin t, _inputs tx = [txin] → type txin = Some t → t ≠ coinbase →
       num_sig txin = None → is_txin_complete txin = Ok true →
       is_complete tx = Ok false).
Proof.
  split.
  - intros Hall. unfold is_complete, signature_count.
    rewrite signature_count_loop_totals.
    2:{ eapply Forall_impl; [exact Hall|]. by intros txin [Ht _]. }
    cbn [rbind]. f_equal. apply bool_decide_eq_true_2.
    unfold total_required, total_present. rewrite !Z.add_0_l. symmetry.
    apply sumZ_satisfied, Forall_non_coinbase.
    eapply Forall_impl; [exact Hall|]. intros txin Hc.
    by apply complete_on_its_own_satisfied.
  - intros txin t Hin Ht Hne Hnum Hc.
    unfold is_complete, signature_count. rewrite Hin.
    cbn [signature_count_loop]. rewrite Ht. cbn [getitem rbind].
    rewrite decide_False by done. cbn [signature_count_loop rbind].
    unfold is_txin_complete in Hc. rewrite Hnum in Hc |- *.
    destruct (signatures txin) as [sigs|]; [|done].
    cbn [getitem rbind from_option id] in *. injection Hc as Hb.
    apply bool_decide_eq_true_1 in Hb. f_equal.
    apply bool_decide_eq_false_2. lia.
Qed.

(** ** Size estimation *)

(** X13: the estimated size of an input reads neither its signature
    slots nor its value: it is the same before and after signing, and
    whether or not the spent amount is known. *)
Theorem estimated_input_size_ignores_signatures (txin : TxInput)
  (slots : option (list (option bytes))) (v : option Z) :
  estimated_input_size (with_value v (with_signatures slots txin))
  = estimated_input_size txin.
Proof.
  unfold estimated_input_size.
  assert (Hscript : input_script (with_value v (with_signatures slots txin)) true
                    = input_script txin true) by done.
  rewrite Hscript.
  destruct (input_script txin true) as [script|]; [|done]. cbn [rbind].
  unfold serialize_input.
  change (serialize_outpoint (with_value v (with_signatures slots txin)))
    with (serialize_outpoint txin).
  change (get_sequence (with_value v (with_signatures slots txin)))
    with (get_sequence txin).
  destruct (serialize_outpoint txin) as [s|]; [|done]. cbn [rbind].
  destruct script as [b|]; [|done]. cbn [rbind].
  destruct (var_int _) as [n|]; [|done]. cbn [rbind].
  destruct (int_to_hex _ 4) as [q|]; [|done]. cbn [rbind].
  cbn [value with_value]. by destruct v, (value txin).
Qed.

(** ** Signing and coinbase inputs *)

Lemma sign_inputs_reaches keypairs (remaining : nat) :
  ∀ (i : nat) (tx tx1 : Transaction),
    sign_inputs keypairs i remaining tx = (Ok (), tx1) →
    ∀ k txin, (i ≤ k < i + remaining)%nat → _inputs tx !! k = Some txin →
      is_Some (num_sig txin).
Proof.
  induction remaining as [|remaining IH]; intros i tx tx1 Hs k txin Hk Hin; [lia|].
  cbn [sign_inputs] in Hs.
  unfold method_bind, method_self, method_lift, list_index in Hs.
  destruct (_inputs tx !! i) as [txin_i|] eqn:Hi; [|done].
  destruct (num_sig txin_i) as [num|] eqn:Hnum; cbn [getitem] in Hs; [|done].
  destruct (x_pubkeys txin_i) as [keys|]; cbn [getitem] in Hs; [|done].
  destruct (sign_x_pubkeys keypairs i num 0 keys tx) as [r1 tx2] eqn:Hinner.
  destruct r1 as [[]|e]; [|done].
  destruct (decide (k = i)) as [->|Hne].
  { rewrite Hi in Hin. injection Hin as <-. by rewrite Hnum. }
  destruct (sign_x_pubkeys_frame _ _ _ _ _ _ _ _ _ (tx_frame_refl tx) eq_refl Hinner)
    as [[Hall _] _].
  destruct (Forall2_lookup_l _ _ _ _ _ Hall Hin) as (txin' & Hin' & Hframe).
  destruct (IH (S i) tx2 tx1 Hs k txin' ltac:(lia) Hin') as [n Hn].
  destruct Hframe as (_ & _ & _ & _ & Hsame & _). rewrite Hsame, Hn. by eexists.
Qed.

Lemma sign_raw_on_failure keypairs (tx tx' : Transaction) (e : exn) :
  sign keypairs tx = (Raise e, tx') → tx_raw tx' = tx_raw tx.
Proof.
  unfold sign, method_bind, method_self, method_lift, method_set.
  destruct (sign_inputs keypairs 0 (length (_inputs tx)) tx) as [r1 tx1] eqn:Hin.
  destruct (sign_inputs_frame _ _ _ _ _ _ _ (tx_frame_refl tx) eq_refl Hin)
    as [_ Hraw].
  destruct r1 as [[]|e1]; [|by intros [= <- <-]].
  destruct (is_complete tx1); [|by intros [= <- <-]]. cbn [fst snd].
  destruct (serialize tx1 false); [done|by intros [= <- <-]].
Qed.

Lemma sign_inputs_split keypairs (a b : nat) :
  ∀ (i : nat) (tx : Transaction),
    sign_inputs keypairs i (a + b) tx
    = match sign_inputs keypairs i a tx with
      | (Ok _, tx1) => sign_inputs keypairs (i + a) b tx1
      | (Raise e, tx1) => (Raise e, tx1)
      end.
Proof.
  induction a as [|a IH]; intros i tx.
  - cbn [sign_inputs Nat.add]. unfold method_ret. by rewrite Nat.add_0_r.
  - cbn [sign_inputs Nat.add].
    unfold method_bind, method_self, method_lift, list_index.
    destruct (_inputs tx !! i) as [txin|]; [|done].
    destruct (num_sig txin) as [num|]; cbn [getitem]; [|done].
    destruct (x_pubkeys txin) as [keys|]; cbn [getitem]; [|done].
    destruct (sign_x_pubkeys keypairs i num 0 keys tx) as [[[]|e] tx1]; [|done].
    rewrite IH. by replace (S i + a)%nat with (i + S a)%nat by lia.
Qed.

(** X14: [sign] reads ['num_sig'] and ['x_pubkeys'] of every input it
    comes to, and a coinbase input that [_parse_input] returns has
    neither.  With an input that lacks one of them [sign] never returns
    normally, and the stored serialization stays as it was: the inputs
    before it are handled first, and when that fails, that is the outcome;
    otherwise the outcome is [KeyError] for the field, with the inputs
    before it as the loop left them.  When the input is the first, the
    transaction is as it was. *)
Theorem sign_stops_at_coinbase (keypairs : gmap XPublicKey (bytes * bool))
  (tx : Transaction) :
  (∀ vds vds' d, _parse_input vds = Ok (d, vds') → type d = Some coinbase →
     num_sig d = None ∧ x_pubkeys d = None ∧ signatures d = None)
  ∧ (∀ txin rest, _inputs tx = txin :: rest → num_sig txin = None →
       sign keypairs tx = (Raise (KeyError "num_sig"), tx))
  ∧ (∀ txin rest n, _inputs tx = txin :: rest → num_sig txin = Some n →
       x_pubkeys txin = None →
       sign keypairs tx = (Raise (KeyError "x_pubkeys"), tx))
  ∧ (∀ i txin r tx', _inputs tx !! i = Some txin →
       num_sig txin = None ∨ x_pubkeys txin = None →
       sign keypairs tx = (r, tx') →
       (∃ e, r = Raise e) ∧ tx_raw tx' = tx_raw tx
       ∧ match sign_inputs keypairs 0 i tx with
         | (Raise e, tx1) => r = Raise e ∧ tx' = tx1
         | (Ok _, tx1) =>
             r = Raise (KeyError (match num_sig txin with
                                  | None => "num_sig"
                                  | Some _ => "x_pubkeys"
                                  end))
             ∧ tx' = tx1
         end).
Proof.
  split; [|split; [|split]].
  - intros vds vds' d Hp Ht.
    destruct (_parse_input_forms _ _ _ Hp) as (pb & n & script & q & vds1 & _ & Hd).
    destruct Hd as [(_ & -> & _)|(_ & d1 & Hclass & Hd)]; [done|].
    exfalso. pose proof (classified_type _ _ Hclass ltac:(done)) as Hne.
    destruct Hd as [(_ & -> & _)|(_ & v & _ & ->)]; done.
  - intros txin rest Hin Hnum.
    unfold sign, method_bind, method_self. rewrite Hin. cbn [length sign_inputs].
    unfold method_bind, method_self, method_lift, list_index.
    rewrite Hin. cbn [lookup list_lookup]. by rewrite Hnum.
  - intros txin rest n Hin Hnum Hkeys.
    unfold sign, method_bind, method_self. rewrite Hin. cbn [length sign_inputs].
    unfold method_bind, method_self, method_lift, list_index.
    rewrite Hin. cbn [lookup list_lookup]. by rewrite Hnum, Hkeys.
  - intros i txin r tx' Hi Hmissing Hs.
    pose proof (lookup_lt_Some _ _ _ Hi) as Hlt.
    assert (Hloop : sign_inputs keypairs 0 (length (_inputs tx)) tx
      = match sign_inputs keypairs 0 i tx with
        | (Ok _, tx1) =>
            (Raise (KeyError (match num_sig txin with
                              | None => "num_sig"
                              | Some _ => "x_pubkeys"
                              end)), tx1)
        | (Raise e, tx1) => (Raise e, tx1)
        end).
    { replace (length (_inputs tx)) with (i + S (length (_inputs tx) - S i))%nat
        by lia.
      rewrite sign_inputs_split.
      destruct (sign_inputs keypairs 0 i tx) as [[[]|e] tx1] eqn:Hbefore; [|done].
      destruct (sign_inputs_frame _ _ _ _ _ _ _ (tx_frame_refl tx) eq_refl Hbefore)
        as [[Hall _] _].
      destruct (Forall2_lookup_l _ _ _ _ _ Hall Hi) as (txin1 & Hi1 & Hframe).
      destruct Hframe as (_ & _ & _ & _ & Hnum & _ & _ & _ & _ & Hkeys & _).
      cbn [sign_inputs Nat.add].
      unfold method_bind, method_self, method_lift, list_index.
      rewrite Hi1, <- Hnum.
      destruct (num_sig txin) as [num|]; cbn [getitem]; [|done].
      destruct Hmissing as [|Hnone]; [done|]. rewrite Hnone in Hkeys.
      destruct (x_pubkeys txin1); [done|]. done. }
    assert (Hr : r = (sign keypairs tx).1 ∧ tx' = (sign keypairs tx).2)
      by (by rewrite Hs).
    unfold sign, method_bind, method_self in Hr. rewrite Hloop in Hr.
    split; [|split].
    + destruct (sign_inputs keypairs 0 i tx) as [[[]|e] tx1];
        destruct Hr as [-> _]; by eexists.
    + destruct r as [[]|e]; [|by eapply sign_raw_on_failure].
      destruct (sign_inputs keypairs 0 i tx) as [[[]|e] tx1]; by destruct Hr.
    + destruct (sign_inputs keypairs 0 i tx) as [[[]|e] tx1]; exact Hr.
Qed.
(** ** Round trip of unsigned transactions *)

Ltac wire_arith :=
  unfold NO_SIGNATURE in *; rewrite ?length_app in *; cbn [length] in *;
  change (2 ^ 32) with 4294967296 in *;
  change (2 ^ 64) with 18446744073709551616 in *;
  lia.

Lemma _parse_scriptSig_p2pkh_unsigned (d : TxInput) (p q : bytes) (k : XPublicKey) pk :
  to_public_key k = Ok pk → Z.of_nat (length (raw k)) < 2 ^ 32 →
  push_script NO_SIGNATURE = Ok p → push_script (raw k) = Ok q →
  ∃ a,
    _parse_scriptSig d (p ++ q)
    = Ok (set_address (AddressOf a) (set_num_sig 1 (set_x_pubkeys [k]
            (set_signatures [None] (set_type p2pkh d))))).
Proof.
  intros Hpk Hklen Hp Hq.
  assert (pushable NO_SIGNATURE) as Hsig by (split; [done|simpl; lia]).
  assert (pushable (raw k)) as Hkey.
  { split; [by eapply to_public_key_nonempty|done]. }
  assert (Hinit : XPublicKey_init (raw k) = Ok k).
  { unfold XPublicKey_init. destruct k as [r]. cbn [raw]. by rewrite Hpk. }
  destruct (_script_GetOp_two_pushes NO_SIGNATURE (raw k) p q Hsig Hkey Hp Hq)
    as (op1 & pos1 & op2 & pos2 & Hop1 & Hop2 & Hget).
  unfold _parse_scriptSig. rewrite Hget.
  replace (_match_decoded _ [OP_PUSHDATA4]) with false by done.
  replace (_match_decoded _ [OP_PUSHDATA4; OP_PUSHDATA4]) with true.
  2:{ unfold _match_decoded. simpl.
      rewrite !bool_decide_eq_true_2 by (done || lia). done. }
  simpl. rewrite Hinit. simpl.
  unfold to_address. rewrite Hpk. simpl.
  destruct pk; eauto.
Qed.

Lemma offline_input_at (txin : TxInput) :
  offline_input txin →
  present_count txin = 0 ∧ required_count txin = 1 ∧ type txin = Some p2pkh
  ∧ ∃ script enc,
      input_script txin false = Ok (Some script)
      ∧ serialize_input txin (Some script) false = Ok enc
      ∧ ∀ vds tail, stream_at vds (enc ++ tail) →
          ∃ d vds', _parse_input vds = Ok (d, vds') ∧ stream_at vds' tail
                    ∧ same_input_and_value txin d.
Proof.
  intros ((h & n & q & Hh & Hhl & Hn & Hnr & Hq & Hqr) & Hnz & Hty
          & (k & pk & Hkeys & Hpk & Hklen) & Hsigs & Hnum & v & Hv & Hvr).
  split; [unfold present_count; by rewrite Hsigs|].
  split; [unfold required_count; by rewrite Hnum|]. split; [done|].
  destruct (push_script_Ok NO_SIGNATURE ltac:(simpl; lia)) as (p & Hp & _ & Hpl).
  destruct (push_script_Ok (raw k) Hklen) as (p2 & Hp2 & _ & Hp2l).
  assert (Hincomplete : is_txin_complete txin = Ok false).
  { unfold is_txin_complete. by rewrite Hsigs, Hnum. }
  assert (Hscript : input_script txin false = Ok (Some ((p ++ []) ++ p2))).
  { unfold input_script, get_siglist. rewrite Hty, Hkeys, Hsigs, Hnum.
    cbn [getitem rbind from_option id]. rewrite decide_False by done.
    cbn [rbind present_signatures omap sig_truthy length].
    rewrite bool_decide_eq_false_2 by done.
    cbn [fmap list_fmap sig_truthy rmapM rbind]. rewrite Hp.
    cbn [rbind list_index lookup list_lookup concat].
    unfold to_bytes. rewrite Hp2. done. }
  destruct (var_int_Ok (Z.of_nat (length ((p ++ []) ++ p2)))) as [vi Hvi].
  { wire_arith. }
  eexists _, ((reverse h ++ le_bytes 4 n) ++ vi ++ ((p ++ []) ++ p2) ++ le_bytes 4 q
              ++ le_bytes 8 v).
  split; [exact Hscript|]. split.
  { unfold serialize_input, serialize_outpoint, get_sequence.
    rewrite Hh, Hn, Hq. cbn [getitem rbind from_option id].
    rewrite !int_to_hex_Ok by (simpl; lia). cbn [rbind]. rewrite Hvi. cbn [rbind].
    rewrite Hv, Hincomplete. cbn [rbind negb].
    rewrite int_to_hex_Ok by (simpl; lia). cbn [rbind].
    by rewrite <- !app_assoc. }
  intros vds tail Hat.
  replace (((reverse h ++ le_bytes 4 n) ++ vi ++ ((p ++ []) ++ p2) ++ le_bytes 4 q
            ++ le_bytes 8 v) ++ tail)
    with ((reverse h ++ le_bytes 4 n ++ vi ++ ((p ++ []) ++ p2) ++ le_bytes 4 q)
          ++ le_bytes 8 v ++ tail) in Hat by (by rewrite <- !app_assoc).
  destruct (read_input_prefix_at vds (reverse h) ((p ++ []) ++ p2) vi
              (le_bytes 8 v ++ tail) n q) as (vds1 & Hpre & Hat1); try done.
  { by rewrite length_reverse. }
  { wire_arith. }
  rewrite app_nil_r in Hpre.
  destruct (_parse_scriptSig_p2pkh_unsigned
              (unclassified (hash_to_hex_str (reverse h)) n (p ++ p2) q) p p2 k pk)
    as (a & Hparse); try done.
  destruct (_read_num_at fmt_Q vds1 v tail ltac:(simpl; lia) Hat1)
    as (vds' & Hval & Hat').
  cbn [unpack calcsize] in Hval. rewrite le_value_le_bytes in Hval by (simpl; lia).
  eexists _, vds'. split; [|split; [exact Hat'|]].
  - revert Hpre. unfold read_input_prefix, _parse_input, reader_bind, reader_ret,
      reader_lift.
    destruct (read_bytes 32 vds) as [[? s1]|]; [|done].
    destruct (read_uint32 s1) as [[? s2]|]; [|done].
    destruct (read_compact_size s2) as [[? s3]|]; [|done].
    destruct (read_bytes _ s3) as [[? s4]|]; [|done].
    destruct (read_uint32 s4) as [[? s5]|]; [|done].
    intros [= -> -> -> -> ->].
    rewrite decide_False.
    2:{ unfold hash_to_hex_str. rewrite reverse_involutive. congruence. }
    fold (unclassified (hash_to_hex_str (reverse h)) n (p ++ p2) q).
    rewrite Hparse.
    replace (is_txin_complete _) with (Ok false : result bool) by done.
    cbn [negb]. unfold read_uint64. rewrite Hval. reflexivity.
  - unfold same_input_and_value, same_input, hash_to_hex_str. cbn.
    rewrite reverse_involutive. by rewrite Hh, Hn, Hq, Hkeys, Hsigs, Hnum, Hv, Hty.
Qed.

Lemma offline_inputs_at (inputs : list TxInput) :
  Forall offline_input inputs →
  ∃ encs,
    rmapM (λ txin, (let* script := input_script txin false in
                    serialize_input txin script false)%result) inputs = Ok encs
    ∧ ∀ vds tail, stream_at vds (concat encs ++ tail) →
        ∃ ds vds', read_times (length inputs) _parse_input vds = Ok (ds, vds')
                   ∧ stream_at vds' tail ∧ Forall2 same_input_and_value inputs ds.
Proof.
  induction 1 as [|txin inputs Hin _ (encs & Hencs & IH)].
  - exists []. split; [done|]. intros vds tail Hat. exists [], vds. by repeat split.
  - destruct (offline_input_at txin Hin)
      as (_ & _ & _ & script & enc & Hscript & Henc & Hparse).
    exists (enc :: encs). split.
    { cbn [rmapM]. rewrite Hscript. cbn [rbind]. rewrite Henc. cbn [rbind].
      by rewrite Hencs. }
    intros vds tail Hat. cbn [concat] in Hat. rewrite <- app_assoc in Hat.
    destruct (Hparse vds _ Hat) as (d & vds1 & Hd & Hat1 & Hsame).
    destruct (IH vds1 tail Hat1) as (ds & vds' & Hds & Hat' & Hall).
    exists (d :: ds), vds'. split; [|split; [done|by constructor]].
    cbn [read_times length]. unfold reader_bind at 1. rewrite Hd.
    unfold reader_bind at 1. rewrite Hds. done.
Qed.

Lemma offline_inputs_count (inputs : list TxInput) (s r : Z) :
  Forall offline_input inputs →
  signature_count_loop inputs s r = Ok (s, r + Z.of_nat (length inputs)).
Proof.
  intros Hall. revert s r.
  induction Hall as [|txin inputs Hin _ IH]; intros s r.
  - cbn. do 2 f_equal. lia.
  - destruct (offline_input_at txin Hin) as (Hp & Hr & Hty & _).
    cbn [signature_count_loop]. rewrite Hty. cbn [getitem rbind].
    rewrite decide_False by done.
    unfold present_count, required_count in Hp, Hr.
    apply (inj Z.of_nat _ 0%nat) in Hp. rewrite Hp, Hr. cbn [length].
    rewrite IH. do 2 f_equal; lia.
Qed.

(** X15: a transaction of unsigned pay-to-public-key-hash inputs, each
    with its key and its spent amount, is not complete, and deserializing
    what [serialize] writes gives back its version, its lock time, its
    outputs and its inputs with their empty slots, their keys, their
    threshold and their values: what an offline signer needs. *)
Theorem unsigned_roundtrip_keeps_values (tx : Transaction) :
  _inputs tx ≠ [] →
  Z.of_nat (length (_inputs tx)) < 2 ^ 64 →
  Forall offline_input (_inputs tx) →
  Z.of_nat (length (_outputs tx)) < 2 ^ 64 →
  Forall roundtrip_output (_outputs tx) →
  0 ≤ version tx < 2 ^ 31 →
  0 ≤ locktime tx < 2 ^ 32 →
  is_complete tx = Ok false
  ∧ ∃ raw d,
      serialize tx false = Ok raw
      ∧ deserialize raw = Ok d
      ∧ d_version d = version tx
      ∧ d_lockTime d = locktime tx
      ∧ Forall2 same_input_and_value (_inputs tx) (d_inputs d)
      ∧ d_outputs d = _outputs tx.
Proof.
  intros Hne Hnin Hins Hnout Houts Hver Hlock. split.
  { unfold is_complete, signature_count.
    rewrite (offline_inputs_count _ 0 0 Hins). cbn [rbind]. f_equal.
    apply bool_decide_eq_false_2. destruct (_inputs tx); [done|]. cbn [length]. lia. }
  destruct (offline_inputs_at _ Hins) as (encs & Hencs & Hparse).
  destruct (roundtrip_outputs_at _ Houts) as (oencs & Hoencs & Hread).
  destruct (var_int_Ok (Z.of_nat (length (_inputs tx)))) as [n_in Hn_in]; [lia|].
  destruct (var_int_Ok (Z.of_nat (length (_outputs tx)))) as [n_out Hn_out]; [lia|].
  assert (Hser : serialize tx false
    = Ok (le_bytes 4 (version tx) ++ (n_in ++ concat encs)
          ++ (n_out ++ concat oencs) ++ le_bytes 4 (locktime tx))).
  { unfold serialize, join_outputs.
    rewrite !int_to_hex_Ok by (simpl; lia). cbn [rbind].
    rewrite Hn_in. cbn [rbind]. rewrite Hencs. cbn [rbind].
    rewrite Hn_out. cbn [rbind]. rewrite Hoencs. done. }
  set (raw := le_bytes 4 (version tx) ++ (n_in ++ concat encs)
              ++ (n_out ++ concat oencs) ++ le_bytes 4 (locktime tx)) in *.
  exists raw.
  unfold deserialize, deserialize_stream, reader_bind, reader_ret, reader_raise.
  assert (Hat0 : stream_at (mkBCDataStream raw 0) raw) by done.
  unfold raw in Hat0 at 2. rewrite <- !app_assoc in Hat0.
  destruct (_read_num_at fmt_i _ (version tx) _ ltac:(simpl; lia) Hat0)
    as (s1 & Hr1 & Hat1).
  unfold read_int32. rewrite Hr1.
  destruct (read_compact_size_at s1 _ n_in _ (conj (Zle_0_nat _) Hnin) Hn_in Hat1)
    as (s2 & Hr2 & Hat2).
  rewrite Hr2. rewrite decide_False by (destruct (_inputs tx); [done|simpl; lia]).
  rewrite Nat2Z.id.
  destruct (Hparse s2 _ Hat2) as (ds & s3 & Hr3 & Hat3 & Hsame). rewrite Hr3.
  destruct (read_varint_at s3 _ n_out _ (conj (Zle_0_nat _) Hnout) Hn_out Hat3)
    as (s4 & Hr4 & Hat4).
  unfold read_list, reader_bind. rewrite Hr4. rewrite Nat2Z.id.
  destruct (Hread s4 _ Hat4) as (s5 & Hr5 & Hat5). rewrite Hr5.
  rewrite <- (app_nil_r (le_bytes 4 (locktime tx))) in Hat5.
  destruct (_read_num_at fmt_I s5 (locktime tx) [] Hlock Hat5) as (s6 & Hr6 & Hat6).
  unfold read_uint32. rewrite Hr6. cbn [rmap fst unpack calcsize].
  rewrite !le_value_le_bytes by (simpl; lia).
  eexists. split; [exact Hser|]. split; [reflexivity|].
  cbn [d_version d_lockTime d_inputs d_outputs].
  split; [|done].
  unfold to_signed. change (2 ^ (32 - 1)) with (2 ^ 31).
  case_match; [done|]. lia.
Qed.
End WithExternals.

(** ** The further properties on the sample transactions *)

Import TxRun TxSamples TxMoreSamples.
#[local] Existing Instance run_externals.

Lemma push_int_small_run : push_int_small.
Proof. intros k Hk. simpl. unfold OP_1. f_equal. f_equal. lia. Qed.

Lemma push_item_short_run : push_item_short.
Proof. by intros b Hb. Qed.

Lemma script_key_samples : Forall script_key multisig_keys.
Proof.
  repeat apply Forall_cons_2; [| | |constructor];
    (split; [simpl; lia|eexists; vm_compute; reflexivity]).
Qed.

Lemma multisig_script_parses_back_witness :
  (push_int_small ∧ push_item_short
   ∧ 1 ≤ 2 ≤ Z.of_nat (length multisig_keys) ∧ (length multisig_keys ≤ 16)%nat
   ∧ Forall script_key multisig_keys)
  ∧ ∃ s, multisig_script (KeyX <$> multisig_keys) 2 = Ok s
      ∧ _parse_redeemScript s
        = Ok (Some (2, Z.of_nat (length multisig_keys), multisig_keys,
                    P2SH_Address (hash_160 s))).
Proof.
  assert (Hm : 1 ≤ 2 ≤ Z.of_nat (length multisig_keys)) by (simpl; lia).
  assert (Hn : (length multisig_keys ≤ 16)%nat) by (simpl; lia).
  split; [by repeat split; try apply push_int_small_run;
            try apply push_item_short_run; try apply script_key_samples|].
  exact (multisig_script_parses_back multisig_keys 2 push_int_small_run
           push_item_short_run Hm Hn script_key_samples).
Defined.

Lemma sign_changes_only_slots_witness :
  sign (keypairs_of placeholder_key) placeholder_tx = (Ok (), placeholder_signed)
  ∧ tx_frame placeholder_tx placeholder_signed
  ∧ ∃ raw, tx_raw placeholder_signed = Some raw
      ∧ serialize placeholder_signed false = Ok raw.
Proof.
  assert (Hs : sign (keypairs_of placeholder_key) placeholder_tx
               = (Ok (), placeholder_signed)) by (vm_compute; reflexivity).
  pose proof (sign_changes_only_slots _ _ _ _ Hs) as (Hframe & _ & Hraw & _).
  split; [exact Hs|]. split; [exact Hframe|]. exact (Hraw eq_refl).
Defined.

Lemma update_signatures_changes_only_slots_witness :
  update_signatures [sig_1] unsigned_multisig_tx = updated_multisig
  ∧ _outputs updated_multisig.2 = _outputs unsigned_multisig_tx
  ∧ length (_inputs updated_multisig.2) = 1%nat.
Proof.
  assert (Hu : update_signatures [sig_1] unsigned_multisig_tx
               = (updated_multisig.1, updated_multisig.2))
    by (vm_compute; reflexivity).
  pose proof (update_signatures_changes_only_slots _ _ _ _ Hu)
    as (Hout & _ & _ & Hlen & _).
  split; [exact Hu|]. split; [exact Hout|]. exact Hlen.
Defined.

Lemma _parse_input_shape_witness :
  _parse_input (mkBCDataStream unsigned_input_bytes 0)
  = Ok (unsigned_input, mkBCDataStream unsigned_input_bytes 85)
  ∧ parsed_shape unsigned_input.
Proof.
  assert (Hp : _parse_input (mkBCDataStream unsigned_input_bytes 0)
               = Ok (unsigned_input, mkBCDataStream unsigned_input_bytes 85))
    by (vm_compute; reflexivity).
  split; [exact Hp|]. exact (_parse_input_shape _ _ _ Hp).
Defined.

Lemma offline_input_sample : Forall offline_input (_inputs offline_tx).
Proof.
  apply Forall_cons_2; [|constructor].
  split; [by eexists _, _, _|]. split; [done|]. split; [done|].
  split; [|split; [done|split; [done|by exists 70000]]].
  exists key_a. eexists. split; [done|]. split; [vm_compute; reflexivity|done].
Qed.

Lemma unsigned_roundtrip_keeps_values_witness :
  (_inputs offline_tx ≠ []
   ∧ Forall offline_input (_inputs offline_tx)
   ∧ Forall roundtrip_output (_outputs offline_tx))
  ∧ is_complete offline_tx = Ok false
  ∧ ∃ raw d,
      serialize offline_tx false = Ok raw
      ∧ deserialize raw = Ok d
      ∧ d_version d = version offline_tx
      ∧ d_lockTime d = locktime offline_tx
      ∧ Forall2 same_input_and_value (_inputs offline_tx) (d_inputs d)
      ∧ d_outputs d = _outputs offline_tx.
Proof.
  assert (H1 : _inputs offline_tx ≠ []) by done.
  assert (H2 : Z.of_nat (length (_inputs offline_tx)) < 2 ^ 64) by done.
  assert (H4 : Z.of_nat (length (_outputs offline_tx)) < 2 ^ 64) by done.
  assert (H5 : Forall roundtrip_output (_outputs offline_tx))
    by (repeat constructor; done).
  assert (H6 : 0 ≤ version offline_tx < 2 ^ 31) by done.
  assert (H7 : 0 ≤ locktime offline_tx < 2 ^ 32) by done.
  split; [by repeat split; try apply offline_input_sample|].
  exact (unsigned_roundtrip_keeps_values offline_tx H1 H2 offline_input_sample
           H4 H5 H6 H7).
Defined.

End TxExtra.

(** * The missing value and [sign] *)

Module TxSigning.
Import Tx TxSpec TxMore TxMoreSpec TxProofs TxExtra.

Section WithExternals.
Context `{Externals}.

Lemma builtin_not_value_missing (e : exn) : builtin e → e ≠ InputValueMissing.
Proof. by destruct e. Qed.

(** A preimage that is built has read the value of its input. *)
Lemma serialize_preimage_Ok_value (tx : Transaction) (i : nat) (p : bytes) :
  serialize_preimage tx i = Ok p →
  ∃ txin v, _inputs tx !! i = Some txin ∧ value txin = Some v.
Proof.
  rewrite serialize_preimage_head.
  destruct (preimage_head tx i) as [[[txin head] tail]|] eqn:Hh; [|done].
  destruct (preimage_head_sequence _ _ _ _ _ Hh) as [Hi _].
  cbn [rbind]. destruct (value txin) as [v|] eqn:Hv; [|done]. eauto.
Qed.

Lemma sign_txin_value_missing (tx : Transaction) (i : nat) (sec : bytes) :
  Externals_raise (λ e, e ≠ InputValueMissing) →
  sign_txin tx i sec = Raise InputValueMissing →
  serialize_preimage tx i = Raise InputValueMissing.
Proof.
  intros Hext. unfold sign_txin, preimage_hash.
  destruct (serialize_preimage tx i) as [p|e]; cbn [rmap rbind]; [|congruence].
  destruct Hext as (_ & _ & _ & _ & _ & Hsign & _).
  destruct (PrivateKey_sign sec (sha256d p)) as [sig|e] eqn:Hs; cbn [rbind].
  - intros Hr. exfalso. revert Hr.
    pose proof (raises_int_to_hex (λ e, e ≠ InputValueMissing) nHashType 1
                  builtin_not_value_missing) as Hh.
    destruct (int_to_hex nHashType 1) as [t|e] eqn:Ht; cbn [rbind]; [done|].
    intros [= ->]. by eapply Hh.
  - intros [= ->]. exfalso. by eapply Hsign.
Qed.

(** The inner loop changes no input but the one it is at. *)
Lemma sign_x_pubkeys_other_inputs keypairs (i : nat) (num : Z)
  (rest : list XPublicKey) :
  ∀ (j : nat) (tx : Transaction) r tx',
    sign_x_pubkeys keypairs i num j rest tx = (r, tx') →
    ∀ k, k ≠ i → _inputs tx' !! k = _inputs tx !! k.
Proof.
  induction rest as [|x_pubkey rest IH]; intros j tx r tx' Hs k Hk.
  - by injection Hs as <- <-.
  - cbn [sign_x_pubkeys] in Hs.
    unfold method_bind, method_self, method_lift, method_ret in Hs.
    unfold list_index in Hs.
    destruct (_inputs tx !! i) as [txin|] eqn:Hi; [|by injection Hs as <- <-].
    destruct (signatures txin) as [x_signatures|] eqn:Hsig;
      cbn [getitem] in Hs; [|by injection Hs as <- <-].
    case_bool_decide; [by injection Hs as <- <-|].
    destruct (keypairs !! x_pubkey) as [[sec compressed]|] eqn:Hkp;
      [|by eapply IH].
    destruct (sign_txin tx i sec) as [sig|]; [|by injection Hs as <- <-].
    destruct (list_setitem x_signatures j (Some sig)) as [sigs'|] eqn:Hset;
      [|by injection Hs as <- <-].
    unfold update_txin in Hs. cbn [fst snd] in Hs.
    destruct (kind x_pubkey) as [kd|];
      [|injection Hs as <- <-; cbn [_inputs set_inputs];
        by rewrite list_lookup_alter_ne].
    case_bool_decide.
    + destruct (PrivateKey_public_key_bytes sec compressed) as [pb|];
        [|injection Hs as <- <-; cbn [_inputs set_inputs];
          by rewrite list_lookup_alter_ne].
      destruct (XPublicKey_init pb) as [x|];
        [|injection Hs as <- <-; cbn [_inputs set_inputs];
          by rewrite list_lookup_alter_ne].
      cbn [fst snd] in Hs. rewrite (IH _ _ _ _ Hs k Hk).
      cbn [_inputs set_inputs]. by rewrite !list_lookup_alter_ne.
    + rewrite (IH _ _ _ _ Hs k Hk).
      cbn [_inputs set_inputs]. by rewrite list_lookup_alter_ne.
Qed.

(** With the value of its input there, the inner loop never fails for a
    missing value. *)
Lemma sign_x_pubkeys_valued keypairs (i : nat) (num : Z) (rest : list XPublicKey) :
  Externals_raise (λ e, e ≠ InputValueMissing) →
  ∀ (j : nat) (tx : Transaction) e tx',
    (∃ txin v, _inputs tx !! i = Some txin ∧ value txin = Some v) →
    sign_x_pubkeys keypairs i num j rest tx = (Raise e, tx') →
    e ≠ InputValueMissing.
Proof.
  intros Hext.
  induction rest as [|x_pubkey rest IH];
    intros j tx e tx' (txin & v & Hi & Hval) Hs; [done|].
  cbn [sign_x_pubkeys] in Hs.
  unfold method_bind, method_self, method_lift, method_ret in Hs.
  unfold list_index in Hs. rewrite Hi in Hs.
  destruct (signatures txin) as [x_signatures|] eqn:Hsig;
    cbn [getitem] in Hs; [|by injection Hs as <- <-].
  case_bool_decide; [done|].
  destruct (keypairs !! x_pubkey) as [[sec compressed]|] eqn:Hkp;
    [|eapply IH; [|exact Hs]; by eauto].
  destruct (sign_txin tx i sec) as [sig|e1] eqn:Hsign.
  2:{ injection Hs as <- <-. intros ->.
      apply sign_txin_value_missing in Hsign; [|done].
      destruct (serialize_preimage_value_missing tx i Hext) as [_ Hnever].
      by apply (Hnever txin Hi). }
  pose proof (raises_list_setitem (λ e, e ≠ InputValueMissing)
                builtin_not_value_missing x_signatures j (Some sig)) as Hset.
  destruct (list_setitem x_signatures j (Some sig)) as [sigs'|e1];
    [|injection Hs as <- <-; by eapply Hset].
  unfold update_txin in Hs. cbn [fst snd] in Hs.
  set (tx1 := set_inputs (alter (set_signatures sigs') i (_inputs tx)) tx) in *.
  assert (Hi1 : _inputs tx1 !! i = Some (set_signatures sigs' txin)).
  { cbn [_inputs set_inputs tx1]. by rewrite list_lookup_alter_eq, Hi. }
  pose proof (raises_kind (λ e, e ≠ InputValueMissing)
                builtin_not_value_missing x_pubkey) as Hkind.
  destruct (kind x_pubkey) as [kd|e1]; [|injection Hs as <- <-; by eapply Hkind].
  case_bool_decide; [|eapply IH; [|exact Hs]; by eauto].
  pose proof Hext as (_ & _ & _ & _ & _ & _ & Hbytes & _).
  destruct (PrivateKey_public_key_bytes sec compressed) as [pb|e1] eqn:Hpb;
    [|injection Hs as <- <-; by eapply Hbytes].
  pose proof (raises_XPublicKey_init (λ e, e ≠ InputValueMissing)
                builtin_not_value_missing Hext pb) as Hinit.
  destruct (XPublicKey_init pb) as [x|e1]; [|injection Hs as <- <-; by eapply Hinit].
  cbn [fst snd] in Hs. eapply IH; [|exact Hs].
  exists (setitem_x_pubkeys j x (set_signatures sigs' txin)), v.
  cbn [_inputs set_inputs]. rewrite list_lookup_alter_eq, Hi1. split; [done|].
  unfold setitem_x_pubkeys. cbn [x_pubkeys set_signatures].
  by destruct (x_pubkeys txin).
Qed.

(** The inner loop that fails for a missing value has changed nothing. *)
Lemma sign_x_pubkeys_value_missing keypairs (i : nat) (num : Z)
  (rest : list XPublicKey) :
  Externals_raise (λ e, e ≠ InputValueMissing) →
  ∀ (j : nat) (tx : Transaction) tx',
    sign_x_pubkeys keypairs i num j rest tx = (Raise InputValueMissing, tx') →
    tx' = tx ∧ serialize_preimage tx i = Raise InputValueMissing.
Proof.
  intros Hext.
  induction rest as [|x_pubkey rest IH]; intros j tx tx' Hs; [done|].
  cbn [sign_x_pubkeys] in Hs.
  unfold method_bind, method_self, method_lift, method_ret in Hs.
  unfold list_index in Hs.
  destruct (_inputs tx !! i) as [txin|] eqn:Hi; [|done].
  destruct (signatures txin) as [x_signatures|] eqn:Hsig;
    cbn [getitem] in Hs; [|done].
  case_bool_decide; [done|].
  destruct (keypairs !! x_pubkey) as [[sec compressed]|] eqn:Hkp;
    [|by eapply IH].
  destruct (sign_txin tx i sec) as [sig|e1] eqn:Hsign.
  2:{ injection Hs as -> <-. split; [done|]. by eapply sign_txin_value_missing. }
  exfalso.
  assert (Hv : ∃ txin v, _inputs tx !! i = Some txin ∧ value txin = Some v).
  { unfold sign_txin, preimage_hash in Hsign.
    destruct (serialize_preimage tx i) as [p|] eqn:Hp; [|done].
    by eapply serialize_preimage_Ok_value. }
  assert (Hstep : sign_x_pubkeys keypairs i num j (x_pubkey :: rest) tx
                  = (Raise InputValueMissing, tx')).
  { cbn [sign_x_pubkeys].
    unfold method_bind, method_self, method_lift, method_ret, list_index.
    rewrite Hi, Hsig. cbn [getitem]. rewrite bool_decide_eq_false_2 by done.
    rewrite Hkp, Hsign. exact Hs. }
  by eapply (sign_x_pubkeys_valued keypairs i num (x_pubkey :: rest) Hext j tx).
Qed.

(** The outer loop that fails for a missing value stopped at an input
    without a value, and left it and every later input as they were. *)
Lemma sign_inputs_value_missing keypairs (remaining : nat) :
  Externals_raise (λ e, e ≠ InputValueMissing) →
  ∀ (i : nat) (tx tx' : Transaction),
    sign_inputs keypairs i remaining tx = (Raise InputValueMissing, tx') →
    ∃ k txin, (i ≤ k)%nat ∧ _inputs tx !! k = Some txin ∧ value txin = None
      ∧ ∀ k', (k ≤ k')%nat → _inputs tx' !! k' = _inputs tx !! k'.
Proof.
  intros Hext.
  induction remaining as [|remaining IH]; intros i tx tx' Hs; [done|].
  cbn [sign_inputs] in Hs.
  unfold method_bind, method_self, method_lift, list_index in Hs.
  destruct (_inputs tx !! i) as [txin|] eqn:Hi; [|done].
  destruct (num_sig txin) as [num|]; cbn [getitem] in Hs; [|done].
  destruct (x_pubkeys txin) as [keys|]; cbn [getitem] in Hs; [|done].
  destruct (sign_x_pubkeys keypairs i num 0 keys tx) as [r1 tx1] eqn:Hinner.
  destruct r1 as [[]|e].
  - destruct (IH _ _ _ Hs) as (k & txin1 & Hk & Hin1 & Hval & Hlater).
    pose proof (sign_x_pubkeys_other_inputs _ _ _ _ _ _ _ _ Hinner) as Hother.
    exists k, txin1. split; [lia|]. split; [by rewrite <- Hother by lia|].
    split; [done|]. intros k' Hk'. rewrite Hlater by done. apply Hother. lia.
  - injection Hs as -> <-.
    apply sign_x_pubkeys_value_missing in Hinner as [-> Hpre]; [|done].
    apply (proj1 (serialize_preimage_value_missing tx i Hext)) in Hpre
      as (txin0 & _ & _ & _ & Hi0 & Hval).
    exists i, txin0. by repeat split.
Qed.

(** C6 (as the code has it): building the preimage of input [i] fails with
    [InputValueMissing] exactly when everything the preimage reads before
    the amount is there and input [i] has no ['value']; an input that has
    one never gives this exception.  A visit of a key slot that fails in
    this way changes nothing.  A call of [sign] that fails in this way
    stopped at an input without a value: that input and every later one
    are as they were, as are the outputs, the lock time, the version and
    the stored serialization, and every input keeps all but its keys and
    signature slots; when the input is the first, the transaction is as it
    was. *)
Theorem InputValueMissing_iff (tx : Transaction) (i : nat) :
  Externals_raise (λ e, e ≠ InputValueMissing) →
  (serialize_preimage tx i = Raise InputValueMissing
   ↔ ∃ txin head tail,
       preimage_head tx i = Ok (txin, head, tail) ∧ _inputs tx !! i = Some txin
       ∧ value txin = None)
  ∧ (∀ txin, _inputs tx !! i = Some txin → is_Some (value txin) →
       serialize_preimage tx i ≠ Raise InputValueMissing)
  ∧ (∀ keypairs num j x_pubkey rest txin x_signatures sec compressed,
       _inputs tx !! i = Some txin →
       signatures txin = Some x_signatures →
       Z.of_nat (length (present_signatures x_signatures)) ≠ num →
       keypairs !! x_pubkey = Some (sec, compressed) →
       serialize_preimage tx i = Raise InputValueMissing →
       sign_x_pubkeys keypairs i num j (x_pubkey :: rest) tx
       = (Raise InputValueMissing, tx))
  ∧ (∀ keypairs tx',
       sign keypairs tx = (Raise InputValueMissing, tx') →
       tx_frame tx tx' ∧ tx_raw tx' = tx_raw tx
       ∧ ∃ k txin, _inputs tx !! k = Some txin ∧ value txin = None
           ∧ (∀ k', (k ≤ k')%nat → _inputs tx' !! k' = _inputs tx !! k')
           ∧ (k = 0%nat → tx' = tx)).
Proof.
  intros Hext.
  destruct (serialize_preimage_value_missing tx i Hext) as [Hiff Hnever].
  split; [exact Hiff|]. split; [exact Hnever|]. split.
  - intros keypairs num j x_pubkey rest txin x_signatures sec compressed
      Hi Hs Hnum Hk Hr.
    cbn [sign_x_pubkeys]. unfold method_bind, method_self, method_lift.
    unfold list_index. rewrite Hi, Hs. cbn [getitem].
    rewrite bool_decide_eq_false_2 by done.
    rewrite Hk. unfold sign_txin, preimage_hash. rewrite Hr. done.
  - intros keypairs tx' Hsign.
    pose proof (sign_raw_on_failure _ _ _ _ Hsign) as Hraw.
    revert Hsign. unfold sign, method_bind, method_self, method_lift, method_set.
    destruct (sign_inputs keypairs 0 (length (_inputs tx)) tx) as [r1 tx1] eqn:Hin.
    destruct (sign_inputs_frame _ _ _ _ _ _ _ (tx_frame_refl tx) eq_refl Hin)
      as [Hframe _].
    destruct r1 as [[]|e1].
    { pose proof (raises_serialize (λ e, e ≠ InputValueMissing)
                    builtin_not_value_missing Hext tx1 false) as Hser.
      unfold is_complete, signature_count.
      pose proof (signature_count_loop_totals (_inputs tx1) 0 0) as Hcount.
      destruct (signature_count_loop (_inputs tx1) 0 0) as [[s r]|e] eqn:Hloop;
        cbn [rbind fst snd].
      - destruct (serialize tx1 false) as [raw|e] eqn:Hraw1; [done|].
        intros [= -> <-]. exfalso. by eapply Hser.
      - intros [= -> <-]. exfalso. clear Hcount.
        assert (Hke : ∀ inputs s r e, signature_count_loop inputs s r = Raise e →
                        e ≠ InputValueMissing).
        { clear. induction inputs as [|txin inputs IH]; intros s r e; [done|].
          cbn [signature_count_loop].
          destruct (type txin) as [t|]; cbn [getitem rbind]; [|by intros [= <-]].
          destruct (decide (t = coinbase)); apply IH. }
        by eapply Hke. }
    intros [= -> <-]. split; [done|]. split; [done|].
    destruct (sign_inputs_value_missing _ _ Hext _ _ _ Hin)
      as (k & txin & _ & Hk & Hval & Hlater).
    exists k, txin. split; [done|]. split; [done|]. split; [done|].
    intros ->.
    assert (Hins : _inputs tx1 = _inputs tx).
    { apply list_eq. intros k'. apply Hlater. lia. }
    destruct Hframe as (_ & Hout & Hlock & Hver).
    destruct tx, tx1. cbn in *. congruence.
Qed.

End WithExternals.

(** ** On the sample transactions *)

Import TxRun TxSamples TxMoreSamples.
#[local] Existing Instance run_externals.

Lemma InputValueMissing_iff_witness :
  Externals_raise (λ e, e ≠ InputValueMissing)
  ∧ serialize_preimage valueless_tx 0 = Raise InputValueMissing
  ∧ serialize_preimage legacy_tx 0 ≠ Raise InputValueMissing
  ∧ sign (keypairs_of key_a) valueless_tx = (Raise InputValueMissing, valueless_tx)
  ∧ sign keypairs_a_b second_valueless_tx
    = (Raise InputValueMissing, second_valueless_signed)
  ∧ tx_raw second_valueless_signed = tx_raw second_valueless_tx
  ∧ ∃ k txin, _inputs second_valueless_tx !! k = Some txin ∧ value txin = None
      ∧ ∀ k', (k ≤ k')%nat →
          _inputs second_valueless_signed !! k' = _inputs second_valueless_tx !! k'.
Proof.
  pose proof (InputValueMissing_iff valueless_tx 0 not_InputValueMissing_run)
    as (Hiff & _ & _ & _).
  pose proof (InputValueMissing_iff legacy_tx 0 not_InputValueMissing_run)
    as (_ & Hvalue & _ & _).
  pose proof (InputValueMissing_iff second_valueless_tx 0 not_InputValueMissing_run)
    as (_ & _ & _ & Hsign).
  assert (Hr : serialize_preimage valueless_tx 0 = Raise InputValueMissing).
  { apply Hiff. eexists _, _, _. split; [vm_compute; reflexivity|]. done. }
  assert (Hs : sign keypairs_a_b second_valueless_tx
               = (Raise InputValueMissing, second_valueless_signed))
    by (vm_compute; reflexivity).
  destruct (Hsign _ _ Hs) as (_ & Hraw & k & txin & Hk & Hval & Hlater & _).
  split; [exact not_InputValueMissing_run|]. split; [exact Hr|]. split.
  { eapply Hvalue; [reflexivity|]. by eexists. }
  split; [reflexivity|]. split; [exact Hs|]. split; [exact Hraw|].
  exists k, txin. by repeat split.
Defined.

End TxSigning.

(** * Writing a transaction and reading it back *)

Module TxRoundtrip.
Import Tx TxSpec TxMore TxMoreSpec TxProofs TxExtra.

(** ** Decoding a run of data pushes *)








Section WithExternals.
Context `{Externals}.



(** ** The script of a script-hash input *)


(** ** One input *)




(** ** The whole transaction *)




End WithExternals.

(** ** The round trip on a sample transaction of all five kinds *)

Import TxRun TxSamples.
#[local] Existing Instance run_externals.




End TxRoundtrip.

(** * Further properties of the wallet storage *)

Module StorageExtra.
Import Storage StorageSpec StorageMore StorageMoreSpec StorageProofs.

Section WithExternals.
Context `{Externals}.

(** ** Reading what was put *)

Lemma py_eqb_JNone_l (value : json) : py_eqb JNone value = true → value = JNone.
Proof. by destruct value. Qed.

Lemma put_same_file_fields (key : string) (value : json) (self : WalletStorage) :
  same_file_fields (put key value self) self.
Proof.
  unfold put, same_file_fields.
  destruct (json_dumpable value); [|done]. cbn [negb].
  destruct value; repeat case_match; done.
Qed.

Lemma put_other_key (key key' : string) (value : json) (self : WalletStorage) :
  key' ≠ key → data (put key value self) !! key' = data self !! key'.
Proof.
  intros Hne. unfold put.
  destruct (json_dumpable value); [|done]. cbn [negb].
  destruct value; repeat case_match; try done; cbn [data set_data set_modified];
    by rewrite ?lookup_insert_ne, ?lookup_delete_ne by done.
Qed.

Lemma put_stores (key : string) (value : json) (self : WalletStorage) :
  json_dumpable value = true → value ≠ JNone →
  ∃ w, data (put key value self) !! key = Some w ∧ w ≠ JNone
    ∧ (w = value ∨ (put key value self = self ∧ py_eqb w value = true)).
Proof.
  intros Hd Hnone. unfold put. rewrite Hd. cbn [negb].
  destruct (py_eqb (default JNone (data self !! key)) value) eqn:Heq.
  - destruct (data self !! key) as [w|] eqn:Hw; cbn [default from_option id] in Heq.
    + exists w. assert (w ≠ JNone) by (intros ->; by apply py_eqb_JNone_l in Heq).
      destruct value; try done; cbn [negb]; rewrite Hw; eauto.
    + by apply py_eqb_JNone_l in Heq.
  - exists value. destruct value; try done; cbn [negb data set_data];
      rewrite lookup_insert_eq; eauto.
Qed.

(** X16: after [put] of a value that can be encoded and is not [None],
    [get] of the key returns the value, or the value that was stored when
    that one compares equal to it (a stored [True] is kept by [put] of 1),
    never the default; after [put] of [None] the key is absent and [get]
    returns the default; the other keys read as before, whatever was put;
    and the path, the file flag, the key and the text last read stay as
    they were. *)
Theorem put_then_get (key : string) (value default : json) (self : WalletStorage) :
  (json_dumpable value = true → value ≠ JNone →
   ∃ w, data (put key value self) !! key = Some w
     ∧ get (put key value self) key default = w
     ∧ (w = value ∨ (data self !! key = Some w ∧ py_eqb w value = true)))
  ∧ (data (put key JNone self) !! key = None
     ∧ get (put key JNone self) key default = default)
  ∧ (∀ key', key' ≠ key →
       data (put key value self) !! key' = data self !! key'
       ∧ get (put key value self) key' default = get self key' default)
  ∧ same_file_fields (put key value self) self.
Proof.
  split; [|split; [|split]].
  - intros Hd Hnone.
    destruct (put_stores key value self Hd Hnone) as (w & Hw & Hwn & Hcase).
    exists w. split; [done|]. split.
    + unfold get. rewrite Hw. by destruct w.
    + destruct Hcase as [->|[Hsame Heq]]; [by left|right].
      split; [|done]. by rewrite <- Hsame.
  - assert (Hk : data (put key JNone self) !! key = None).
    { unfold put. cbn.
      destruct (data self !! key) eqn:Hw; [|done].
      cbn [data set_data set_modified]. by rewrite lookup_delete_eq. }
    split; [done|]. unfold get. by rewrite Hk.
  - intros key' Hne. pose proof (put_other_key key key' value self Hne) as Hk.
    split; [done|]. unfold get. by rewrite Hk.
  - apply put_same_file_fields.
Qed.

(** ** The modified flag *)

Lemma put_modified (key : string) (value : json) (self : WalletStorage) :
  (modified self = true → modified (put key value self) = true)
  ∧ (put key value self = self ∨ modified (put key value self) = true).
Proof.
  unfold put. destruct (json_dumpable value); [|by auto]. cbn [negb].
  destruct value; repeat case_match; auto.
Qed.

Lemma same_file_fields_trans (a b c : WalletStorage) :
  same_file_fields a b → same_file_fields b c → same_file_fields a c.
Proof.
  unfold same_file_fields. intros (? & ? & ? & ? & ?) (? & ? & ? & ? & ?).
  repeat split; congruence.
Qed.

(** X17: no sequence of calls of [put] clears the modified flag, and
    after any sequence of calls either the object is as it was or the flag
    is set; so a change to the document never goes without the flag that
    makes the next [write] store it.  The path, the file flag, the key and
    the text last read stay as they were. *)
Theorem puts_mark_changes (kvs : list (string * json)) (self : WalletStorage) :
  (modified self = true → modified (puts kvs self) = true)
  ∧ (puts kvs self = self ∨ modified (puts kvs self) = true)
  ∧ (data (puts kvs self) ≠ data self → modified (puts kvs self) = true)
  ∧ same_file_fields (puts kvs self) self.
Proof.
  assert (Hmono : ∀ kvs self, modified self = true → modified (puts kvs self) = true).
  { clear. intros kvs. unfold puts. induction kvs as [|kv kvs IH]; intros self Hm;
      [done|]. cbn [foldl]. apply IH. by apply put_modified. }
  assert (Hor : ∀ kvs self, puts kvs self = self ∨ modified (puts kvs self) = true).
  { clear -Hmono. intros kvs. unfold puts in *.
    induction kvs as [|kv kvs IH]; intros self; [by left|].
    cbn [foldl]. destruct (proj2 (put_modified kv.1 kv.2 self)) as [Hsame|Hm].
    - rewrite Hsame. apply IH.
    - right. by apply Hmono. }
  split; [by apply Hmono|]. split; [by apply Hor|]. split.
  - intros Hd. destruct (Hor kvs self) as [Hsame|Hm]; [|done].
    by rewrite Hsame in Hd.
  - clear. revert self. unfold puts.
    induction kvs as [|kv kvs IH]; intros self; [done|].
    cbn [foldl]. eapply same_file_fields_trans; [apply IH|].
    apply put_same_file_fields.
Qed.

(** ** Writing the file *)

Lemma string_app_not_self (s t : string) : t ≠ "" → s +:+ t ≠ s.
Proof.
  intros Ht. induction s as [|c s IH]; [done|].
  cbn. intros [=]. by apply IH.
Qed.

Lemma temp_path_not_path (self : WalletStorage) (machine : Machine) :
  temp_path self machine ≠ path self.
Proof. unfold temp_path. by apply string_app_not_self. Qed.

Lemma write_modified (self : WalletStorage) (machine : Machine) :
  daemon machine = false → modified self = true →
  file_exists self = false ∨ is_Some (fs machine !! path self) →
  ∃ machine',
    write (self, machine)
    = (Ok (), (set_written (written_text self) self, machine'))
    ∧ fs machine' !! path self
      = Some (written_text self, mode_after_write self machine)
    ∧ fs machine' !! temp_path self machine = None
    ∧ (∀ p, p ≠ path self → p ≠ temp_path self machine →
         fs machine' !! p = fs machine !! p)
    ∧ pid machine' = pid machine ∧ daemon machine' = daemon machine.
Proof.
  intros Hd Hm Hcase.
  pose proof (temp_path_not_path self machine) as Hne.
  unfold write, _write, method_bind, method_machine, method_self, method_ret,
    method_raise, set_fs, set_self. cbn [fst snd]. rewrite Hd. cbn [fst snd].
  rewrite Hm. cbn [negb fst snd fs pid daemon].
  fold (written_text self). fold (temp_path self machine).
  unfold mode_after_write.
  assert (Hfiles : ∀ mode temp_mode,
    let files := <[path self:=(written_text self, mode)]>
                   (<[path self:=(written_text self, temp_mode)]>
                      (delete (temp_path self machine)
                         (<[temp_path self machine:=(written_text self, temp_mode)]>
                            (fs machine)))) in
    files !! path self = Some (written_text self, mode)
    ∧ files !! temp_path self machine = None
    ∧ ∀ p, p ≠ path self → p ≠ temp_path self machine →
        files !! p = fs machine !! p).
  { intros mode temp_mode files. subst files.
    split; [by rewrite lookup_insert_eq|]. split.
    - by rewrite !lookup_insert_ne, lookup_delete_eq by done.
    - intros p Hp Ht.
      by rewrite !lookup_insert_ne, lookup_delete_ne, lookup_insert_ne by done. }
  destruct (file_exists self) eqn:Hf.
  - destruct Hcase as [|[f Hfile]]; [done|]. rewrite Hfile. cbn [fst snd fs].
    eexists. split; [done|]. cbn [fs pid daemon].
    destruct (Hfiles f.2 (match fs machine !! temp_path self machine with
                          | Some g => g.2
                          | None => new_file_mode
                          end)) as (? & ? & ?). done.
  - cbn [fst snd fs]. eexists. split; [done|]. cbn [fs pid daemon].
    destruct (Hfiles (Z.lor S_IREAD S_IWRITE)
                (match fs machine !! temp_path self machine with
                 | Some g => g.2
                 | None => new_file_mode
                 end)) as (? & ? & ?). done.
Qed.

(** X18: [write] on a daemon thread returns without writing, whatever
    was modified.  Otherwise, for a modified object, the text is first
    written to the temporary file; when the object has recorded its file
    and the file is no longer there, [FileNotFoundError] is raised with the
    temporary file left behind and the object as it was; in the other cases
    the wallet file ends up holding the text (the document, encrypted when
    the object has a key) with the permission bits it had, or owner read
    and write for a wallet that had no file, the temporary file is gone,
    every other file is as it was, and the object records the file, the
    text and that it is not modified. *)
Theorem write_replaces_file (self : WalletStorage) (machine : Machine) :
  (daemon machine = true → write (self, machine) = (Ok (), (self, machine)))
  ∧ (daemon machine = false → modified self = true →
     (file_exists self = true → fs machine !! path self = None →
      write (self, machine)
      = (Raise FileNotFoundError, (self, with_temp_file self machine)))
     ∧ (file_exists self = false ∨ is_Some (fs machine !! path self) →
        ∃ machine',
          write (self, machine)
          = (Ok (), (set_written (written_text self) self, machine'))
          ∧ fs machine' !! path self
            = Some (written_text self, mode_after_write self machine)
          ∧ fs machine' !! temp_path self machine = None
          ∧ (∀ p, p ≠ path self → p ≠ temp_path self machine →
               fs machine' !! p = fs machine !! p)
          ∧ pid machine' = pid machine ∧ daemon machine' = daemon machine)).
Proof.
  split.
  - intros Hd. unfold write, _write, method_bind, method_machine, method_ret.
    cbn [fst snd]. by rewrite Hd.
  - intros Hd Hm. split; [|by apply write_modified].
    intros Hf Hnone.
    unfold write, _write, method_bind, method_machine, method_self, method_ret,
      method_raise, set_fs, set_self. cbn [fst snd]. rewrite Hd. cbn [fst snd].
    rewrite Hm. cbn [negb fst snd fs pid daemon]. by rewrite Hf, Hnone.
Qed.

(** ** The version of the document and the upgrade *)

Lemma get_seed_version_stored (self : WalletStorage) (v : Z) :
  data self !! "seed_version" = Some (JInt v) → 12 ≤ v ≤ FINAL_SEED_VERSION →
  get_seed_version self = Ok v.
Proof.
  intros Hv Hr. unfold get_seed_version, get. rewrite Hv.
  unfold FINAL_SEED_VERSION in *. cbn [py_truthy negb as_number rbind].
  replace (v =? 0) with false by lia. cbn [negb rbind].
  rewrite bool_decide_eq_false_2 by lia. by rewrite bool_decide_eq_true_2 by lia.
Qed.

Lemma guarded_skips (self : WalletStorage) (machine : Machine) (lo hi v : Z)
  (body : Method unit) :
  get_seed_version self = Ok v → hi < v →
  guarded lo hi body (self, machine) = (Ok (), (self, machine)).
Proof.
  intros Hv Hgt. unfold guarded, _is_upgrade_method_needed, method_bind, method_self,
    method_lift, method_ret. cbn [fst snd]. rewrite Hv.
  by rewrite bool_decide_eq_true_2 by lia.
Qed.

Lemma method_bind_Ok {A B : Type} (m : Method A) (f : A → Method B)
  (w w' : WalletStorage * Machine) (b : B) :
  method_bind m f w = (Ok b, w') → ∃ a w1, m w = (Ok a, w1) ∧ f a w1 = (Ok b, w').
Proof.
  unfold method_bind. destruct (m w) as [[a|e] w1]; [|done]. eauto.
Qed.

Lemma put_seed_version_final (self : WalletStorage) :
  data (put "seed_version" (JInt FINAL_SEED_VERSION) self) !! "seed_version"
  = Some (JInt FINAL_SEED_VERSION).
Proof.
  destruct (put_stores "seed_version" (JInt FINAL_SEED_VERSION) self)
    as (w & Hw & _ & [->|[_ Heq]]); [done|done|done|].
  rewrite Hw. f_equal. unfold FINAL_SEED_VERSION in *.
  destruct w as [|b|z|s|l|d|i]; try done; cbn in Heq.
  - by destruct b.
  - f_equal. lia.
Qed.

Lemma write_Ok_inv (s s' : WalletStorage) (m m' : Machine) :
  write (s, m) = (Ok (), (s', m')) →
  data s' = data s ∧ daemon m' = daemon m
  ∧ (daemon m = false → modified s' = false).
Proof.
  unfold write, _write, method_bind, method_machine, method_self, method_ret,
    method_raise, set_fs, set_self. cbn [fst snd].
  destruct (daemon m) eqn:Hd; cbn [fst snd]; [by intros [= <- <-]|].
  destruct (modified s) eqn:Hm; cbn [negb fst snd]; [|by intros [= <- <-]].
  destruct (file_exists s); [destruct (fs m !! path s)|]; cbn [fst snd];
    intros [= <- <-]; done.
Qed.

Lemma write_not_needed (s : WalletStorage) (m : Machine) :
  (daemon m = false → modified s = false) → write (s, m) = (Ok (), (s, m)).
Proof.
  intros Hm. unfold write, _write, method_bind, method_machine, method_self,
    method_ret. cbn [fst snd]. destruct (daemon m); [done|].
  cbn [fst snd]. by rewrite Hm.
Qed.

Lemma conversions_of_final (self : WalletStorage) (machine : Machine) :
  data self !! "seed_version" = Some (JInt FINAL_SEED_VERSION) →
  Forall (λ step, step (self, machine) = (Ok (), (self, machine))) conversion_steps
  ∧ conversions (self, machine) = write (self, machine).
Proof.
  intros Hv.
  assert (Hg : get_seed_version self = Ok FINAL_SEED_VERSION)
    by (apply get_seed_version_stored; [done|unfold FINAL_SEED_VERSION; lia]).
  assert (Hskip : ∀ lo hi body, hi < FINAL_SEED_VERSION →
            guarded lo hi body (self, machine) = (Ok (), (self, machine)))
    by (intros; by eapply guarded_skips).
  assert (Hput : put "seed_version" (JInt FINAL_SEED_VERSION) self = self).
  { apply (put_same_value self ("seed_version", JInt FINAL_SEED_VERSION)).
    split; [done|]. exists (JInt FINAL_SEED_VERSION). split; [done|].
    unfold FINAL_SEED_VERSION. done. }
  split.
  - unfold conversion_steps, convert_imported, convert_wallet_type, convert_account,
      convert_version_13_b, convert_version_14, convert_version_15,
      convert_version_16, convert_version_17, convert_version_18,
      convert_version_19.
    repeat (constructor; [apply Hskip; unfold FINAL_SEED_VERSION; lia|]).
    constructor.
  - unfold conversions, convert_imported, convert_wallet_type, convert_account,
      convert_version_13_b, convert_version_14, convert_version_15,
      convert_version_16, convert_version_17, convert_version_18,
      convert_version_19.
    repeat (unfold method_bind at 1;
            rewrite Hskip by (unfold FINAL_SEED_VERSION; lia)).
    unfold method_bind at 1. unfold put_, set_self. cbn [fst snd].
    by rewrite Hput.
Qed.

Lemma _backup_wallet_keeps_daemon (self self1 : WalletStorage)
  (machine machine1 : Machine) (r : result unit) :
  _backup_wallet (self, machine) = (r, (self1, machine1)) →
  self1 = self ∧ daemon machine1 = daemon machine ∧ pid machine1 = pid machine.
Proof.
  unfold _backup_wallet, copyfile, method_bind, method_self, method_machine,
    method_ret, method_raise, set_fs. cbn [fst snd].
  destruct (file_exists self); cbn [negb fst snd]; [|intros ?; by simplify_eq].
  destruct (_get_wallet_backup_path self machine); [|intros ?; by simplify_eq].
  cbn [fst snd]. destruct (fs machine !! path self); intros ?; by simplify_eq.
Qed.

Lemma upgrade_of_final (self : WalletStorage) (machine : Machine) :
  data self !! "seed_version" = Some (JInt FINAL_SEED_VERSION) →
  upgrade (self, machine) = (_backup_wallet;; write)%storage (self, machine)
  ∧ ((daemon machine = false → modified self = false) →
     upgrade (self, machine) = _backup_wallet (self, machine)
     ∧ (upgrade (self, machine)).2.1 = self).
Proof.
  intros Hv.
  assert (Hup : upgrade (self, machine)
                = (_backup_wallet;; write)%storage (self, machine)).
  { change (upgrade (self, machine))
      with ((_backup_wallet;; conversions)%storage (self, machine)).
    unfold method_bind.
    destruct (_backup_wallet (self, machine)) as [r [self1 machine1]] eqn:Hb.
    apply _backup_wallet_keeps_daemon in Hb as (-> & _).
    destruct r as [[]|e]; [|done].
    by apply conversions_of_final. }
  split; [done|]. intros Hm. rewrite Hup. unfold method_bind.
  destruct (_backup_wallet (self, machine)) as [r [self1 machine1]] eqn:Hb.
  apply _backup_wallet_keeps_daemon in Hb as (-> & Hd & _).
  destruct r as [[]|e]; [|done].
  rewrite write_not_needed; [done|]. intros Hd1. apply Hm. congruence.
Qed.

(** X19: [upgrade] of a document that is at the final version runs no
    conversion step: every step returns with the object and the files as
    they were, and the call is the backup followed by [write]; when no
    write is due (the object is not modified, or the thread is a daemon)
    the call is the backup alone, and the object is as it was. *)
Theorem upgrade_of_final_is_backup (self : WalletStorage) (machine : Machine) :
  data self !! "seed_version" = Some (JInt FINAL_SEED_VERSION) →
  Forall (λ step, step (self, machine) = (Ok (), (self, machine))) conversion_steps
  ∧ upgrade (self, machine) = (_backup_wallet;; write)%storage (self, machine)
  ∧ ((daemon machine = false → modified self = false) →
     upgrade (self, machine) = _backup_wallet (self, machine)
     ∧ (upgrade (self, machine)).2.1 = self).
Proof.
  intros Hv. split; [by apply conversions_of_final|].
  by apply upgrade_of_final.
Qed.

(** X20: when [upgrade] returns normally, whatever the conversion steps
    taken from elsewhere did, the document is at the final version:
    [get_seed_version] gives it, [requires_upgrade] is false, off a daemon
    thread the object is not modified, and a second [upgrade] is its
    backup alone and leaves the object as it is. *)
Theorem upgrade_reaches_final_version (self self' : WalletStorage)
  (machine machine' : Machine) :
  upgrade (self, machine) = (Ok (), (self', machine')) →
  data self' !! "seed_version" = Some (JInt FINAL_SEED_VERSION)
  ∧ get_seed_version self' = Ok FINAL_SEED_VERSION
  ∧ requires_upgrade self' = Ok false
  ∧ (daemon machine' = false → modified self' = false)
  ∧ upgrade (self', machine') = _backup_wallet (self', machine')
  ∧ (upgrade (self', machine')).2.1 = self'.
Proof.
  intros Hup. unfold upgrade in Hup.
  do 11 (apply method_bind_Ok in Hup as ([] & [? ?] & _ & Hup)).
  apply method_bind_Ok in Hup as ([] & [after_put at_write] & Hput & Hw).
  unfold put_, set_self in Hput. cbn [fst snd] in Hput.
  injection Hput as <- <-.
  apply write_Ok_inv in Hw as (Hdata & Hdaemon & Hmod).
  assert (Hv : data self' !! "seed_version" = Some (JInt FINAL_SEED_VERSION))
    by (rewrite Hdata; apply put_seed_version_final).
  assert (Hg : get_seed_version self' = Ok FINAL_SEED_VERSION)
    by (apply get_seed_version_stored; [done|unfold FINAL_SEED_VERSION; lia]).
  assert (Hm : daemon machine' = false → modified self' = false)
    by (intros Hd; apply Hmod; congruence).
  split; [done|]. split; [done|]. split; [|split; [done|]].
  - unfold requires_upgrade. destruct (file_exists self'); [|done].
    rewrite Hg. unfold FINAL_SEED_VERSION. done.
  - by apply upgrade_of_final.
Qed.

(** X21: [get_seed_version] returns 4, 11 or a version from 12 to the
    final one, and nothing else; it raises only for a later version, for
    another version below 12 and for a version (or, without a version, a
    master public key) of the wrong type.  So the guard of a conversion
    step whose lowest version is 0 never raises for an unexpected version:
    it says whether the version is at most the highest one. *)
Theorem get_seed_version_range (self : WalletStorage) :
  (∀ v, get_seed_version self = Ok v →
     v = OLD_SEED_VERSION ∨ v = NEW_SEED_VERSION ∨ 12 ≤ v ≤ FINAL_SEED_VERSION)
  ∧ (∀ e, get_seed_version self = Raise e →
       e = too_old ∨ e = TypeError
       ∨ e = Exception "Your wallet has an unsupported seed version.")
  ∧ (∀ v machine hi, get_seed_version self = Ok v →
       _is_upgrade_method_needed 0 hi (self, machine)
       = (Ok (bool_decide (v ≤ hi)), (self, machine))).
Proof.
  assert (Hrange : ∀ v, get_seed_version self = Ok v →
    v = OLD_SEED_VERSION ∨ v = NEW_SEED_VERSION ∨ 12 ≤ v ≤ FINAL_SEED_VERSION).
  { intros v. unfold get_seed_version, raise_unsupported_version.
    destruct (if negb _ then _ else _) as [z|e]; [|done]. cbn [rbind].
    repeat case_bool_decide; try done; intros [= <-].
    - lia.
    - unfold OLD_SEED_VERSION, NEW_SEED_VERSION in *.
      match goal with Hn : _ ∈ _ |- _ => set_unfold in Hn; lia end. }
  split; [done|]. split.
  - intros e. unfold get_seed_version, raise_unsupported_version.
    destruct (negb _).
    + destruct (py_len _) as [n|e'] eqn:Hn; cbn [rbind].
      * repeat case_bool_decide; try done; intros [= <-]; auto.
      * unfold py_len in Hn.
        repeat case_match; try done; injection Hn as <-; intros [= <-]; auto.
    + destruct (as_number _) as [n|e'] eqn:Hn; cbn [rbind].
      * repeat case_bool_decide; try done; intros [= <-]; auto.
      * unfold as_number in Hn.
        repeat case_match; try done; injection Hn as <-; intros [= <-]; auto.
  - intros v machine hi Hv.
    unfold _is_upgrade_method_needed, method_bind, method_self, method_lift,
      method_ret, method_raise. cbn [fst snd]. rewrite Hv.
    specialize (Hrange v Hv).
    unfold OLD_SEED_VERSION, NEW_SEED_VERSION, FINAL_SEED_VERSION in Hrange.
    repeat case_bool_decide; try done; lia.
Qed.

(** ** The constructor *)

Section Constructor.
Context `{Surroundings}.

Lemma new_wallet_puts (path tx_store_aeskey_hex : string) (manual_upgrades : bool) :
  put "seed_version" (JInt FINAL_SEED_VERSION)
    (put "wallet_author" (JStr "ESV")
       (put "tx_store_aeskey" (JStr tx_store_aeskey_hex)
          (mkWalletStorage manual_upgrades ∅ path false false None "")))
  = mkWalletStorage manual_upgrades (new_wallet_data tx_store_aeskey_hex) path
      false true None "".
Proof.
  assert (Hstep : ∀ (key : string) (value : json) (self : WalletStorage),
    json_dumpable value = true → value ≠ JNone → data self !! key = None →
    put key value self
    = mkWalletStorage (Storage.manual_upgrades self) (<[key:=value]> (data self))
        (Storage.path self) (_file_exists self) true (pubkey self) (raw self)).
  { intros key value self Hd Hnone Hkey. unfold put. rewrite Hd, Hkey.
    cbn [negb default from_option id].
    destruct value; try done. }
  rewrite (Hstep "tx_store_aeskey") by done. cbn [data].
  rewrite (Hstep "wallet_author")
    by (try done; cbn [data]; by rewrite lookup_insert_ne).
  rewrite (Hstep "seed_version")
    by (try done; cbn [data]; by rewrite !lookup_insert_ne).
  done.
Qed.

(** X22: for a path whose directory exists and at which there is no
    file, the constructor returns an object without touching the files; its
    document holds the random key, the author and the final version, so
    that [get_seed_version] gives the final version and neither an upgrade
    nor a split is required; the object is modified and records no file,
    and its first [write] off a daemon thread creates the file with the
    document and owner read and write as its permission bits.  When the
    directory does not exist the constructor raises [IOError]. *)
Theorem new_wallet_is_final (path tx_store_aeskey_hex : string)
  (manual_upgrades : bool) (machine : Machine) :
  (dirname_exists path = false →
   WalletStorage_init path manual_upgrades tx_store_aeskey_hex machine
   = (Raise IOError, machine))
  ∧ (dirname_exists path = true → fs machine !! path = None →
     ∃ self,
       WalletStorage_init path manual_upgrades tx_store_aeskey_hex machine
       = (Ok self, machine)
       ∧ self = mkWalletStorage manual_upgrades
                  (new_wallet_data tx_store_aeskey_hex) path false true None ""
       ∧ get self "tx_store_aeskey" JNone = JStr tx_store_aeskey_hex
       ∧ get self "wallet_author" JNone = JStr "ESV"
       ∧ get_seed_version self = Ok FINAL_SEED_VERSION
       ∧ requires_upgrade self = Ok false
       ∧ requires_split self = Ok false
       ∧ (daemon machine = false →
          ∃ machine',
            write (self, machine)
            = (Ok (), (set_written (json_dumps (data self)) self, machine'))
            ∧ fs machine' !! path = Some (json_dumps (data self), 384)
            ∧ ∀ p, p ≠ path → p ≠ temp_path self machine →
                fs machine' !! p = fs machine !! p)).
Proof.
  split.
  - intros Hdir. unfold WalletStorage_init. by rewrite Hdir.
  - intros Hdir Hfile. eexists. split; [|split; [reflexivity|]].
    + unfold WalletStorage_init. rewrite Hdir. cbn [negb].
      unfold file_exists. cbn [_file_exists]. rewrite Hfile.
      rewrite bool_decide_eq_false_2 by (by intros [? ?]).
      rewrite andb_false_r. by rewrite new_wallet_puts.
    + set (self := mkWalletStorage _ _ _ _ _ _ _).
      assert (Hv : data self !! "seed_version" = Some (JInt FINAL_SEED_VERSION))
        by (subst self; cbn [data]; unfold new_wallet_data;
            by rewrite lookup_insert_eq).
      split; [|split; [|split; [|split; [done|split]]]].
      * unfold get. subst self. cbn [data]. unfold new_wallet_data.
        rewrite !lookup_insert_ne by done. by rewrite lookup_insert_eq.
      * unfold get. subst self. cbn [data]. unfold new_wallet_data.
        rewrite lookup_insert_ne by done. by rewrite lookup_insert_eq.
      * apply get_seed_version_stored; [done|unfold FINAL_SEED_VERSION; lia].
      * unfold requires_split, get. subst self. cbn [data].
        unfold new_wallet_data. rewrite !lookup_insert_ne by done.
        by rewrite lookup_empty.
      * intros Hd.
        destruct (write_modified self machine Hd eq_refl (or_introl eq_refl))
          as (machine' & Hw & Hpath & _ & Hother & _).
        exists machine'. split; [exact Hw|]. split; [exact Hpath|]. exact Hother.
Qed.

(** X23: for a path at which there is a file, the constructor reads the
    text and touches no file when the text is an encrypted document (the
    document of the object stays empty), when upgrades are left to the
    caller, or when the document is at the final version and holds no
    accounts; a text that cannot be parsed makes the constructor raise what
    the parser raised, with the files as they were. *)
Theorem open_wallet_reads_only (path tx_store_aeskey_hex : string)
  (manual_upgrades : bool) (machine : Machine) (f : string * Z) :
  dirname_exists path = true → path ≠ "" → fs machine !! path = Some f →
  (b64_starts_with_BIE1 f.1 = true →
   WalletStorage_init path manual_upgrades tx_store_aeskey_hex machine
   = (Ok (opened path manual_upgrades f.1 ∅), machine))
  ∧ (b64_starts_with_BIE1 f.1 = false →
     (∀ e, parse_document f.1 = Raise e →
        WalletStorage_init path manual_upgrades tx_store_aeskey_hex machine
        = (Raise e, machine))
     ∧ (∀ d, parse_document f.1 = Ok d →
          manual_upgrades = true
          ∨ (d !! "seed_version" = Some (JInt FINAL_SEED_VERSION)
             ∧ d !! "accounts" = None) →
          WalletStorage_init path manual_upgrades tx_store_aeskey_hex machine
          = (Ok (opened path manual_upgrades f.1 d), machine))).
Proof.
  intros Hdir Hpath Hfile.
  assert (Hinit : WalletStorage_init path manual_upgrades tx_store_aeskey_hex machine
    = if negb (b64_starts_with_BIE1 f.1) then
        match load_data f.1 (opened path manual_upgrades f.1 ∅, machine) with
        | (Ok _, w) => (Ok w.1, w.2)
        | (Raise e, w) => (Raise e, w.2)
        end
      else (Ok (opened path manual_upgrades f.1 ∅), machine)).
  { unfold WalletStorage_init. rewrite Hdir. cbn [negb].
    unfold file_exists, is_encrypted. cbn [_file_exists raw]. rewrite Hfile.
    rewrite bool_decide_eq_true_2 by (by eexists).
    replace (String.eqb path "") with false
      by (symmetry; by apply String.eqb_neq).
    done. }
  rewrite Hinit. split; [by intros ->|]. intros ->. cbn [negb].
  unfold load_data, method_bind, method_lift, set_self, method_self, method_ret,
    method_raise. split.
  - intros e ->. done.
  - intros d -> Hcase. cbn [fst snd].
    change (set_data d (opened path manual_upgrades f.1 ∅))
      with (opened path manual_upgrades f.1 d).
    destruct manual_upgrades eqn:Hmu; [done|].
    destruct Hcase as [|[Hv Hacc]]; [done|].
    change (Storage.manual_upgrades (opened path false f.1 d)) with false.
    cbn iota.
    assert (Hsplit : requires_split (opened path false f.1 d) = Ok false).
    { unfold requires_split, get. cbn [data opened]. by rewrite Hacc. }
    rewrite Hsplit. cbn [fst snd].
    assert (Hup : requires_upgrade (opened path false f.1 d) = Ok false).
    { unfold requires_upgrade. cbn [file_exists _file_exists opened].
      rewrite (get_seed_version_stored _ FINAL_SEED_VERSION)
        by (done || unfold FINAL_SEED_VERSION; lia).
      done. }
    by rewrite Hup.
Qed.

End Constructor.

End WithExternals.

(** ** The further properties on the sample wallets *)

Import StorageRun StorageSamples StorageMoreSamples.
#[local] Existing Instance run_externals.
#[local] Existing Instance run_surroundings.

Lemma upgrade_of_final_is_backup_witness :
  data final_storage !! "seed_version" = Some (JInt FINAL_SEED_VERSION)
  ∧ upgrade (final_storage, disk_machine)
    = _backup_wallet (final_storage, disk_machine)
  ∧ (upgrade (final_storage, disk_machine)).2.1 = final_storage.
Proof.
  assert (Hv : data final_storage !! "seed_version"
               = Some (JInt FINAL_SEED_VERSION)) by (vm_compute; reflexivity).
  split; [exact Hv|].
  refine (proj2 (proj2 (upgrade_of_final_is_backup final_storage disk_machine Hv)) _).
  intros _. reflexivity.
Defined.

Lemma upgrade_reaches_final_version_witness :
  upgrade (final_storage, disk_machine)
  = (Ok (), (final_upgraded.1, final_upgraded.2))
  ∧ final_upgraded.1 = final_storage
  ∧ get_seed_version final_upgraded.1 = Ok FINAL_SEED_VERSION
  ∧ requires_upgrade final_upgraded.1 = Ok false.
Proof.
  assert (Hup : upgrade (final_storage, disk_machine)
                = (Ok (), (final_upgraded.1, final_upgraded.2)))
    by (vm_compute; reflexivity).
  pose proof (upgrade_reaches_final_version _ _ _ _ Hup) as (_ & Hg & Hr & _).
  split; [exact Hup|]. split; [vm_compute; reflexivity|].
  split; [exact Hg|exact Hr].
Defined.

Lemma open_wallet_reads_only_witness :
  fs disk_machine !! "w" = Some ("{'k': None}", 384)
  ∧ @WalletStorage_init final_externals run_surroundings "w" false "00" disk_machine
    = (Ok (opened "w" false "{'k': None}" {["seed_version" := JInt 19]}),
       disk_machine).
Proof.
  assert (Hfile : fs disk_machine !! "w" = Some ("{'k': None}", 384))
    by (vm_compute; reflexivity).
  split; [exact Hfile|].
  refine (proj2 (proj2 (@open_wallet_reads_only final_externals run_surroundings
                          "w" "00" false disk_machine _ eq_refl _ Hfile)
                   eq_refl) _ eq_refl _).
  - done.
  - right. split; vm_compute; reflexivity.
Defined.

End StorageExtra.
